(** * radon-oop: the metric visitors of [radon/visitors.py]

    A shallow embedding of the four tree walkers of [radon.visitors]
    (cyclomatic complexity, Halstead counts, LCOM and CBO) together with the
    properties of them that the specification states.

    Conventions.
    - A Python [int] is a [Z]; a [float] is a binary64 number of the
      standard library's [SpecFloat]; a [str] is a [string]; a [set] of
      strings is a [gset string]; a [dict] with string keys is a
      [gmap string _].
    - A syntax-tree object of the [ast] module is an [AST]: the name of its
      class and its fields, in the order of the class's [_fields].
    - A Python computation that may raise is a function into [option]:
      [None] is "an exception was raised", [Some r] is "returned [r]".  *)

From Stdlib Require Import ZArith Ascii String.
From Stdlib Require SpecFloat.
From stdpp Require Import gmap strings list option listset.

Set Warnings "-register-all".
Open Scope string_scope.
Open Scope Z_scope.

(** ** Syntax trees ([ast.AST]) *)

(** What a field of a syntax-tree object holds: [None], a constant, another
    object, or a list of objects.  (Lists of the parser never hold anything
    the visitors look at except objects.) *)
Inductive value (N : Type) : Type :=
| VNone
| VBool (b : bool)
| VInt (z : Z)
| VStr (s : string)
| VNode (n : N)
| VList (l : list N).
Arguments VNone {N}.
Arguments VBool {N} b.
Arguments VInt {N} z.
Arguments VStr {N} s.
Arguments VNode {N} n.
Arguments VList {N} l.

Definition value_map {N M : Type} (f : N -> M) (v : value N) : value M :=
  match v with
  | VNone => VNone
  | VBool b => VBool b
  | VInt z => VInt z
  | VStr s => VStr s
  | VNode n => VNode (f n)
  | VList l => VList (map f l)
  end.

(** An object: [obj.__class__.__name__] and the object's attributes. *)
Inductive AST : Type :=
| Node (kind : string) (fields : list (string * value AST)).

Definition fields_map {N M : Type} (f : N -> M)
    (fs : list (string * value N)) : list (string * value M) :=
  map (fun fv => (fv.1, value_map f fv.2)) fs.

(** [CodeVisitor.get_name]: shorthand for [obj.__class__.__name__]. *)
Definition get_name (obj : AST) : string :=
  match obj with Node kind _ => kind end.

Definition fields (obj : AST) : list (string * value AST) :=
  match obj with Node _ fs => fs end.

(** Attribute lookup in a list of fields; no entry is [AttributeError]. *)
Fixpoint lookup_field {A : Type} (f : string) (fs : list (string * A)) : option A :=
  match fs with
  | [] => None
  | (g, v) :: rest => if decide (g = f) then Some v else lookup_field f rest
  end.

(** [obj.f] *)
Definition getattr (obj : AST) (f : string) : option (value AST) :=
  lookup_field f (fields obj).

(** [hasattr(obj, f)] *)
Definition hasattr (obj : AST) (f : string) : bool :=
  bool_decide (is_Some (getattr obj f)).

(** Reading a field at the type the code uses it at; a field holding
    anything else makes the operation applied to it raise. *)
Definition as_list {N : Type} (v : value N) : option (list N) :=
  match v with VList l => Some l | _ => None end.
Definition as_str {N : Type} (v : value N) : option string :=
  match v with VStr s => Some s | _ => None end.
Definition as_int {N : Type} (v : value N) : option Z :=
  match v with VInt z => Some z | VBool b => Some (if b then 1 else 0) | _ => None end.

Definition attr_list (obj : AST) (f : string) : option (list AST) :=
  getattr obj f ≫= as_list.
Definition attr_str (obj : AST) (f : string) : option string :=
  getattr obj f ≫= as_str.
Definition attr_int (obj : AST) (f : string) : option Z :=
  getattr obj f ≫= as_int.

(** [bool(v)]: Python truthiness. *)
Definition truthy {N : Type} (v : value N) : bool :=
  match v with
  | VNone => false
  | VBool b => b
  | VInt z => negb (z =? 0)
  | VStr s => match s with EmptyString => false | _ => true end
  | VNode _ => true
  | VList l => match l with [] => false | _ => true end
  end.

(** [isinstance(v, ast.K)] for a field value [v]. *)
Definition isinstance (v : value AST) (K : string) : bool :=
  match v with VNode n => bool_decide (get_name n = K) | _ => false end.

(** [v == s] for a field value [v] and a string [s]. *)
Definition eq_str {N : Type} (v : value N) (s : string) : bool :=
  match v with VStr s' => bool_decide (s' = s) | _ => false end.

Definition Z_of_bool (b : bool) : Z := if b then 1 else 0.
Definition len {A : Type} (l : list A) : Z := Z.of_nat (length l).

(** The child objects of a field and of an object, in the order in which
    [ast.NodeVisitor.generic_visit] iterates over them. *)
Definition child_items {N : Type} (v : value N) : list N :=
  match v with VNode n => [n] | VList l => l | _ => [] end.

Definition field_children {N : Type} (fs : list (string * value N)) : list N :=
  concat (map (fun fv => child_items fv.2) fs).

Definition children (obj : AST) : list AST := field_children (fields obj).

(** Running the visits of a sequence of children one after the other, each
    from the state the previous one left; the first exception ends it. *)
Fixpoint visit_each {S : Type} (visits : list (S -> option S)) (self : S) : option S :=
  match visits with
  | [] => Some self
  | v :: rest => v self ≫= visit_each rest
  end.

(** [ast.NodeVisitor.generic_visit]: call [visit] on every child.  [sub]
    is the object's field list with each child replaced by its visit. *)
Definition NodeVisitor_generic_visit {S : Type}
    (sub : list (string * value (S -> option S))) (self : S) : option S :=
  visit_each (field_children sub) self.

(** ** The record model: [Function] and [Class] *)

(** [BaseFunc]/[Function]: the named tuple of a function block. *)
Inductive Function : Type :=
  mkFunction {
    fn_name : string;
    fn_lineno : Z;
    fn_col_offset : Z;
    fn_endline : Z;
    fn_is_method : bool;
    fn_classname : option string;
    fn_closures : list Function;
    fn_complexity : Z }.

(** [BaseClass]/[Class]: the named tuple of a class block. *)
Inductive Class : Type :=
  mkClass {
    cls_name : string;
    cls_lineno : Z;
    cls_col_offset : Z;
    cls_endline : Z;
    cls_methods : list Function;
    cls_inner_classes : list Class;
    cls_real_complexity : Z }.

(** [Function.letter] *)
Definition fn_letter (f : Function) : string :=
  if fn_is_method f then "M" else "F".

(** [Function.fullname] *)
Definition fn_fullname (f : Function) : string :=
  match fn_classname f with
  | None => fn_name f
  | Some c => c ++ "." ++ fn_name f
  end.

(** ** Floating point

    A Python [float] is a number of the binary64 format of IEEE 754, which
    the standard library specifies as [spec_float] with a mantissa of 53
    bits and the exponent 1024 for the infinities.  Operations round to
    the nearest number, ties to the even mantissa. *)
Module float.
Import SpecFloat.

Definition t : Type := spec_float.
Definition prec : Z := 53.
Definition emax : Z := 1024.

(** [float(n)] for an [int]: the nearest float; [OverflowError] when that
    is beyond the largest one. *)
Definition of_int (n : Z) : option t :=
  match binary_normalize prec emax n 0 false with
  | S754_infinity _ => None
  | x => Some x
  end.

(** [x / y] on floats: [ZeroDivisionError] when [y] is zero. *)
Definition truediv (x y : t) : option t :=
  match y with
  | S754_zero _ => None
  | _ => Some (SFdiv prec emax x y)
  end.

(** [int(x)]: the float cut towards zero; [OverflowError] for an
    infinity and [ValueError] for a NaN. *)
Definition to_int (x : t) : option Z :=
  match x with
  | S754_zero _ => Some 0
  | S754_finite s m e => Some (cond_Zopp s (Z.shiftl (Zpos m) e))
  | _ => None
  end.

End float.

(** [int(x / float(y))] for integers [x] and [y]: both become floats, the
    quotient is a float, and [int] cuts it towards zero. *)
Definition int_of_true_div (x y : Z) : option Z :=
  y ← float.of_int y;
  x ← float.of_int x;
  quotient ← float.truediv x y;
  float.to_int quotient.

(** [Class.complexity]: "the average complexity of the class". *)
Definition Class_complexity (self : Class) : option Z :=
  match cls_methods self with
  | [] => Some (cls_real_complexity self)
  | _ =>
      let methods := len (cls_methods self) in
      average ← int_of_true_div (cls_real_complexity self) methods;
      Some (average + Z_of_bool (bool_decide (methods > 1)))
  end.

Definition sum (l : list Z) : Z := foldr Z.add 0 l.

(** ** [ComplexityVisitor] *)
Module ComplexityVisitor.

Record t : Type := mk {
  off : bool;
  complexity : Z;
  functions : list Function;
  classes : list Class;
  to_method : bool;
  classname : option string;
  no_assert : bool;
  (** [None] is [float("-inf")] *)
  _max_line : option Z }.

(** [__init__] *)
Definition init (to_method : bool) (classname : option string)
    (off no_assert : bool) : t :=
  {| off := off;
     complexity := if off then 1 else 0;
     functions := [];
     classes := [];
     to_method := to_method;
     classname := classname;
     no_assert := no_assert;
     _max_line := None |}.

Definition add_complexity (k : Z) (self : t) : t :=
  {| off := off self; complexity := complexity self + k;
     functions := functions self; classes := classes self;
     to_method := to_method self; classname := classname self;
     no_assert := no_assert self; _max_line := _max_line self |}.

Definition append_function (f : Function) (self : t) : t :=
  {| off := off self; complexity := complexity self;
     functions := functions self ++ [f]; classes := classes self;
     to_method := to_method self; classname := classname self;
     no_assert := no_assert self; _max_line := _max_line self |}.

Definition append_class (c : Class) (self : t) : t :=
  {| off := off self; complexity := complexity self;
     functions := functions self; classes := classes self ++ [c];
     to_method := to_method self; classname := classname self;
     no_assert := no_assert self; _max_line := _max_line self |}.

(** [functions_complexity] *)
Definition functions_complexity (self : t) : Z :=
  sum (map fn_complexity (functions self)) - len (functions self).

(** [classes_complexity] *)
Definition classes_complexity (self : t) : Z :=
  sum (map cls_real_complexity (classes self)) - len (classes self).

(** [total_complexity] *)
Definition total_complexity (self : t) : Z :=
  complexity self + functions_complexity self + classes_complexity self
  + Z_of_bool (negb (off self)).

(** [blocks] *)
Definition blocks (self : t) : list (Function + Class) :=
  map inl (functions self)
  ++ concat (map (fun c => inr c :: map inl (cls_methods c)) (classes self)).

(** [max_line] (getter) *)
Definition max_line (self : t) : option Z := _max_line self.

(** [value > self._max_line] against a line that may be minus infinity *)
Definition above (value : Z) (line : option Z) : bool :=
  match line with None => true | Some m => bool_decide (value > m) end.

(** [max_line] (setter) *)
Definition set_max_line (value : Z) (self : t) : t :=
  if above value (_max_line self) then
    {| off := off self; complexity := complexity self;
       functions := functions self; classes := classes self;
       to_method := to_method self; classname := classname self;
       no_assert := no_assert self; _max_line := Some value |}
  else self.

(** [max(lineno, line)] and [max(lines)] with lines that may be minus
    infinity; the first argument is an integer, so the result is one. *)
Definition max_with (lineno : Z) (line : option Z) : Z :=
  match line with None => lineno | Some m => Z.max lineno m end.

(** The test of the generator inside [any(...)] of the "Match" rule:
    [getattr(case.pattern, "pattern", False) is None]. *)
Definition pattern_is_None (case : AST) : option bool :=
  pattern ← getattr case "pattern";
  Some match pattern with
       | VNode p =>
           match getattr p "pattern" with
           | Some VNone => true
           | _ => false
           end
       | _ => false
       end.

(** [any(case for case in cases if ...)]: lazy, it stops at the first
    case that passes the test (a case object is always true). *)
Fixpoint contain_underscore (cases : list AST) : option bool :=
  match cases with
  | [] => Some false
  | case :: rest =>
      b ← pattern_is_None case;
      if b : bool then Some true else contain_underscore rest
  end.

Section visit.
(** The visits of the children of the node at hand, field by field. *)
Context (node : AST) (sub : list (string * value (t -> option t))).

(** The first statement of [generic_visit]:
    [if hasattr(node, "lineno"): self.max_line = node.lineno]. *)
Definition note_line (self : t) : option t :=
  if hasattr node "lineno"
  then lineno ← attr_int node "lineno"; Some (set_max_line lineno self)
  else Some self.

(** The [if]/[elif] chain of [generic_visit] on the name of the node's
    class: what the node itself adds to [self.complexity]. *)
Definition count_node (self : t) : option t :=
  let name := get_name node in
  if bool_decide (name ∈ ["Try"; "TryExcept"]) then
    handlers ← attr_list node "handlers";
    orelse ← getattr node "orelse";
    Some (add_complexity (len handlers + Z_of_bool (truthy orelse)) self)
  else if bool_decide (name = "BoolOp") then
    values ← attr_list node "values";
    Some (add_complexity (len values - 1) self)
  else if bool_decide (name ∈ ["If"; "IfExp"]) then
    Some (add_complexity 1 self)
  else if bool_decide (name = "Match") then
    cases ← attr_list node "cases";
    underscore ← contain_underscore cases;
    Some (add_complexity (Z.max 0 (len cases - Z_of_bool underscore)) self)
  else if bool_decide (name ∈ ["For"; "While"; "AsyncFor"]) then
    orelse ← getattr node "orelse";
    Some (add_complexity (Z_of_bool (truthy orelse) + 1) self)
  else if bool_decide (name = "comprehension") then
    ifs ← attr_list node "ifs";
    Some (add_complexity (len ifs + 1) self)
  else Some self.

(** [generic_visit]: "main entry point for the visitor".  It ends with
    [super(ComplexityVisitor, self).generic_visit(node)]. *)
Definition generic_visit (self : t) : option t :=
  self ← note_line self;
  self ← count_node self;
  NodeVisitor_generic_visit sub self.

(** [visit_Assert] *)
Definition visit_Assert (self : t) : option t :=
  Some (add_complexity (Z_of_bool (negb (no_assert self))) self).

(** The loop of [visit_FunctionDef] over [node.body]: the closures and
    the body complexity so far, and the visitor of the last child. *)
Fixpoint function_body (no_assert : bool) (body : list (t -> option t))
    (closures : list Function) (body_complexity : Z) (last : option t)
    : option (list Function * Z * option t) :=
  match body with
  | [] => Some (closures, body_complexity, last)
  | child :: rest =>
      visitor ← child (init false None false no_assert);
      function_body no_assert rest
        (closures ++ functions visitor)
        (body_complexity + complexity visitor)
        (Some visitor)
  end.

(** [visit_FunctionDef] *)
Definition visit_FunctionDef (self : t) : option t :=
  body ← lookup_field "body" sub ≫= as_list;
  '(closures, body_complexity, last) ←
    function_body (no_assert self) body [] 1 None;
  name ← attr_str node "name";
  lineno ← attr_int node "lineno";
  col_offset ← attr_int node "col_offset";
  (* [visitor] is unbound when the body was empty *)
  visitor ← last;
  let func :=
    mkFunction name lineno col_offset
      (max_with lineno (max_line visitor))
      (to_method self) (classname self) closures body_complexity in
  Some (append_function func self).

(** [visit_AsyncFunctionDef] *)
Definition visit_AsyncFunctionDef (self : t) : option t :=
  visit_FunctionDef self.

(** The loop of [visit_ClassDef] over [node.body]. *)
Fixpoint class_body (classname : string) (no_assert : bool)
    (body : list (t -> option t))
    (methods : list Function) (body_complexity : Z)
    (visitors_max_lines : list (option Z)) (inner_classes : list Class)
    : option (list Function * Z * list (option Z) * list Class) :=
  match body with
  | [] => Some (methods, body_complexity, visitors_max_lines, inner_classes)
  | child :: rest =>
      visitor ← child (init true (Some classname) false no_assert);
      class_body classname no_assert rest
        (methods ++ functions visitor)
        (body_complexity
         + (complexity visitor + functions_complexity visitor
            + len (functions visitor)))
        (visitors_max_lines ++ [max_line visitor])
        (inner_classes ++ classes visitor)
  end.

(** [visit_ClassDef] *)
Definition visit_ClassDef (self : t) : option t :=
  classname ← attr_str node "name";
  lineno ← attr_int node "lineno";
  body ← lookup_field "body" sub ≫= as_list;
  '(methods, body_complexity, visitors_max_lines, inner_classes) ←
    class_body classname (no_assert self) body [] 1 [Some lineno] [];
  col_offset ← attr_int node "col_offset";
  let endline :=
    foldl max_with lineno
      (visitors_max_lines ++ map (fun m => Some (fn_endline m)) methods) in
  let cls :=
    mkClass classname lineno col_offset endline
      methods inner_classes body_complexity in
  Some (append_class cls self).

(** [ast.NodeVisitor.visit]: the method named after the node's class,
    [generic_visit] when there is none. *)
Definition dispatch (self : t) : option t :=
  let name := get_name node in
  if bool_decide (name = "Assert") then visit_Assert self
  else if bool_decide (name = "AsyncFunctionDef") then visit_AsyncFunctionDef self
  else if bool_decide (name = "FunctionDef") then visit_FunctionDef self
  else if bool_decide (name = "ClassDef") then visit_ClassDef self
  else generic_visit self.
End visit.

(** [visitor.visit(node)] *)
Fixpoint visit (node : AST) : t -> option t :=
  match node with
  | Node kind fs => dispatch (Node kind fs) (fields_map visit fs)
  end.

(** [ComplexityVisitor.from_ast(node, **kwargs)] *)
Definition from_ast (node : AST) (to_method : bool)
    (classname : option string) (off no_assert : bool) : option t :=
  visit node (init to_method classname off no_assert).

End ComplexityVisitor.


(** ** The node classes of the parser

    The trees that [ast.parse] builds, as far as the examples below need
    them: one constructor function per class, the fields in the order of
    the class's [_fields] (Python 3.10).  [located] adds the position
    attributes the parser gives to statements and expressions. *)
Module ast.

Definition opt (o : option AST) : value AST :=
  match o with Some n => VNode n | None => VNone end.

Definition opt_str (o : option string) : value AST :=
  match o with Some s => VStr s | None => VNone end.

Definition located (lineno col_offset : Z) (n : AST) : AST :=
  Node (get_name n)
       (fields n ++ [("lineno", VInt lineno); ("col_offset", VInt col_offset)]).

Definition Load : AST := Node "Load" [].
Definition Store : AST := Node "Store" [].

Definition Module (body : list AST) : AST :=
  Node "Module" [("body", VList body); ("type_ignores", VList [])].

Definition arg (name : string) (annotation : option AST) : AST :=
  Node "arg" [("arg", VStr name); ("annotation", opt annotation);
              ("type_comment", VNone)].

(** Positional parameters only; the other parameter lists are empty. *)
Definition arguments (args : list AST) : AST :=
  Node "arguments"
       [("posonlyargs", VList []); ("args", VList args); ("vararg", VNone);
        ("kwonlyargs", VList []); ("kw_defaults", VList []);
        ("kwarg", VNone); ("defaults", VList [])].

Definition FunctionDef (name : string) (args : AST) (body : list AST)
    (decorator_list : list AST) (returns : option AST) : AST :=
  Node "FunctionDef"
       [("name", VStr name); ("args", VNode args); ("body", VList body);
        ("decorator_list", VList decorator_list); ("returns", opt returns);
        ("type_comment", VNone)].

Definition AsyncFunctionDef (name : string) (args : AST) (body : list AST)
    (decorator_list : list AST) (returns : option AST) : AST :=
  Node "AsyncFunctionDef"
       [("name", VStr name); ("args", VNode args); ("body", VList body);
        ("decorator_list", VList decorator_list); ("returns", opt returns);
        ("type_comment", VNone)].

Definition ClassDef (name : string) (bases keywords body decorator_list : list AST)
    : AST :=
  Node "ClassDef"
       [("name", VStr name); ("bases", VList bases); ("keywords", VList keywords);
        ("body", VList body); ("decorator_list", VList decorator_list)].

Definition Return (value : option AST) : AST :=
  Node "Return" [("value", opt value)].

Definition Pass : AST := Node "Pass" [].

Definition Expr (value : AST) : AST := Node "Expr" [("value", VNode value)].

Definition Assign (targets : list AST) (value : AST) : AST :=
  Node "Assign" [("targets", VList targets); ("value", VNode value);
                 ("type_comment", VNone)].

Definition AugAssign (target op value : AST) : AST :=
  Node "AugAssign" [("target", VNode target); ("op", VNode op);
                    ("value", VNode value)].

Definition AnnAssign (target annotation : AST) (value : option AST)
    (simple : Z) : AST :=
  Node "AnnAssign" [("target", VNode target); ("annotation", VNode annotation);
                    ("value", opt value); ("simple", VInt simple)].

Definition For (target iter : AST) (body orelse : list AST) : AST :=
  Node "For" [("target", VNode target); ("iter", VNode iter);
              ("body", VList body); ("orelse", VList orelse);
              ("type_comment", VNone)].

Definition While (test : AST) (body orelse : list AST) : AST :=
  Node "While" [("test", VNode test); ("body", VList body);
                ("orelse", VList orelse)].

Definition If (test : AST) (body orelse : list AST) : AST :=
  Node "If" [("test", VNode test); ("body", VList body);
             ("orelse", VList orelse)].

Definition Try (body handlers orelse finalbody : list AST) : AST :=
  Node "Try" [("body", VList body); ("handlers", VList handlers);
              ("orelse", VList orelse); ("finalbody", VList finalbody)].

Definition ExceptHandler (type : option AST) (name : option string)
    (body : list AST) : AST :=
  Node "ExceptHandler" [("type", opt type); ("name", opt_str name);
                        ("body", VList body)].

Definition Assert (test : AST) (msg : option AST) : AST :=
  Node "Assert" [("test", VNode test); ("msg", opt msg)].

Definition alias (name : string) (asname : option string) : AST :=
  Node "alias" [("name", VStr name); ("asname", opt_str asname)].

Definition Import (names : list AST) : AST :=
  Node "Import" [("names", VList names)].

Definition ImportFrom (module : option string) (names : list AST) (level : Z)
    : AST :=
  Node "ImportFrom" [("module", opt_str module); ("names", VList names);
                     ("level", VInt level)].

Definition Match (subject : AST) (cases : list AST) : AST :=
  Node "Match" [("subject", VNode subject); ("cases", VList cases)].

Definition match_case (pattern : AST) (guard : option AST) (body : list AST)
    : AST :=
  Node "match_case" [("pattern", VNode pattern); ("guard", opt guard);
                     ("body", VList body)].

(** [MatchAs(None, None)] is the wildcard [_]; [MatchAs(None, "x")] is the
    capture pattern [x]. *)
Definition MatchAs (pattern : option AST) (name : option string) : AST :=
  Node "MatchAs" [("pattern", opt pattern); ("name", opt_str name)].

Definition MatchValue (value : AST) : AST :=
  Node "MatchValue" [("value", VNode value)].

Definition MatchOr (patterns : list AST) : AST :=
  Node "MatchOr" [("patterns", VList patterns)].

Definition And : AST := Node "And" [].
Definition Or : AST := Node "Or" [].
Definition Add : AST := Node "Add" [].
Definition Sub : AST := Node "Sub" [].
Definition Mult : AST := Node "Mult" [].
Definition Not : AST := Node "Not" [].
Definition USub : AST := Node "USub" [].
Definition Eq : AST := Node "Eq" [].
Definition Lt : AST := Node "Lt" [].
Definition Gt : AST := Node "Gt" [].

Definition BoolOp (op : AST) (values : list AST) : AST :=
  Node "BoolOp" [("op", VNode op); ("values", VList values)].

Definition BinOp (left op right : AST) : AST :=
  Node "BinOp" [("left", VNode left); ("op", VNode op); ("right", VNode right)].

Definition UnaryOp (op operand : AST) : AST :=
  Node "UnaryOp" [("op", VNode op); ("operand", VNode operand)].

Definition Compare (left : AST) (ops comparators : list AST) : AST :=
  Node "Compare" [("left", VNode left); ("ops", VList ops);
                  ("comparators", VList comparators)].

Definition IfExp (test body orelse : AST) : AST :=
  Node "IfExp" [("test", VNode test); ("body", VNode body);
                ("orelse", VNode orelse)].

Definition Call (func : AST) (args keywords : list AST) : AST :=
  Node "Call" [("func", VNode func); ("args", VList args);
               ("keywords", VList keywords)].

Definition Constant (value : value AST) : AST :=
  Node "Constant" [("value", value); ("kind", VNone)].

Definition Attribute (value : AST) (attr : string) (ctx : AST) : AST :=
  Node "Attribute" [("value", VNode value); ("attr", VStr attr);
                    ("ctx", VNode ctx)].

Definition Subscript (value slice ctx : AST) : AST :=
  Node "Subscript" [("value", VNode value); ("slice", VNode slice);
                    ("ctx", VNode ctx)].

Definition Name (id : string) (ctx : AST) : AST :=
  Node "Name" [("id", VStr id); ("ctx", VNode ctx)].

Definition comprehension (target iter : AST) (ifs : list AST) (is_async : Z)
    : AST :=
  Node "comprehension" [("target", VNode target); ("iter", VNode iter);
                        ("ifs", VList ifs); ("is_async", VInt is_async)].

Definition ListComp (elt : AST) (generators : list AST) : AST :=
  Node "ListComp" [("elt", VNode elt); ("generators", VList generators)].

End ast.

(** ** [HalsteadVisitor] *)
Module HalsteadVisitor.

(** An entry of [operands_seen]: the context and the operand's key.  Keys
    that are syntax-tree objects are compared by structure here; Python
    compares them by identity. *)
Definition operand_entry : Type := option string * value AST.

Inductive t : Type := mk {
  operators_seen : gset string;
  operands_seen : listset operand_entry;
  operators : Z;
  operands : Z;
  context : option string;
  (** "a new visitor is spawned for every scanned function" *)
  function_visitors : list t }.

(** [__init__] *)
Definition init (context : option string) : t :=
  {| operators_seen := ∅; operands_seen := ∅; operators := 0; operands := 0;
     context := context; function_visitors := [] |}.

(** [distinct_operators] *)
Definition distinct_operators (self : t) : Z := Z.of_nat (size (operators_seen self)).

(** The class attribute [types]. *)
Definition types : list (string * string) :=
  [("Num", "n"); ("Name", "id"); ("Attribute", "attr"); ("Constant", "value")].

(** A constant as a member of a set: [True == 1] and [False == 0]. *)
Definition hashed (v : value AST) : value AST :=
  match v with VBool b => VInt (Z_of_bool b) | _ => v end.

(** [getattr(operand, self.types.get(name, ""), operand)] *)
Definition new_operand (operand : AST) : value AST :=
  match lookup_field (get_name operand) types with
  | Some field => default (VNode operand) (hashed <$> getattr operand field)
  | None => VNode operand
  end.

(** What a decorated method returns: the number of operators, the number of
    operands, the operators seen and the operands seen. *)
Definition results : Type := Z * Z * list string * list AST.

(** The fields of the state that [aux] and [visit_FunctionDef] update. *)
Definition add_counts (ops opnds : Z) (seen_ops : gset string)
    (seen_opnds : listset operand_entry) (self : t) : t :=
  {| operators_seen := operators_seen self ∪ seen_ops;
     operands_seen := operands_seen self ∪ seen_opnds;
     operators := operators self + ops;
     operands := operands self + opnds;
     context := context self;
     function_visitors := function_visitors self |}.

Definition append_function_visitor (v : t) (self : t) : t :=
  {| operators_seen := operators_seen self; operands_seen := operands_seen self;
     operators := operators self; operands := operands self;
     context := context self;
     function_visitors := function_visitors self ++ [v] |}.

(** The field [f] of [node], which must hold an object. *)
Definition attr_node (node : AST) (f : string) : option AST :=
  v ← getattr node f; match v with VNode n => Some n | _ => None end.

(** [visit_BinOp] before decoration *)
Definition meth_BinOp (node : AST) : option results :=
  op ← attr_node node "op"; left ← attr_node node "left";
  right ← attr_node node "right";
  Some (1, 2, [get_name op], [left; right]).

(** [visit_UnaryOp] before decoration *)
Definition meth_UnaryOp (node : AST) : option results :=
  op ← attr_node node "op"; operand ← attr_node node "operand";
  Some (1, 1, [get_name op], [operand]).

(** [visit_BoolOp] before decoration *)
Definition meth_BoolOp (node : AST) : option results :=
  values ← attr_list node "values"; op ← attr_node node "op";
  Some (1, len values, [get_name op], values).

(** [visit_AugAssign] before decoration *)
Definition meth_AugAssign (node : AST) : option results :=
  op ← attr_node node "op"; target ← attr_node node "target";
  value ← attr_node node "value";
  Some (1, 2, [get_name op], [target; value]).

(** [visit_Compare] before decoration *)
Definition meth_Compare (node : AST) : option results :=
  ops ← attr_list node "ops"; comparators ← attr_list node "comparators";
  left ← attr_node node "left";
  Some (len ops, len comparators + 1, map get_name ops, (comparators ++ [left])%list).

Section visit.
Context (node : AST) (sub : list (string * value (t -> option t))).

(** The decorator [dispatch]: [aux] updates the statistics with what the
    decorated method returns and then dispatches to the children. *)
Definition aux (meth : AST -> option results) (self : t) : option t :=
  '(n_operators, n_operands, seen_operators, seen_operands) ← meth node;
  let self :=
    add_counts n_operators n_operands (list_to_set seen_operators)
      (list_to_set (map (fun operand => (context self, new_operand operand))
                        seen_operands))
      self in
  NodeVisitor_generic_visit sub self.

(** The loop of [visit_FunctionDef]: every child is analysed by a fresh
    visitor whose counts go to the parent and to the function's visitor. *)
Fixpoint function_body (name : option string) (body : list (t -> option t))
    (self func_visitor : t) : option (t * t) :=
  match body with
  | [] => Some (self, func_visitor)
  | child :: rest =>
      visitor ← child (init name);
      let fold :=
        add_counts (operators visitor) (operands visitor)
                   (operators_seen visitor) (operands_seen visitor) in
      function_body name rest (fold self) (fold func_visitor)
  end.

(** [visit_FunctionDef] *)
Definition visit_FunctionDef (self : t) : option t :=
  name ← attr_str node "name";
  let func_visitor := init (Some name) in
  body ← lookup_field "body" sub ≫= as_list;
  '(self, func_visitor) ← function_body (Some name) body self func_visitor;
  Some (append_function_visitor func_visitor self).

(** [visit_AsyncFunctionDef] *)
Definition visit_AsyncFunctionDef (self : t) : option t :=
  visit_FunctionDef self.

(** [ast.NodeVisitor.visit] *)
Definition dispatch (self : t) : option t :=
  let name := get_name node in
  if bool_decide (name = "BinOp") then aux meth_BinOp self
  else if bool_decide (name = "UnaryOp") then aux meth_UnaryOp self
  else if bool_decide (name = "BoolOp") then aux meth_BoolOp self
  else if bool_decide (name = "AugAssign") then aux meth_AugAssign self
  else if bool_decide (name = "Compare") then aux meth_Compare self
  else if bool_decide (name = "FunctionDef") then visit_FunctionDef self
  else if bool_decide (name = "AsyncFunctionDef") then visit_AsyncFunctionDef self
  else NodeVisitor_generic_visit sub self.
End visit.

(** [visitor.visit(node)] *)
Fixpoint visit (node : AST) : t -> option t :=
  match node with
  | Node kind fs => dispatch (Node kind fs) (fields_map visit fs)
  end.

(** [HalsteadVisitor.from_ast(node, context=context)] *)
Definition from_ast (node : AST) (context : option string) : option t :=
  visit node (init context).

End HalsteadVisitor.

(** ** [AllClassesVisitor] *)
Module AllClassesVisitor.

(** The visitor's only attribute, [classes]. *)
Definition t : Type := list string.

Section visit.
Context (node : AST) (sub : list (string * value (t -> option t))).

(** [visit_ClassDef] *)
Definition visit_ClassDef (self : t) : option t :=
  name ← attr_str node "name";
  NodeVisitor_generic_visit sub (self ++ [name])%list.

(** [ast.NodeVisitor.visit] *)
Definition dispatch (self : t) : option t :=
  if bool_decide (get_name node = "ClassDef") then visit_ClassDef self
  else NodeVisitor_generic_visit sub self.
End visit.

(** [visitor.visit(node)] *)
Fixpoint visit (node : AST) : t -> option t :=
  match node with
  | Node kind fs => dispatch (Node kind fs) (fields_map visit fs)
  end.

End AllClassesVisitor.

(** ** [MethodFieldVisitor] *)
Module MethodFieldVisitor.

(** The visitor's only attribute, [fields_accessed]. *)
Definition t : Type := gset string.

Section visit.
Context (node : AST) (sub : list (string * value (t -> option t))).

(** [visit_Attribute] *)
Definition visit_Attribute (self : t) : option t :=
  value ← getattr node "value";
  is_self ← (if isinstance value "Name" then
               match value with
               | VNode name =>
                   id ← getattr name "id";
                   Some (eq_str id "self")
               | _ => Some false
               end
             else Some false);
  self ← (if is_self : bool then attr ← attr_str node "attr"; Some (self ∪ {[attr]})
          else Some self);
  NodeVisitor_generic_visit sub self.

(** [ast.NodeVisitor.visit] *)
Definition dispatch (self : t) : option t :=
  if bool_decide (get_name node = "Attribute") then visit_Attribute self
  else NodeVisitor_generic_visit sub self.
End visit.

(** [visitor.visit(node)] *)
Fixpoint visit (node : AST) : t -> option t :=
  match node with
  | Node kind fs => dispatch (Node kind fs) (fields_map visit fs)
  end.

(** [method_visitor = MethodFieldVisitor(); method_visitor.visit(item)]
    and then [method_visitor.fields_accessed] *)
Definition fields_accessed (item : AST) : option (gset string) := visit item ∅.

End MethodFieldVisitor.

(** ** [LCOMVisitor] *)
Module LCOMVisitor.

(** The visitor's only attribute, [class_lcoms]. *)
Definition t : Type := gmap string Z.

(** One turn of the inner loop of [calculate_lcom]. *)
Definition compare_fields (fields_i fields_j : gset string) (PQ : Z * Z) : Z * Z :=
  let '(P, Q) := PQ in
  if bool_decide (fields_i ≠ ∅) && bool_decide (fields_j ≠ ∅) then
    if bool_decide (fields_i ## fields_j) then (P + 1, Q) else (P, Q + 1)
  else (P + 1, Q).

(** The inner loop of [calculate_lcom], [for j in range(i + 1, num_methods)]:
    [method_i] is [methods[i]] and [rest] is [methods[i+1:]]. *)
Fixpoint inner_loop (method_fields : gmap string (gset string))
    (method_i : string) (rest : list string) (PQ : Z * Z) : option (Z * Z) :=
  match rest with
  | [] => Some PQ
  | method_j :: rest =>
      fields_i ← method_fields !! method_i;
      fields_j ← method_fields !! method_j;
      inner_loop method_fields method_i rest (compare_fields fields_i fields_j PQ)
  end.

(** The outer loop, [for i in range(num_methods)], over [methods[i:]]. *)
Fixpoint outer_loop (method_fields : gmap string (gset string))
    (methods : list string) (PQ : Z * Z) : option (Z * Z) :=
  match methods with
  | [] => Some PQ
  | method_i :: rest =>
      inner_loop method_fields method_i rest PQ ≫= outer_loop method_fields rest
  end.

(** [calculate_lcom] *)
Definition calculate_lcom (method_fields : gmap string (gset string))
    (methods : list string) : option Z :=
  let num_methods := len methods in
  if bool_decide (num_methods < 2) then Some 0
  else
    '(P, Q) ← outer_loop method_fields methods (0, 0);
    Some (if bool_decide (P > Q) then P - Q else 0).

(** The loop of [visit_ClassDef] over [node.body]. *)
Fixpoint class_body (body : list AST)
    (method_fields : gmap string (gset string)) (methods : list string)
    : option (gmap string (gset string) * list string) :=
  match body with
  | [] => Some (method_fields, methods)
  | body_item :: rest =>
      if isinstance (VNode body_item) "FunctionDef" then
        method_name ← attr_str body_item "name";
        fields_accessed ← MethodFieldVisitor.fields_accessed body_item;
        class_body rest (<[method_name := fields_accessed]> method_fields)
                   (methods ++ [method_name])%list
      else class_body rest method_fields methods
  end.

Section visit.
Context (node : AST) (sub : list (string * value (t -> option t))).

(** [visit_ClassDef] *)
Definition visit_ClassDef (self : t) : option t :=
  class_name ← attr_str node "name";
  body ← attr_list node "body";
  '(method_fields, methods) ← class_body body ∅ [];
  lcom ← calculate_lcom method_fields methods;
  Some (<[class_name := lcom]> self).

(** [ast.NodeVisitor.visit] *)
Definition dispatch (self : t) : option t :=
  if bool_decide (get_name node = "ClassDef") then visit_ClassDef self
  else NodeVisitor_generic_visit sub self.
End visit.

(** [visitor.visit(node)] *)
Fixpoint visit (node : AST) : t -> option t :=
  match node with
  | Node kind fs => dispatch (Node kind fs) (fields_map visit fs)
  end.

End LCOMVisitor.

(** [analyze_lcom], from the parsed tree on. *)
Definition analyze_lcom (tree : AST) : option (gmap string Z) :=
  LCOMVisitor.visit tree ∅.

(** ** [CBOVisitor] *)

(** [s.split(sep)] for a separator of one character. *)
Fixpoint split (sep : ascii) (s : string) : list string :=
  match s with
  | EmptyString => [EmptyString]
  | String c rest =>
      if decide (c = sep) then EmptyString :: split sep rest
      else match split sep rest with
           | part :: parts => String c part :: parts
           | [] => [String c EmptyString]
           end
  end.

(** [bool(s)] for a string, and for a value that is a string or [None]. *)
Definition nonempty (s : string) : bool :=
  match s with EmptyString => false | _ => true end.
Definition truthy_name (name : option string) : bool :=
  match name with Some s => nonempty s | None => false end.

(** A string or [None] inside an f-string: [f"{value}"]. *)
Definition format (value : option string) : string :=
  match value with Some s => s | None => "None" end.

Module CBOVisitor.

Record t : Type := mk {
  (** {class_name: set of coupled class names} *)
  class_couplings : gmap string (gset string);
  (** name of the class currently being visited *)
  current_class : option string;
  (** set of all class names defined in the code *)
  classes : gset string;
  (** mapping of imported names to their full paths *)
  imported_names : gmap string string;
  standard_lib_classes : gset string;
  (** {class_name: {attribute_name: class_name}} *)
  self_attributes : gmap string (gmap string string) }.

(** [__init__].  [get_standard_lib_classes()] reads the interpreter's
    [builtins] module, which is not part of the repository: the set of names
    it returns is the parameter [builtin_types]. *)
Definition init (builtin_types : gset string) (all_classes : list string) : t :=
  {| class_couplings := ∅;
     current_class := None;
     classes := list_to_set all_classes;
     imported_names := ∅;
     standard_lib_classes := builtin_types;
     self_attributes := ∅ |}.

Definition set_class_couplings (m : gmap string (gset string)) (self : t) : t :=
  {| class_couplings := m; current_class := current_class self;
     classes := classes self; imported_names := imported_names self;
     standard_lib_classes := standard_lib_classes self;
     self_attributes := self_attributes self |}.

Definition set_current_class (c : option string) (self : t) : t :=
  {| class_couplings := class_couplings self; current_class := c;
     classes := classes self; imported_names := imported_names self;
     standard_lib_classes := standard_lib_classes self;
     self_attributes := self_attributes self |}.

Definition set_classes (s : gset string) (self : t) : t :=
  {| class_couplings := class_couplings self; current_class := current_class self;
     classes := s; imported_names := imported_names self;
     standard_lib_classes := standard_lib_classes self;
     self_attributes := self_attributes self |}.

Definition set_imported_names (m : gmap string string) (self : t) : t :=
  {| class_couplings := class_couplings self; current_class := current_class self;
     classes := classes self; imported_names := m;
     standard_lib_classes := standard_lib_classes self;
     self_attributes := self_attributes self |}.

Definition set_self_attributes (m : gmap string (gmap string string)) (self : t) : t :=
  {| class_couplings := class_couplings self; current_class := current_class self;
     classes := classes self; imported_names := imported_names self;
     standard_lib_classes := standard_lib_classes self;
     self_attributes := m |}.

(** The test that [is_class_name] applies to a part of a name and to the
    whole name: [n and n != self.current_class and (n in
    self.standard_lib_classes or n in self.classes)]. *)
Definition class_like (self : t) (n : string) : bool :=
  nonempty n
  && bool_decide (Some n ≠ current_class self)
  && (bool_decide (n ∈ standard_lib_classes self)
      || bool_decide (n ∈ classes self)).

(** [is_class_name] *)
Definition is_class_name (self : t) (name : option string) : bool :=
  match name with
  | None => false
  | Some name =>
      let name_parts := split "."%char name in
      if bool_decide (len name_parts > 1) && existsb (class_like self) name_parts
      then true
      else class_like self name
  end.

(** [get_class_name] *)
Definition get_class_name (self : t) (coupling : string) : string :=
  let parts := split "."%char coupling in
  if bool_decide (len parts > 1) then
    match List.find (fun part => is_class_name self (Some part)) parts with
    | Some part => part
    | None => coupling
    end
  else coupling.

(** [split_couplings_and_leave_only_class_names] *)
Definition split_couplings_and_leave_only_class_names (self : t) : t :=
  set_class_couplings
    (set_map (get_class_name self) <$> class_couplings self) self.

(** [add_coupling] *)
Definition add_coupling (class_name : string) (self : t) : option t :=
  current ← current_class self;
  couplings ← class_couplings self !! current;
  Some (set_class_couplings
          (<[current := couplings ∪ {[class_name]}]> (class_couplings self)) self).

(** [self.self_attributes[self.current_class][attr_name] = assigned_class] *)
Definition record_self_attribute (attr_name assigned_class : string) (self : t)
    : option t :=
  current ← current_class self;
  attributes ← self_attributes self !! current;
  Some (set_self_attributes
          (<[current := <[attr_name := assigned_class]> attributes]>
             (self_attributes self)) self).

(** [is_self] *)
Definition is_self (v : value AST) : option bool :=
  if isinstance v "Name" then
    match v with
    | VNode name => id ← getattr name "id"; Some (eq_str id "self")
    | _ => Some false
    end
  else Some false.

(** [is_self_attribute] *)
Definition is_self_attribute (v : value AST) : option bool :=
  if isinstance v "Attribute" then
    match v with
    | VNode attribute => getattr attribute "value" ≫= is_self
    | _ => Some false
    end
  else Some false.

(** [get_self_attribute_class] *)
Definition get_self_attribute_class (self : t) (node : AST)
    : option (option string) :=
  attr_name ← attr_str node "attr";
  current ← current_class self;
  attributes ← self_attributes self !! current;
  Some (attributes !! attr_name).

Section get_full_name.
(** The node at hand and, field by field, [get_full_name] of its children. *)
Context (node : AST)
        (sub : list (string * value (gmap string string -> option (option string)))).

(** [self.get_full_name(v)] for the value [v] of a field of the node: a
    value that is no syntax-tree object has no name. *)
Definition full_name_of_field (f : string) (imported_names : gmap string string)
    : option (option string) :=
  v ← lookup_field f sub;
  match v with
  | VNode name_of => name_of imported_names
  | _ => Some None
  end.

Definition get_full_name_cases (imported_names : gmap string string)
    : option (option string) :=
  let kind := get_name node in
  if bool_decide (kind = "Name") then
    name ← attr_str node "id";
    Some (Some (default name (imported_names !! name)))
  else if bool_decide (kind = "Subscript") then
    full_name_of_field "value" imported_names
  else if bool_decide (kind = "Attribute") then
    value ← full_name_of_field "value" imported_names;
    attr ← attr_str node "attr";
    Some (Some (format value ++ "." ++ attr))
  else if bool_decide (kind = "Call") then
    full_name_of_field "func" imported_names
  else Some None.
End get_full_name.

Fixpoint get_full_name_node (node : AST)
    : gmap string string -> option (option string) :=
  match node with
  | Node kind fs =>
      get_full_name_cases (Node kind fs) (fields_map get_full_name_node fs)
  end.

(** [get_full_name]: "resolve the full name, including imports". *)
Definition get_full_name (self : t) (v : value AST) : option (option string) :=
  match v with
  | VNode node => get_full_name_node node (imported_names self)
  | _ => Some None
  end.

(** [get_assigned_class]: "determine the class being assigned". *)
Definition get_assigned_class (self : t) (v : value AST) : option (option string) :=
  if isinstance v "Call" then
    match v with
    | VNode call => getattr call "func" ≫= get_full_name self
    | _ => Some None
    end
  else if isinstance v "Name" then get_full_name self v
  else if isinstance v "Attribute" then get_full_name self v
  else Some None.

(** [if self.is_class_name(name): self.add_coupling(name)] *)
Definition couple_if_class (name : option string) (self : t) : option t :=
  match name with
  | Some class_name =>
      if is_class_name self name then add_coupling class_name self else Some self
  | None => Some self
  end.

(** [visit_Import] *)
Fixpoint import_names (names : list AST) (self : t) : option t :=
  match names with
  | [] => Some self
  | alias :: rest =>
      name ← attr_str alias "name";
      asname ← getattr alias "asname";
      asname ← (if truthy asname then as_str asname else Some name);
      import_names rest
        (set_imported_names (<[asname := name]> (imported_names self)) self)
  end.

Definition visit_Import (node : AST) (self : t) : option t :=
  names ← attr_list node "names";
  import_names names self.

(** [visit_ImportFrom] *)
Fixpoint import_from_names (module : value AST) (names : list AST)
    (self : t) : option t :=
  match names with
  | [] => Some self
  | alias :: rest =>
      name ← attr_str alias "name";
      asname ← getattr alias "asname";
      asname ← (if truthy asname then as_str asname else Some name);
      full_name ← (if truthy module
                   then module ← as_str module; Some (module ++ "." ++ name)
                   else Some name);
      import_from_names module rest
        (set_imported_names (<[asname := full_name]> (imported_names self)) self)
  end.

Definition visit_ImportFrom (node : AST) (self : t) : option t :=
  module ← getattr node "module";
  names ← attr_list node "names";
  import_from_names module names self.

Section visit.
Context (node : AST) (sub : list (string * value (t -> option t))).

(** The first loop of [visit_Module], over the statements of the body and
    their visits. *)
Fixpoint module_body (body : list (AST * (t -> option t))) (self : t)
    : option t :=
  match body with
  | [] => Some self
  | (body_item, visit_item) :: rest =>
      self ← (if isinstance (VNode body_item) "ClassDef" then
                name ← attr_str body_item "name";
                Some (set_classes (classes self ∪ {[name]}) self)
              else if isinstance (VNode body_item) "Import"
                      || isinstance (VNode body_item) "ImportFrom" then
                visit_item self
              else Some self);
      module_body rest self
  end.

(** [visit_Module] *)
Definition visit_Module (self : t) : option t :=
  body ← attr_list node "body";
  visits ← lookup_field "body" sub ≫= as_list;
  self ← module_body (zip body visits) self;
  NodeVisitor_generic_visit sub self.

(** The loop of [visit_ClassDef] over [node.bases]. *)
Fixpoint class_bases (bases : list AST) (self : t) : option t :=
  match bases with
  | [] => Some self
  | base :: rest =>
      base_name ← get_full_name self (VNode base);
      couple_if_class base_name self ≫= class_bases rest
  end.

(** [visit_ClassDef] *)
Definition visit_ClassDef (self : t) : option t :=
  name ← attr_str node "name";
  let self := set_current_class (Some name) self in
  let self := set_class_couplings (<[name := ∅]> (class_couplings self)) self in
  let self := set_self_attributes (<[name := ∅]> (self_attributes self)) self in
  bases ← attr_list node "bases";
  self ← class_bases bases self;
  self ← NodeVisitor_generic_visit sub self;
  Some (set_current_class None self).

(** The loop of [visit_FunctionDef] over [node.args.args]. *)
Fixpoint function_args (args : list AST) (self : t) : option t :=
  match args with
  | [] => Some self
  | arg :: rest =>
      annotation ← getattr arg "annotation";
      self ← (if truthy annotation then
                type_name ← get_full_name self annotation;
                couple_if_class type_name self
              else Some self);
      function_args rest self
  end.

(** [visit_FunctionDef] *)
Definition visit_FunctionDef (self : t) : option t :=
  self ← (if truthy_name (current_class self) then
            arguments ← getattr node "args";
            args ← match arguments with
                   | VNode arguments => attr_list arguments "args"
                   | _ => None
                   end;
            self ← function_args args self;
            returns ← getattr node "returns";
            if truthy returns then
              return_type ← get_full_name self returns;
              couple_if_class return_type self
            else Some self
          else Some self);
  NodeVisitor_generic_visit sub self.

(** The loop of [visit_Assign] over [node.targets]. *)
Fixpoint assign_targets (targets : list AST) (self : t) : option t :=
  match targets with
  | [] => Some self
  | target :: rest =>
      to_self ← (if isinstance (VNode target) "Attribute"
                 then getattr target "value" ≫= is_self else Some false);
      self ← (if to_self : bool then
                attr_name ← attr_str target "attr";
                assigned_class ← getattr node "value" ≫= get_assigned_class self;
                match assigned_class with
                | Some class_name =>
                    if is_class_name self assigned_class then
                      record_self_attribute attr_name class_name self
                      ≫= add_coupling class_name
                    else Some self
                | None => Some self
                end
              else Some self);
      assign_targets rest self
  end.

(** [visit_Assign] *)
Definition visit_Assign (self : t) : option t :=
  if truthy_name (current_class self) then
    targets ← attr_list node "targets";
    self ← assign_targets targets self;
    NodeVisitor_generic_visit sub self
  else NodeVisitor_generic_visit sub self.

(** [visit_AnnAssign] *)
Definition visit_AnnAssign (self : t) : option t :=
  if truthy_name (current_class self) then
    target ← getattr node "target";
    to_self ← (if isinstance target "Attribute" then
                 match target with
                 | VNode target => getattr target "value" ≫= is_self
                 | _ => Some false
                 end
               else Some false);
    self ← (if to_self : bool then
              attr_name ← match target with
                          | VNode target => attr_str target "attr"
                          | _ => None
                          end;
              assigned_class ← getattr node "annotation" ≫= get_full_name self;
              match assigned_class with
              | Some class_name =>
                  if nonempty class_name then
                    record_self_attribute attr_name class_name self
                    ≫= couple_if_class assigned_class
                  else Some self
              | None => Some self
              end
            else if isinstance target "Name" then
              var_name ← match target with
                         | VNode target => getattr target "id"
                         | _ => None
                         end;
              assigned_class ← getattr node "annotation" ≫= get_full_name self;
              if truthy_name assigned_class then couple_if_class assigned_class self
              else Some self
            else Some self);
    NodeVisitor_generic_visit sub self
  else Some self.

(** [visit_Call] *)
Definition visit_Call (self : t) : option t :=
  if truthy_name (current_class self) then
    func_name ← getattr node "func" ≫= get_full_name self;
    self ← couple_if_class func_name self;
    NodeVisitor_generic_visit sub self
  else NodeVisitor_generic_visit sub self.

(** [visit_Attribute] *)
Definition visit_Attribute (self : t) : option t :=
  if truthy_name (current_class self) then
    value ← getattr node "value";
    of_self ← is_self_attribute value;
    self ← (if of_self : bool then
              attr_class ← match value with
                           | VNode value => get_self_attribute_class self value
                           | _ => None
                           end;
              couple_if_class attr_class self
            else Some self);
    NodeVisitor_generic_visit sub self
  else NodeVisitor_generic_visit sub self.

(** [ast.NodeVisitor.visit] *)
Definition dispatch (self : t) : option t :=
  let name := get_name node in
  if bool_decide (name = "Module") then visit_Module self
  else if bool_decide (name = "Import") then visit_Import node self
  else if bool_decide (name = "ImportFrom") then visit_ImportFrom node self
  else if bool_decide (name = "ClassDef") then visit_ClassDef self
  else if bool_decide (name = "FunctionDef") then visit_FunctionDef self
  else if bool_decide (name = "Assign") then visit_Assign self
  else if bool_decide (name = "AnnAssign") then visit_AnnAssign self
  else if bool_decide (name = "Call") then visit_Call self
  else if bool_decide (name = "Attribute") then visit_Attribute self
  else NodeVisitor_generic_visit sub self.
End visit.

(** [visitor.visit(node)] *)
Fixpoint visit (node : AST) : t -> option t :=
  match node with
  | Node kind fs => dispatch (Node kind fs) (fields_map visit fs)
  end.

End CBOVisitor.

(** An entry of the dictionary that [analyze_cbo] returns:
    [{"cbo": ..., "coupled_classes": [...]}].  The list holds the members of
    the coupling set, in the order in which Python iterates over the set;
    it is kept as the set here. *)
Record class_cbo_entry : Type := mk_class_cbo_entry {
  cbo : Z;
  coupled_classes : gset string }.

(** [analyze_cbo], from the parsed tree on: "analyze the CBO metric for all
    classes in the given source code".  [all_classes] is the [classes] list
    of the [AllClassesVisitor] that the caller passes. *)
Definition analyze_cbo (builtin_types : gset string) (tree : AST)
    (all_classes : list string) : option (gmap string class_cbo_entry) :=
  visitor ← CBOVisitor.visit tree (CBOVisitor.init builtin_types all_classes);
  let visitor := CBOVisitor.split_couplings_and_leave_only_class_names visitor in
  Some ((fun couplings =>
           {| cbo := Z.of_nat (size couplings); coupled_classes := couplings |})
        <$> CBOVisitor.class_couplings visitor).

(** * What the specification states

    The definitions below are the vocabulary of the statements proved in
    the second half of the file. *)

(** ** Cyclomatic complexity *)
Module ComplexitySpec.
Import ComplexityVisitor.

(** The classes of node that [generic_visit] has a counting rule for, and
    the classes that have a [visit_] method of their own. *)
Definition counted_kinds : list string :=
  ["Try"; "TryExcept"; "BoolOp"; "If"; "IfExp"; "Match"; "For"; "While";
   "AsyncFor"; "comprehension"].
Definition method_kinds : list string :=
  ["Assert"; "AsyncFunctionDef"; "FunctionDef"; "ClassDef"].

(** The generic recursive descent: the line of the node is noted and the
    children are visited in turn; nothing is added for the node itself. *)
Definition descend (node : AST) (self : t) : option t :=
  note_line node self ≫= visit_each (map visit (children node)).

(** "A node whose kind matches none of the decision-point rules": the
    rules are those of [generic_visit] and the one for assertions. *)
Definition decision_point_kinds : list string := counted_kinds ++ ["Assert"].

(** "The visit leaves the complexity counter unchanged and recurses into
    the node's children": the line of the node is noted, the counter is
    what it was, and the traversal goes on into the children from there. *)
Definition descended (node : AST) (self : t) : Prop :=
  exists self',
    note_line node self = Some self'
    /\ complexity self' = complexity self
    /\ visit node self = visit_each (map visit (children node)) self'.

(** The function
<<
    @d(a or b)
    def f():
        pass
>>
    Its only decision point is the [or] in the argument of the decorator. *)
Definition decorated_function : AST :=
  ast.located 2 0
    (ast.FunctionDef "f" (ast.arguments []) [ast.located 3 4 ast.Pass]
       [ast.located 1 1
          (ast.Call (ast.located 1 1 (ast.Name "d" ast.Load))
             [ast.located 1 3
                (ast.BoolOp ast.Or
                   [ast.located 1 3 (ast.Name "a" ast.Load);
                    ast.located 1 8 (ast.Name "b" ast.Load)])]
             [])]
       None).

(** "[has_wildcard_case] is 1 if any case's pattern is the universal/else
    wildcard": the pattern [_], which is the object
    [MatchAs(pattern=None, name=None)]. *)
Definition is_wildcard (pattern : AST) : bool :=
  bool_decide (get_name pattern = "MatchAs")
  && match getattr pattern "pattern", getattr pattern "name" with
     | Some VNone, Some VNone => true
     | _, _ => false
     end.
Definition is_wildcard_case (case : AST) : bool :=
  match getattr case "pattern" with
  | Some (VNode pattern) => is_wildcard pattern
  | _ => false
  end.
Definition has_wildcard_case (cases : list AST) : Z :=
  if existsb is_wildcard_case cases then 1 else 0.

(** The statement
<<
    match x:
        case 1:
            pass
        case z if z:
            pass
>>
    None of its cases is the wildcard: the second one binds the subject to
    [z] and is taken only when [z] is true. *)
Definition guarded_capture_cases : list AST :=
  [ast.match_case
     (ast.located 2 9 (ast.MatchValue (ast.located 2 9 (ast.Constant (VInt 1)))))
     None [ast.located 3 8 ast.Pass];
   ast.match_case
     (ast.located 4 9 (ast.MatchAs None (Some "z")))
     (Some (ast.located 4 14 (ast.Name "z" ast.Load)))
     [ast.located 5 8 ast.Pass]].
Definition guarded_capture_match : AST :=
  ast.located 1 0
    (ast.Match (ast.located 1 6 (ast.Name "x" ast.Load)) guarded_capture_cases).

(** [replaced through a b t t']: the tree [t'] is the tree [t] with the
    object [a] at one place replaced by [b]; every object above that place
    is of a class in [through]. *)
Inductive replaced (through : string -> Prop) (a b : AST) : AST -> AST -> Prop :=
| replaced_here : replaced through a b a b
| replaced_in_field kind fs1 f c c' fs2 :
    through kind -> replaced through a b c c' ->
    replaced through a b (Node kind (fs1 ++ (f, VNode c) :: fs2))
                         (Node kind (fs1 ++ (f, VNode c') :: fs2))
| replaced_in_list kind fs1 f l1 c c' l2 fs2 :
    through kind -> replaced through a b c c' ->
    replaced through a b (Node kind (fs1 ++ (f, VList (l1 ++ c :: l2)) :: fs2))
                         (Node kind (fs1 ++ (f, VList (l1 ++ c' :: l2)) :: fs2)).

(** A boolean combination adds the number of its operands less one
    wherever it stands: the object [Node "BoolOp" fs] with the operands
    [values] adds that much more than an object with the same fields of a
    class without a rule, at any place of any tree. *)
Definition boolop_counts_anywhere : Prop :=
  forall fs values kind t t' self,
    attr_list (Node "BoolOp" fs) "values" = Some values ->
    kind ∉ counted_kinds -> kind ∉ method_kinds ->
    replaced (fun _ => True) (Node "BoolOp" fs) (Node kind fs) t t' ->
    visit t self = add_complexity (len values - 1) <$> visit t' self.

End ComplexitySpec.

(** "Derived [complexity] = [real_complexity] if zero methods, else
    [floor(real_complexity / method_count) + 1] when more than one method
    exists, else [real_complexity] unmodified when exactly one method". *)
Definition derived_complexity (real_complexity method_count : Z) : Z :=
  if bool_decide (method_count = 0) then real_complexity
  else if bool_decide (method_count > 1)
       then real_complexity / method_count + 1
       else real_complexity.

(** ** Cohesion *)
Module LCOMSpec.

(** The methods "defined directly in the class body". *)
Definition direct_methods (body : list AST) : list AST :=
  filter (fun item => get_name item = "FunctionDef") body.

(** Of three field sets, two are not empty and disjoint and one is empty. *)
Definition two_disjoint_one_empty (F1 F2 F3 : gset string) : Prop :=
  (F1 ≠ ∅ /\ F2 ≠ ∅ /\ F1 ## F2 /\ F3 = ∅)
  \/ (F1 ≠ ∅ /\ F3 ≠ ∅ /\ F1 ## F3 /\ F2 = ∅)
  \/ (F2 ≠ ∅ /\ F3 ≠ ∅ /\ F2 ## F3 /\ F1 = ∅).

(** A class of exactly three methods, two with disjoint field sets that
    are not empty and one that accesses no field, is given the score
    [score]. *)
Definition three_methods_score (score : Z) : Prop :=
  forall name bases keywords body decorator_list m1 m2 m3 F1 F2 F3,
    direct_methods body = [m1; m2; m3] ->
    MethodFieldVisitor.fields_accessed m1 = Some F1 ->
    MethodFieldVisitor.fields_accessed m2 = Some F2 ->
    MethodFieldVisitor.fields_accessed m3 = Some F3 ->
    two_disjoint_one_empty F1 F2 F3 ->
    analyze_lcom
      (ast.Module [ast.ClassDef name bases keywords body decorator_list])
    = Some {[ name := score ]}.

(** The class of [tests/test_lcom.py] without its [__init__]:
<<
class MyClass:
    def method_one(self):
        return self.a + 1
    def method_two(self):
        return self.b + 2
    def method_three(self):
        return 3
>> *)
Definition returning (name : string) (value : AST) : AST :=
  ast.FunctionDef name (ast.arguments [ast.arg "self" None])
    [ast.Return (Some value)] [] None.

Definition self_field (attr : string) : AST :=
  ast.Attribute (ast.Name "self" ast.Load) attr ast.Load.

Definition MyClass_body : list AST :=
  [returning "method_one"
     (ast.BinOp (self_field "a") ast.Add (ast.Constant (VInt 1)));
   returning "method_two"
     (ast.BinOp (self_field "b") ast.Add (ast.Constant (VInt 2)));
   returning "method_three" (ast.Constant (VInt 3))].

Definition MyClass : AST := ast.ClassDef "MyClass" [] [] MyClass_body [].

End LCOMSpec.

(** ** Blocks: the [Function] and [Class] records of a visit *)
Module BlockSpec.
Import ComplexityVisitor.

(** The classes of node that define a function. *)
Definition function_kinds : list string := ["FunctionDef"; "AsyncFunctionDef"].

(** The visitors that [visit_FunctionDef] and [visit_ClassDef] make for the
    statements of a body, one for each statement, after their visits. *)
Definition statement_visitors (to_method : bool) (classname : option string)
    (no_assert : bool) (body : list AST) : option (list t) :=
  mapM (fun child => visit child (init to_method classname false no_assert)) body.

(** The settings of a visitor, which its constructor takes. *)
Definition same_settings (self self' : t) : Prop :=
  off self' = off self /\ to_method self' = to_method self
  /\ classname self' = classname self /\ no_assert self' = no_assert self.

(** [line <= line'] for lines that may be minus infinity. *)
Definition line_le (line line' : option Z) : Prop :=
  match line, line' with
  | None, _ => True
  | Some m, Some m' => m <= m'
  | Some _, None => False
  end.

(** A [Function] record that a visitor with the settings of [self] makes:
    it has the visitor's [to_method] and [classname], and it does not end
    before it starts. *)
Definition made_by (self : t) (f : Function) : Prop :=
  fn_is_method f = to_method self /\ fn_classname f = classname self
  /\ fn_lineno f <= fn_endline f.

(** A [Class] record: it does not end before it starts, and its methods
    are methods of the class. *)
Definition class_of_methods (c : Class) : Prop :=
  cls_lineno c <= cls_endline c
  /\ Forall (fun f => fn_is_method f = true
                      /\ fn_classname f = Some (cls_name c)
                      /\ fn_endline f <= cls_endline c)
            (cls_methods c).

(** What a visit may do to a visitor: the settings stay, the lists of
    blocks are extended at the end, and the greatest line does not go down. *)
Definition extends (self self' : t) : Prop :=
  same_settings self self'
  /\ functions self `prefix_of` functions self'
  /\ classes self `prefix_of` classes self'
  /\ line_le (_max_line self) (_max_line self').

(** ... and the records that it adds are made by this visitor. *)
Definition keeps_records (self self' : t) : Prop :=
  extends self self'
  /\ (Forall (made_by self) (functions self) ->
      Forall (made_by self) (functions self'))
  /\ (Forall class_of_methods (classes self) ->
      Forall class_of_methods (classes self')).

(** The visitor with another value of [off]. *)
Definition with_off (b : bool) (self : t) : t :=
  {| off := b; complexity := complexity self;
     functions := functions self; classes := classes self;
     to_method := to_method self; classname := classname self;
     no_assert := no_assert self; _max_line := _max_line self |}.

(** A module with a class of one method and a function:
<<
class K:
    def m(self):
        return 1
def f(x):
    if x and x:
        return 1
>> *)
Definition method_m : AST :=
  ast.located 2 4
    (ast.FunctionDef "m" (ast.arguments [ast.arg "self" None])
       [ast.located 3 8 (ast.Return (Some (ast.Constant (VInt 1))))] [] None).

Definition class_K : AST :=
  ast.located 1 0 (ast.ClassDef "K" [] [] [method_m] []).

Definition function_f_body : list AST :=
  [ast.located 5 4
     (ast.If (ast.BoolOp ast.And [ast.Name "x" ast.Load; ast.Name "x" ast.Load])
        [ast.located 6 8 (ast.Return (Some (ast.Constant (VInt 1))))] [])].

Definition function_f : AST :=
  ast.located 4 0
    (ast.FunctionDef "f" (ast.arguments [ast.arg "x" None]) function_f_body []
       None).

Definition class_and_function : AST := ast.Module [class_K; function_f].

(** The visitor that is [visitor] after the loop of [visit_FunctionDef]:
    the one of the last statement, or what the name was bound to before. *)
Definition last_visitor (last : option t) (visitors : list t) : option t :=
  match list.last visitors with Some v => Some v | None => last end.

End BlockSpec.

(** ** Halstead counts *)
Module HalsteadSpec.
Import HalsteadVisitor.

(** The visitors that [visit_FunctionDef] makes for the statements of the
    body with [HalsteadVisitor.from_ast(child, context=node.name)]. *)
Definition statement_visitors (name : string) (body : list AST) : option (list t) :=
  mapM (fun child => from_ast child (Some name)) body.

(** One turn of the loop of [visit_FunctionDef] for a visitor that takes
    the counts of the visitor of a statement. *)
Definition fold_visitor (visitor : t) : t -> t :=
  add_counts (operators visitor) (operands visitor)
             (operators_seen visitor) (operands_seen visitor).

(** What a visit may do to a visitor: the context stays, the counts do not
    go down, what was seen stays seen, and the list of function visitors is
    extended at its end. *)
Definition extends (self self' : t) : Prop :=
  context self' = context self
  /\ operators self <= operators self'
  /\ operands self <= operands self'
  /\ operators_seen self ⊆ operators_seen self'
  /\ operands_seen self ⊆ operands_seen self'
  /\ function_visitors self `prefix_of` function_visitors self'.

(** There are no more distinct operators than operators. *)
Definition counts_cover_seen (self : t) : Prop :=
  distinct_operators self <= operators self.

Definition keeps_counts (self self' : t) : Prop :=
  extends self self'
  /\ (counts_cover_seen self -> counts_cover_seen self')
  /\ (Forall counts_cover_seen (function_visitors self) ->
      Forall counts_cover_seen (function_visitors self')).

(**
<<
def f(a, b):
    c = a + b
    return -c
>> *)
Definition function_f_statements : list AST :=
  [ast.Assign [ast.Name "c" ast.Store]
     (ast.BinOp (ast.Name "a" ast.Load) ast.Add (ast.Name "b" ast.Load));
   ast.Return (Some (ast.UnaryOp ast.USub (ast.Name "c" ast.Load)))].

Definition function_f : AST :=
  ast.FunctionDef "f" (ast.arguments [ast.arg "a" None; ast.arg "b" None])
    function_f_statements [] None.

End HalsteadSpec.

(** ** Coupling *)
Module CBOSpec.
Import CBOVisitor.

(** The name that an [alias] of an import statement binds:
    [alias.asname or alias.name]. *)
Definition bound_name (name : string) (asname : option string) : string :=
  if truthy_name asname then default name asname else name.

(** The path that [visit_ImportFrom] records for a name:
    [f"{module}.{name}" if module else name]. *)
Definition imported_path (module : option string) (name : string) : string :=
  match module with
  | Some m => if nonempty m then m ++ "." ++ name else name
  | None => name
  end.

(** No class definition anywhere in the tree. *)
Fixpoint class_free (node : AST) : bool :=
  match node with
  | Node kind fs =>
      negb (bool_decide (kind = "ClassDef"))
      && forallb (fun free : bool => free)
                 (field_children (fields_map class_free fs))
  end.

(** No class is being visited: [if self.current_class] fails. *)
Definition idle (self : t) : Prop := truthy_name (current_class self) = false.

(** Nothing of what is recorded for classes differs. *)
Definition same_couplings (self self' : t) : Prop :=
  class_couplings self' = class_couplings self
  /\ self_attributes self' = self_attributes self
  /\ current_class self' = current_class self
  /\ standard_lib_classes self' = standard_lib_classes self.

(** What a visit outside classes leaves as it is. *)
Definition idle_step (self self' : t) : Prop :=
  idle self -> same_couplings self self'.

(**
<<
class Outer:
    class Inner:
        pass
    x = Other()
>> *)
Definition Inner : AST := ast.ClassDef "Inner" [] [] [ast.Pass] [].

Definition x_is_Other : AST :=
  ast.Assign [ast.Name "x" ast.Store] (ast.Call (ast.Name "Other" ast.Load) [] []).

Definition Outer : AST := ast.ClassDef "Outer" [] [] [Inner; x_is_Other] [].

Definition Outer_until_Inner : AST := ast.ClassDef "Outer" [] [] [Inner] [].

(** A name with more than one part: [len(name.split(".")) > 1]. *)
Definition dotted (name : string) : bool :=
  bool_decide (len (split "."%char name) > 1).

(** No class is coupled to its own name, unless the name has a dot. *)
Definition no_plain_self_coupling (self : t) : Prop :=
  forall class_name couplings,
    class_couplings self !! class_name = Some couplings ->
    class_name ∈ couplings -> dotted class_name = true.

Definition keeps_no_self (self self' : t) : Prop :=
  no_plain_self_coupling self -> no_plain_self_coupling self'.

(** The scenario of [tests/test_cbo.py]:
<<
class A:
    pass
class B:
    a = A()
class C:
    def __init__(self):
        self.b = B()
>> *)
Definition A_B_C : AST :=
  ast.Module
    [ast.ClassDef "A" [] [] [ast.Pass] [];
     ast.ClassDef "B" [] []
       [ast.Assign [ast.Name "a" ast.Store]
          (ast.Call (ast.Name "A" ast.Load) [] [])] [];
     ast.ClassDef "C" [] []
       [ast.FunctionDef "__init__" (ast.arguments [ast.arg "self" None])
          [ast.Assign [ast.Attribute (ast.Name "self" ast.Load) "b" ast.Store]
             (ast.Call (ast.Name "B" ast.Load) [] [])] [] None] []].

(** A class that refers to a class nested in it through its own name:
<<
class A:
    def m(self):
        return A.B()
    class B:
        pass
>> *)
Definition A_with_B : AST :=
  ast.Module
    [ast.ClassDef "A" [] []
       [ast.FunctionDef "m" (ast.arguments [ast.arg "self" None])
          [ast.Return
             (Some (ast.Call (ast.Attribute (ast.Name "A" ast.Load) "B" ast.Load)
                      [] []))] [] None;
        ast.ClassDef "B" [] [] [ast.Pass] []] []].

End CBOSpec.

(** * Properties *)

Open Scope list_scope.

(** ** Tactics *)

(** A closed decidable proposition, decided by evaluation. *)
Ltac decide_closed := apply (bool_decide_unpack _); vm_compute; exact I.

Ltac simpl_option :=
  cbn [mbind option_bind fmap option_fmap option_map mret option_ret].

Ltac case_bool :=
  repeat (match goal with
          | |- context [@bool_decide ?P ?dec] => destruct (@bool_decide P dec)
          end).

Ltac case_option :=
  repeat (first
    [ progress cbn [mbind option_bind fmap option_fmap option_map mret option_ret]
    | match goal with
      | |- context [match ?p with (_, _) => _ end] => destruct p as [??]
      | |- context [@mbind option _ _ _ _ ?o] => destruct o as [?|]
      | |- context [@fmap option _ _ _ _ ?o] => destruct o as [?|]
      end ]).

(** * Syntax trees: induction and children *)

Lemma node_children_ind (P : AST -> Prop) :
  (forall kind fs, Forall P (field_children fs) -> P (Node kind fs)) ->
  forall n, P n.
Proof.
  intros step. fix IH 1. intros [kind fs]. apply step.
  unfold field_children.
  induction fs as [|[g v] fs IHfs]; simpl; [constructor|].
  apply Forall_app. split; [|exact IHfs].
  destruct v as [| | | |n|l]; simpl; try constructor; [apply IH|constructor|].
  induction l as [|n l IHl]; constructor; [apply IH|exact IHl].
Qed.

Lemma field_children_map {N M : Type} (f : N -> M) fs :
  field_children (fields_map f fs) = map f (field_children fs).
Proof.
  unfold field_children, fields_map.
  induction fs as [|[g v] fs IH]; simpl; [done|].
  rewrite map_app, IH. f_equal. by destruct v.
Qed.

Lemma lookup_field_map {N M : Type} (f : N -> M) g fs :
  lookup_field g (fields_map f fs) = value_map f <$> lookup_field g fs.
Proof.
  induction fs as [|[h v] fs IH]; simpl; [done|]. by case_decide.
Qed.

(** ** [ComplexityVisitor] *)
Section complexity_properties.
Import ComplexityVisitor.

Lemma visit_Node kind fs :
  visit (Node kind fs) = dispatch (Node kind fs) (fields_map visit fs).
Proof. reflexivity. Qed.

Lemma generic_descent kind fs self :
  NodeVisitor_generic_visit (fields_map visit fs) self
  = visit_each (map visit (children (Node kind fs))) self.
Proof. unfold NodeVisitor_generic_visit. by rewrite field_children_map. Qed.

Lemma visit_each_app {S : Type} (l1 l2 : list (S -> option S)) self :
  visit_each (l1 ++ l2) self = visit_each l1 self ≫= visit_each l2.
Proof.
  revert self. induction l1 as [|v l1 IH]; intros self; simpl; [done|].
  destruct (v self) as [self'|]; simpl; [apply IH|done].
Qed.

Lemma add_complexity_comm d k self :
  add_complexity k (add_complexity d self) = add_complexity d (add_complexity k self).
Proof. unfold add_complexity; simpl. f_equal. lia. Qed.

Lemma set_max_line_add d line self :
  set_max_line line (add_complexity d self) = add_complexity d (set_max_line line self).
Proof. unfold set_max_line; simpl. by destruct (above _ _). Qed.

Lemma note_line_add node d self :
  note_line node (add_complexity d self) = add_complexity d <$> note_line node self.
Proof.
  unfold note_line. destruct (hasattr _ _); [|done].
  destruct (attr_int _ _); simpl; [|done]. by rewrite set_max_line_add.
Qed.


Lemma count_node_add node d self :
  count_node node (add_complexity d self) = add_complexity d <$> count_node node self.
Proof.
  unfold count_node. case_bool; case_option;
    first [reflexivity | f_equal; apply add_complexity_comm].
Qed.

Lemma visit_each_add (visits : list (t -> option t)) d :
  Forall (fun v => forall self, v (add_complexity d self) = add_complexity d <$> v self) visits ->
  forall self, visit_each visits (add_complexity d self) = add_complexity d <$> visit_each visits self.
Proof.
  induction 1 as [|v visits Hv _ IH]; intros self; simpl; [done|].
  rewrite Hv. destruct (v self) as [self'|]; simpl; [apply IH|done].
Qed.

Lemma visit_add d node self :
  visit node (add_complexity d self) = add_complexity d <$> visit node self.
Proof.
  revert self. induction node as [kind fs IH] using node_children_ind.
  intros self. rewrite visit_Node. unfold dispatch. cbn [get_name].
  case_bool.
  - unfold visit_Assert. cbn. f_equal. apply add_complexity_comm.
  - unfold visit_AsyncFunctionDef, visit_FunctionDef.
    cbn [no_assert to_method classname add_complexity].
    case_option; reflexivity.
  - unfold visit_FunctionDef.
    cbn [no_assert to_method classname add_complexity].
    case_option; reflexivity.
  - unfold visit_ClassDef.
    cbn [no_assert to_method classname add_complexity].
    case_option; reflexivity.
  - unfold generic_visit. rewrite note_line_add.
    destruct (note_line _ self) as [self1|]; cbn; [|done].
    rewrite count_node_add.
    destruct (count_node _ self1) as [self2|]; cbn; [|done].
    rewrite !(generic_descent kind). apply visit_each_add.
    unfold children; cbn [fields]. by apply Forall_map.
Qed.

Import ComplexitySpec.

Lemma not_elem_of_bool_decide (x : string) (l : list string) :
  x ∉ l -> bool_decide (x ∈ l) = false.
Proof. intros. by apply bool_decide_eq_false. Qed.

Lemma dispatch_generic kind fs sub self :
  kind ∉ method_kinds ->
  dispatch (Node kind fs) sub self = generic_visit (Node kind fs) sub self.
Proof.
  intros Hk. unfold dispatch. cbn [get_name].
  rewrite !bool_decide_eq_false_2; [done|..];
    intros ->; apply Hk; unfold method_kinds;
    repeat first [apply list_elem_of_here | apply list_elem_of_further].
Qed.

Lemma visit_generic kind fs self :
  kind ∉ method_kinds ->
  visit (Node kind fs) self
  = (self ← note_line (Node kind fs) self;
     self ← count_node (Node kind fs) self;
     visit_each (map visit (children (Node kind fs))) self).
Proof.
  intros Hk. rewrite visit_Node, dispatch_generic by done.
  unfold generic_visit. destruct (note_line _ _) as [s1|]; cbn; [|done].
  destruct (count_node _ _) as [s2|]; cbn; [|done].
  apply (generic_descent kind).
Qed.

Lemma count_node_uncounted kind fs self :
  kind ∉ counted_kinds -> count_node (Node kind fs) self = Some self.
Proof.
  intros Hk. unfold count_node. cbn [get_name].
  rewrite !bool_decide_eq_false_2; [done|..]; intros Hin; apply Hk;
    unfold counted_kinds; repeat first [subst kind | apply elem_of_cons in Hin as [->|Hin]];
    try (by apply elem_of_nil in Hin);
    repeat first [apply list_elem_of_here | apply list_elem_of_further].
Qed.

Lemma note_line_complexity node self self' :
  note_line node self = Some self' ->
  complexity self' = complexity self /\ functions self' = functions self
  /\ classes self' = classes self.
Proof.
  unfold note_line. destruct (hasattr _ _); [|by intros [= <-]].
  destruct (attr_int _ _) as [line|]; cbn; [|done].
  intros [= <-]. unfold set_max_line. by destruct (above _ _).
Qed.

(** C7, as it is worded.  [visit_FunctionDef] matches none of the
    decision-point rules, and it does not descend into the children of the
    node: in [decorated_function] the decorator is never visited, so that
    the [or] in it is not counted, and the function is recorded in
    [functions], which the descent into the children does not do. *)
Lemma function_definition_is_not_descended :
  (get_name decorated_function ∉ decision_point_kinds)
  /\ (forall v, getattr decorated_function "lineno" = Some v -> is_Some (as_int v))
  /\ ~ descended decorated_function (init false None false false).
Proof.
  split; [decide_closed|]. split.
  - intros v Hv. vm_compute in Hv. injection Hv as <-. by eexists.
  - intros (self' & Hnote & _ & Hvisit). vm_compute in Hnote.
    injection Hnote as <-. vm_compute in Hvisit. discriminate.
Qed.

(** C7.  A node of a class that [generic_visit] has no counting rule for
    and that the visitor has no [visit_] method for leaves the counter as it
    is: its line is noted, and the traversal goes on into its children from
    there.  Nothing is raised at the node as long as its [lineno], when it
    has one, is an integer. *)
Theorem unrecognized_kind_is_descended kind fs self :
  kind ∉ counted_kinds -> kind ∉ method_kinds ->
  (forall v, getattr (Node kind fs) "lineno" = Some v -> is_Some (as_int v)) ->
  exists self',
    note_line (Node kind fs) self = Some self'
    /\ complexity self' = complexity self
    /\ visit (Node kind fs) self
       = visit_each (map visit (children (Node kind fs))) self'.
Proof.
  intros Hc Hm Hline.
  assert (is_Some (note_line (Node kind fs) self)) as [self' Hnote].
  { unfold note_line, hasattr, attr_int. case_bool_decide as Hattr; [|done].
    destruct Hattr as [v Hv]. rewrite Hv. cbn.
    destruct (Hline v Hv) as [line ->]. done. }
  exists self'. split; [done|].
  split; [by destruct (note_line_complexity _ _ _ Hnote)|].
  rewrite visit_generic, Hnote by done. cbn.
  by rewrite count_node_uncounted.
Qed.

Lemma visit_children_add d (l : list AST) self :
  visit_each (map visit l) (add_complexity d self)
  = add_complexity d <$> visit_each (map visit l) self.
Proof.
  apply visit_each_add, Forall_map, Forall_forall. intros c _ s. apply visit_add.
Qed.

Lemma contain_underscore_wildcard cases :
  Forall (fun case => pattern_is_None case = Some (is_wildcard_case case)) cases ->
  contain_underscore cases = Some (existsb is_wildcard_case cases).
Proof.
  induction 1 as [|case cases Hcase _ IH]; [done|].
  cbn [contain_underscore existsb]. rewrite Hcase. cbn.
  by destruct (is_wildcard_case case).
Qed.

(** Adding to the counter first and descending then gives what descending
    first and adding then gives. *)
Lemma counted_then_descended kind fs d self :
  kind ∉ method_kinds ->
  (forall self, count_node (Node kind fs) self = Some (add_complexity d self)) ->
  visit (Node kind fs) self = add_complexity d <$> descend (Node kind fs) self.
Proof.
  intros Hk Hcount. rewrite visit_generic by done. unfold descend.
  destruct (note_line _ self) as [s1|]; cbn; [|done].
  rewrite Hcount. cbn. apply visit_children_add.
Qed.

(** Where the test of the [Match] rule answers, for every case, whether
    its pattern is the wildcard, the node adds
    [max(0, number_of_cases - has_wildcard_case)] to what the descent into
    its children adds. *)
Lemma match_without_capture_adds_cases_less_wildcard fs cases self :
  attr_list (Node "Match" fs) "cases" = Some cases ->
  Forall (fun case => pattern_is_None case = Some (is_wildcard_case case)) cases ->
  visit (Node "Match" fs) self
  = add_complexity (Z.max 0 (len cases - has_wildcard_case cases))
    <$> descend (Node "Match" fs) self.
Proof.
  intros Hcases Hwf. apply counted_then_descended.
  - unfold method_kinds. intros Hin.
    repeat (apply elem_of_cons in Hin as [Hin|Hin]; [discriminate|]).
    by apply elem_of_nil in Hin.
  - intros s. unfold count_node. cbn [get_name].
    rewrite Hcases. cbn. rewrite contain_underscore_wildcard by done. cbn.
    unfold has_wildcard_case. by destruct (existsb _ _).
Qed.

(** C6.  A [Match] node is to add
    [max(0, number_of_cases - has_wildcard_case)], [has_wildcard_case]
    being 1 when the pattern of some case is the wildcard [_].  The test of
    the rule takes every pattern without a sub-pattern for the wildcard,
    also a capture pattern under a guard: in [guarded_capture_match] no
    case is the wildcard and the rule gives 2, but the visit adds 1 to what
    the descent into the children adds, which is nothing. *)
Theorem match_counts_guarded_capture_as_wildcard :
  attr_list guarded_capture_match "cases" = Some guarded_capture_cases
  /\ has_wildcard_case guarded_capture_cases = 0
  /\ Z.max 0 (len guarded_capture_cases - has_wildcard_case guarded_capture_cases) = 2
  /\ contain_underscore guarded_capture_cases = Some true
  /\ visit guarded_capture_match (init false None false false)
     = add_complexity 1
       <$> descend guarded_capture_match (init false None false false)
  /\ complexity <$> descend guarded_capture_match (init false None false false)
     = Some 0
  /\ complexity <$> visit guarded_capture_match (init false None false false)
     = Some 1.
Proof. repeat split; reflexivity. Qed.

(** ** Replacing one object in a tree *)

Lemma lookup_field_replace {A : Type} g f (V V' : A) fs1 fs2 :
  lookup_field g (fs1 ++ (f, V) :: fs2) = lookup_field g (fs1 ++ (f, V') :: fs2)
  \/ (lookup_field g (fs1 ++ (f, V) :: fs2) = Some V
      /\ lookup_field g (fs1 ++ (f, V') :: fs2) = Some V').
Proof.
  induction fs1 as [|[h W] fs1 IH]; cbn [app lookup_field].
  - destruct (decide (f = g)); [by right|by left].
  - destruct (decide (h = g)); [by left|exact IH].
Qed.

Section replaced.
Context (through : string -> Prop) (a b : AST).
Hypothesis same_fields : fields a = fields b.

Lemma replaced_getattr_None c c' g :
  replaced through a b c c' ->
  getattr c g = Some VNone <-> getattr c' g = Some VNone.
Proof.
  destruct 1 as [|kind fs1 f x x' fs2 _ _|kind fs1 f l1 x x' l2 fs2 _ _];
    unfold getattr; cbn [fields].
  - by rewrite same_fields.
  - destruct (lookup_field_replace g f (VNode x) (VNode x') fs1 fs2)
      as [->|[-> ->]]; [done|]. split; discriminate.
  - destruct (lookup_field_replace g f (VList (l1 ++ x :: l2))
                (VList (l1 ++ x' :: l2)) fs1 fs2) as [->|[-> ->]]; [done|].
    split; discriminate.
Qed.

Lemma replaced_pattern_is_None c c' :
  replaced through a b c c' -> pattern_is_None c = pattern_is_None c'.
Proof.
  destruct 1 as [|kind fs1 f x x' fs2 _ Hx|kind fs1 f l1 x x' l2 fs2 _ _];
    unfold pattern_is_None, getattr; cbn [fields].
  - by rewrite same_fields.
  - destruct (lookup_field_replace "pattern" f (VNode x) (VNode x') fs1 fs2)
      as [->|[-> ->]]; [done|]. cbn. f_equal.
    pose proof (replaced_getattr_None x x' "pattern" Hx) as Hnone.
    unfold getattr in Hnone.
    destruct (lookup_field "pattern" (fields x)) as [[]|],
             (lookup_field "pattern" (fields x')) as [[]|];
      try reflexivity; destruct Hnone as [H1 H2];
      first [discriminate (H1 eq_refl) | discriminate (H2 eq_refl)].
  - destruct (lookup_field_replace "pattern" f (VList (l1 ++ x :: l2))
                (VList (l1 ++ x' :: l2)) fs1 fs2) as [->|[-> ->]]; done.
Qed.

Lemma replaced_contain_underscore l1 c c' l2 :
  replaced through a b c c' ->
  contain_underscore (l1 ++ c :: l2) = contain_underscore (l1 ++ c' :: l2).
Proof.
  intros Hc. induction l1 as [|x l1 IH]; cbn [app contain_underscore].
  - by rewrite (replaced_pattern_is_None c c').
  - by rewrite IH.
Qed.
End replaced.

Lemma field_children_replace {N : Type} fs1 f (V : value N) fs2 :
  field_children (fs1 ++ (f, V) :: fs2)
  = field_children fs1 ++ child_items V ++ field_children fs2.
Proof. unfold field_children. by rewrite map_app, concat_app. Qed.

Lemma visit_each_replace d (pre post : list (t -> option t)) v v' self :
  (forall self, v self = add_complexity d <$> v' self) ->
  Forall (fun w => forall self, w (add_complexity d self) = add_complexity d <$> w self) post ->
  visit_each (pre ++ v :: post) self
  = add_complexity d <$> visit_each (pre ++ v' :: post) self.
Proof.
  intros Hv Hpost. rewrite !visit_each_app.
  destruct (visit_each pre self) as [s1|]; cbn; [|done].
  rewrite Hv. destruct (v' s1) as [s2|]; cbn; [|done].
  by apply visit_each_add.
Qed.

Lemma children_commute d (l : list AST) :
  Forall (fun w => forall self, w (add_complexity d self) = add_complexity d <$> w self)
         (map visit l).
Proof. apply Forall_map, Forall_forall. intros c _ s. apply visit_add. Qed.

Lemma len_replace {A : Type} (l1 l2 : list A) x x' :
  len (l1 ++ x :: l2) = len (l1 ++ x' :: l2).
Proof. unfold len. by rewrite !length_app. Qed.

Lemma truthy_replace {A : Type} (l1 l2 : list A) x x' :
  truthy (VList (l1 ++ x :: l2)) = truthy (VList (l1 ++ x' :: l2)).
Proof. by destruct l1. Qed.

Section replaced_node.
Context (through : string -> Prop) (a b : AST).
Hypothesis same_fields : fields a = fields b.
Context (kind f : string) (fs1 fs2 : list (string * value AST)).
Context (V V' : value AST).
Let t1 := Node kind (fs1 ++ (f, V) :: fs2).
Let t2 := Node kind (fs1 ++ (f, V') :: fs2).

(** What the counting rules read of a field is the same before and after. *)
Hypothesis same_list :
  match as_list V, as_list V' with
  | Some l, Some l' => len l = len l' /\ contain_underscore l = contain_underscore l'
  | None, None => True
  | _, _ => False
  end.
Hypothesis same_truth : truthy V = truthy V'.
Hypothesis same_int : as_int V = as_int V'.

Lemma note_line_replaced self : note_line t1 self = note_line t2 self.
Proof using same_int.
  unfold note_line, hasattr, attr_int, getattr, t1, t2. cbn [fields].
  destruct (lookup_field_replace "lineno" f V V' fs1 fs2) as [->|[-> ->]]; [done|].
  rewrite !bool_decide_eq_true_2 by eauto. cbn. by rewrite same_int.
Qed.

Lemma count_node_replaced self : count_node t1 self = count_node t2 self.
Proof using same_list same_truth.
  unfold count_node, attr_list, getattr, t1, t2. cbn [get_name fields].
  case_bool; try reflexivity;
    repeat (match goal with
            | |- context [lookup_field ?g (fs1 ++ (f, V) :: fs2)] =>
                destruct (lookup_field_replace g f V V' fs1 fs2) as [->|[-> ->]]
            end);
    cbn; rewrite ?same_truth;
    destruct (as_list V) as [l|], (as_list V') as [l'|]; cbn;
    try reflexivity; try (by destruct same_list);
    destruct same_list as [Hlen Hunder]; rewrite ?Hlen, ?Hunder; reflexivity.
Qed.
End replaced_node.

Lemma descend_same_fields kind kind' fs self :
  descend (Node kind fs) self = descend (Node kind' fs) self.
Proof. reflexivity. Qed.

Lemma not_method_BoolOp : "BoolOp" ∉ method_kinds.
Proof.
  unfold method_kinds. intros Hin.
  repeat (apply elem_of_cons in Hin as [Hin|Hin]; [discriminate|]).
  by apply elem_of_nil in Hin.
Qed.

(** C3, as it holds.  A boolean combination of N operands adds N-1 to the
    counter of the visitor that reaches it, wherever it stands below nodes
    that are visited by [generic_visit]: it adds that much more than a node
    of the same fields and of a class without a rule does in its place. *)
Theorem boolop_adds_operands_less_one fs values kind t t' self :
  attr_list (Node "BoolOp" fs) "values" = Some values ->
  kind ∉ counted_kinds -> kind ∉ method_kinds ->
  replaced (fun k => k ∉ method_kinds) (Node "BoolOp" fs) (Node kind fs) t t' ->
  visit t self = add_complexity (len values - 1) <$> visit t' self.
Proof.
  intros Hvalues Hcounted Hmethod Hrep. revert self.
  induction Hrep as [|k fs1 f c c' fs2 Hk Hc IH|k fs1 f l1 c c' l2 fs2 Hk Hc IH];
    intros self.
  - rewrite (counted_then_descended "BoolOp" fs (len values - 1));
      [|apply not_method_BoolOp|].
    + f_equal. rewrite visit_generic by done. unfold descend.
      destruct (note_line _ self) as [s1|]; [|done]. simpl_option.
      by rewrite count_node_uncounted.
    + intros s. unfold count_node. cbn [get_name]. by rewrite Hvalues.
  - rewrite !visit_generic by done.
    rewrite (note_line_replaced k f fs1 fs2 (VNode c) (VNode c')) by done.
    destruct (note_line _ self) as [s1|]; [|done]. simpl_option.
    rewrite (count_node_replaced k f fs1 fs2 (VNode c) (VNode c')) by done.
    destruct (count_node _ s1) as [s2|]; [|done]. simpl_option.
    unfold children. cbn [fields]. rewrite !field_children_replace.
    cbn [child_items app]. rewrite !map_app. cbn [map].
    apply visit_each_replace; [exact IH|apply children_commute].
  - rewrite !visit_generic by done.
    rewrite (note_line_replaced k f fs1 fs2 (VList (l1 ++ c :: l2))
               (VList (l1 ++ c' :: l2))) by done.
    destruct (note_line _ self) as [s1|]; [|done]. simpl_option.
    rewrite (count_node_replaced k f fs1 fs2 (VList (l1 ++ c :: l2))
               (VList (l1 ++ c' :: l2))).
    + destruct (count_node _ s1) as [s2|]; [|done]. simpl_option.
      unfold children. cbn [fields]. rewrite !field_children_replace.
      cbn [child_items]. rewrite <- !app_assoc. cbn [app].
      rewrite !(app_assoc (field_children fs1)).
      rewrite !map_app. cbn [map]. rewrite <- !map_app.
      apply visit_each_replace; [exact IH|].
      rewrite map_app. apply Forall_app. split; apply children_commute.
    + cbn [as_list]. split; [apply len_replace|].
      by apply (replaced_contain_underscore (fun k => k ∉ method_kinds)
                  (Node "BoolOp" fs) (Node kind fs) eq_refl).
    + apply truthy_replace.
Qed.

(** C3, as stated, fails: [visit_Assert] does not visit the test of the
    assertion, so a boolean combination there adds nothing. *)
Theorem boolop_under_assert_is_not_counted : ~ boolop_counts_anywhere.
Proof.
  intros claim.
  pose (x := ast.Name "x" ast.Load). pose (y := ast.Name "y" ast.Load).
  pose (z := ast.Name "z" ast.Load).
  pose (fs := fields (ast.BoolOp ast.And [x; y; z])).
  specialize (claim fs [x; y; z] "Tuple"
                (ast.Assert (Node "BoolOp" fs) None)
                (ast.Assert (Node "Tuple" fs) None)
                (init false None false false) eq_refl).
  assert (visit (ast.Assert (Node "BoolOp" fs) None) (init false None false false)
          <> add_complexity (len [x; y; z] - 1)
             <$> visit (ast.Assert (Node "Tuple" fs) None)
                       (init false None false false)) as Hne
    by (vm_compute; discriminate).
  apply Hne, claim.
  - unfold counted_kinds. intros Hin.
    repeat (apply elem_of_cons in Hin as [Hin|Hin]; [discriminate|]).
    by apply elem_of_nil in Hin.
  - unfold method_kinds. intros Hin.
    repeat (apply elem_of_cons in Hin as [Hin|Hin]; [discriminate|]).
    by apply elem_of_nil in Hin.
  - apply (replaced_in_field _ _ _ "Assert" [] "test" _ _ [("msg", VNone)]);
      [done|constructor].
Qed.

Lemma unrecognized_kind_is_descended_witness :
  exists self',
    note_line (ast.located 3 4 (ast.Return (Some (ast.Name "x" ast.Load))))
              (init false None false false) = Some self'
    /\ complexity self' = complexity (init false None false false)
    /\ visit (ast.located 3 4 (ast.Return (Some (ast.Name "x" ast.Load))))
             (init false None false false)
       = visit_each
           (map visit
              (children (ast.located 3 4 (ast.Return (Some (ast.Name "x" ast.Load))))))
           self'.
Proof.
  apply (unrecognized_kind_is_descended "Return").
  - decide_closed.
  - decide_closed.
  - intros v Hv. vm_compute in Hv. injection Hv as <-. by eexists.
Defined.

Example match_with_wildcard_adds_cases_less_one :
  visit (ast.Match (ast.Name "x" ast.Load)
           [ast.match_case (ast.MatchValue (ast.Constant (VInt 1))) None [ast.Pass];
            ast.match_case (ast.MatchAs None None) None [ast.Pass]])
        (init false None false false)
  = add_complexity 1
    <$> descend (ast.Match (ast.Name "x" ast.Load)
           [ast.match_case (ast.MatchValue (ast.Constant (VInt 1))) None [ast.Pass];
            ast.match_case (ast.MatchAs None None) None [ast.Pass]])
          (init false None false false).
Proof.
  apply (match_without_capture_adds_cases_less_wildcard _
           [ast.match_case (ast.MatchValue (ast.Constant (VInt 1))) None [ast.Pass];
            ast.match_case (ast.MatchAs None None) None [ast.Pass]]).
  - reflexivity.
  - repeat constructor.
Qed.

Lemma boolop_adds_operands_less_one_witness :
  visit (ast.If (ast.BoolOp ast.Or [ast.Name "x" ast.Load; ast.Name "y" ast.Load;
                                    ast.Name "z" ast.Load])
                [ast.Pass] [])
        (init false None false false)
  = add_complexity 2
    <$> visit (ast.If (Node "Tuple"
                         (fields (ast.BoolOp ast.Or
                                    [ast.Name "x" ast.Load; ast.Name "y" ast.Load;
                                     ast.Name "z" ast.Load])))
                      [ast.Pass] [])
              (init false None false false).
Proof.
  apply (boolop_adds_operands_less_one
           (fields (ast.BoolOp ast.Or [ast.Name "x" ast.Load; ast.Name "y" ast.Load;
                                       ast.Name "z" ast.Load]))
           [ast.Name "x" ast.Load; ast.Name "y" ast.Load; ast.Name "z" ast.Load]
           "Tuple").
  - reflexivity.
  - decide_closed.
  - decide_closed.
  - apply (replaced_in_field _ _ _ "If" [] "test" _ _
             [("body", VList [ast.Pass]); ("orelse", VList [])]).
    + decide_closed.
    + constructor.
Defined.

End complexity_properties.

(** ** Division of floats *)

Section binary64.
Import SpecFloat float.
Open Scope Z_scope.

Lemma digits2_pos_bounds p :
  2 ^ (Zpos (digits2_pos p) - 1) <= Zpos p < 2 ^ Zpos (digits2_pos p).
Proof.
  induction p as [p IH|p IH|]; cbn [digits2_pos]; [| |cbn; lia].
  - rewrite Pos2Z.inj_succ, Z.pow_succ_r by lia.
    replace (Z.succ (Zpos (digits2_pos p)) - 1)
      with (Z.succ (Zpos (digits2_pos p) - 1)) by lia.
    rewrite Z.pow_succ_r by lia. lia.
  - rewrite Pos2Z.inj_succ, Z.pow_succ_r by lia.
    replace (Z.succ (Zpos (digits2_pos p)) - 1)
      with (Z.succ (Zpos (digits2_pos p) - 1)) by lia.
    rewrite Z.pow_succ_r by lia. lia.
Qed.

Lemma digits2_pos_unique p d :
  2 ^ (d - 1) <= Zpos p < 2 ^ d -> Zpos (digits2_pos p) = d.
Proof.
  intros [Hlo Hhi]. pose proof (digits2_pos_bounds p) as [Hlo' Hhi'].
  assert (0 < d) as Hd.
  { destruct (Z.lt_ge_cases 0 d) as [|Hd]; [done|].
    assert (2 ^ d <= 2 ^ 0) by (apply Z.pow_le_mono_r; lia). cbn in *. lia. }
  destruct (Z.lt_trichotomy (Zpos (digits2_pos p)) d) as [Hlt|[Heq|Hgt]]; [|done|].
  - assert (2 ^ Zpos (digits2_pos p) <= 2 ^ (d - 1)) by (apply Z.pow_le_mono_r; lia).
    lia.
  - assert (2 ^ d <= 2 ^ (Zpos (digits2_pos p) - 1)) by (apply Z.pow_le_mono_r; lia).
    lia.
Qed.

Lemma iter_xO_pow2 m k : Zpos (Pos.iter xO m k) = Zpos m * 2 ^ Zpos k.
Proof.
  induction k as [|k IH] using Pos.peano_ind.
  - cbn. lia.
  - rewrite Pos.iter_succ, Pos2Z.inj_succ, Z.pow_succ_r by lia.
    rewrite Pos2Z.inj_xO, IH. lia.
Qed.

Lemma shr_fexp_53 m e l :
  Zdigits2 m = 53 -> -1074 <= e ->
  shr_fexp 53 1024 m e l = (shr_record_of_loc m l, e).
Proof.
  intros Hd He. unfold shr_fexp, fexp, emin. rewrite Hd.
  replace (Z.max (53 + e - 53) (3 - 1024 - 53) - e) with 0 by lia. reflexivity.
Qed.

Lemma shr_fexp_54 m e l :
  Zdigits2 m = 54 -> -1075 <= e ->
  shr_fexp 53 1024 m e l = (shr_1 (shr_record_of_loc m l), e + 1).
Proof.
  intros Hd He. unfold shr_fexp, fexp, emin. rewrite Hd.
  replace (Z.max (54 + e - 53) (3 - 1024 - 53) - e) with 1 by lia. reflexivity.
Qed.

Lemma shiftl_carry e : Z.shiftl (2 ^ 52) (e + 1) = Z.shiftl (2 ^ 53) e.
Proof.
  destruct (Z.le_gt_cases 0 e) as [He|He].
  - rewrite !Z.shiftl_mul_pow2, Z.pow_add_r by lia. lia.
  - rewrite (Z.shiftl_div_pow2 (2 ^ 53)) by lia.
    destruct (Z.eq_dec e (-1)) as [->|Hne]; [reflexivity|].
    rewrite Z.shiftl_div_pow2 by lia.
    replace (- e) with (1 + - (e + 1)) by lia. rewrite Z.pow_add_r by lia.
    change (2 ^ 53) with (2 ^ 1 * 2 ^ 52).
    rewrite Z.div_mul_cancel_l; [done| |lia].
    apply Z.pow_nonzero; lia.
Qed.

(** The second half of [binary_round_aux]: a rounded mantissa of 53 digits
    is kept, and [2 ^ 53] is carried into the exponent. *)
Lemma round_finish s M e :
  2 ^ 52 <= M <= 2 ^ 53 -> -1074 <= e <= 970 ->
  to_int (let '(mrs, e') := shr_fexp 53 1024 M e loc_Exact in
          match shr_m mrs with
          | Z0 => S754_zero s
          | Zpos m =>
              if Z.leb e' (1024 - 53) then S754_finite s m e'
              else S754_infinity s
          | Zneg _ => S754_nan
          end)
  = Some (cond_Zopp s (Z.shiftl M e)).
Proof.
  intros HM He. destruct M as [|M|M]; [cbn in HM; lia| |lia].
  destruct (Z.eq_dec (Zpos M) (2 ^ 53)) as [->|Hne].
  - rewrite shr_fexp_54 by (try reflexivity; lia). cbn [shr_record_of_loc shr_1 shr_m].
    change (2 ^ 53) with (Zpos (xO (Z.to_pos (2 ^ 52)))). cbn [shr_m].
    rewrite (proj2 (Z.leb_le _ _)) by lia.
    cbn [to_int]. f_equal. f_equal.
    change (Zpos (xO (Z.to_pos (2 ^ 52)))) with (2 ^ 53).
    change (Zpos (Z.to_pos (2 ^ 52))) with (2 ^ 52). apply shiftl_carry.
  - rewrite shr_fexp_53; [| |lia].
    + cbn [shr_record_of_loc shr_m].
      by rewrite (proj2 (Z.leb_le _ _)) by lia.
    + cbn [Zdigits2]. apply digits2_pos_unique. change (53 - 1) with 52. lia.
Qed.

Lemma shr_m_of_loc m l : shr_m (shr_record_of_loc m l) = m.
Proof. by destruct l as [|[]]. Qed.

Lemma round_nearest_even_cases m l :
  round_nearest_even m l = m \/ round_nearest_even m l = m + 1.
Proof. destruct l as [|[]]; cbn; [auto|destruct (Z.even m); auto|auto|auto]. Qed.

Lemma binary_round_aux_53 s q e l :
  Zdigits2 (Zpos q) = 53 -> -1074 <= e <= 970 ->
  exists b, (b = 0 \/ b = 1)
    /\ to_int (binary_round_aux 53 1024 s (Zpos q) e l)
       = Some (cond_Zopp s (Z.shiftl (Zpos q + b) e)).
Proof.
  intros Hd He. unfold binary_round_aux. rewrite shr_fexp_53 by (done || lia).
  rewrite shr_m_of_loc. cbn [Zdigits2] in Hd.
  pose proof (digits2_pos_bounds q) as Hq. rewrite Hd in Hq. change (53 - 1) with 52 in Hq.
  destruct (round_nearest_even_cases (Zpos q) (loc_of_shr_record (shr_record_of_loc (Zpos q) l)))
    as [->| ->].
  - exists 0. split; [auto|]. rewrite Z.add_0_r. apply round_finish; lia.
  - exists 1. split; [auto|]. apply round_finish; lia.
Qed.

Lemma binary_round_aux_54 s q e l :
  Zdigits2 (Zpos q) = 54 -> -1075 <= e <= 969 ->
  exists b, (b = 0 \/ b = 1 /\ Z.odd (Zpos q) = true)
    /\ to_int (binary_round_aux 53 1024 s (Zpos q) e l)
       = Some (cond_Zopp s (Z.shiftl (Zpos q / 2 + b) (e + 1))).
Proof.
  intros Hd He. unfold binary_round_aux. rewrite shr_fexp_54 by (done || lia).
  cbn [Zdigits2] in Hd.
  pose proof (digits2_pos_bounds q) as Hq. rewrite Hd in Hq. change (54 - 1) with 53 in Hq.
  set (mrs := shr_1 (shr_record_of_loc (Zpos q) l)).
  assert (shr_m mrs = Zpos q / 2) as Hm.
  { subst mrs. destruct l as [|[]], q as [q|q|]; cbn [shr_record_of_loc shr_1 shr_m];
      first [ by rewrite Pos2Z.inj_xI, Z.mul_comm, Z.div_add_l | 
              by rewrite Pos2Z.inj_xO, Z.mul_comm, Z.div_mul | reflexivity ]. }
  assert (round_nearest_even (shr_m mrs) (loc_of_shr_record mrs) = shr_m mrs
          \/ round_nearest_even (shr_m mrs) (loc_of_shr_record mrs) = shr_m mrs + 1
             /\ Z.odd (Zpos q) = true) as [Hr|[Hr Hodd]].
  { subst mrs. destruct l as [|[]], q as [q|q|]; cbn [shr_record_of_loc shr_1 shr_m];
      cbn - [Z.add Z.even]; auto; destruct (Z.even _); auto. }
  all: assert (2 ^ 52 <= Zpos q / 2 < 2 ^ 53) as Hhalf
    by (split; [apply Z.div_le_lower_bound|apply Z.div_lt_upper_bound]; lia).
  - exists 0. split; [auto|]. rewrite Hr, Hm, Z.add_0_r. apply round_finish; lia.
  - exists 1. split; [auto|]. rewrite Hr, Hm. apply round_finish; lia.
Qed.

Lemma scaled_bounds x d :
  1 <= d <= 53 -> 2 ^ (d - 1) <= x < 2 ^ d ->
  2 ^ 52 <= x * 2 ^ (53 - d) < 2 ^ 53.
Proof.
  intros Hd [Hlo Hhi].
  assert (0 < 2 ^ (53 - d)) as Hpos by (apply Z.pow_pos_nonneg; lia).
  assert (2 ^ 52 = 2 ^ (d - 1) * 2 ^ (53 - d)) as ->
    by (rewrite <- Z.pow_add_r by lia; f_equal; lia).
  assert (2 ^ 53 = 2 ^ d * 2 ^ (53 - d)) as ->
    by (rewrite <- Z.pow_add_r by lia; f_equal; lia).
  split; [by apply Z.mul_le_mono_nonneg_r; lia|by apply Z.mul_lt_mono_pos_r].
Qed.

Lemma binary_round_aux_exact s m e :
  Zdigits2 (Zpos m) = 53 -> -1074 <= e <= 971 ->
  binary_round_aux 53 1024 s (Zpos m) e loc_Exact = S754_finite s m e.
Proof.
  intros Hd He. unfold binary_round_aux.
  rewrite shr_fexp_53 by (done || lia). cbn [shr_record_of_loc shr_m loc_of_shr_record
                                               round_nearest_even].
  rewrite shr_fexp_53 by (done || lia). cbn [shr_record_of_loc shr_m].
  by rewrite (proj2 (Z.leb_le _ _)) by lia.
Qed.

(** [float(x)] is exact for a positive [x] below [2 ^ 53]: the digits of
    [x] are moved to the top of the mantissa. *)
Lemma of_int_pos x :
  0 < x < 2 ^ 53 ->
  exists m d,
    of_int x = Some (S754_finite false m (d - 53))
    /\ Zdigits2 (Zpos m) = 53
    /\ Zpos m = x * 2 ^ (53 - d)
    /\ 1 <= d <= 53 /\ 2 ^ (d - 1) <= x < 2 ^ d.
Proof.
  intros Hx. destruct x as [|p|p]; [lia| |lia].
  pose proof (digits2_pos_bounds p) as Hp.
  set (d := Zpos (digits2_pos p)) in *.
  assert (1 <= d <= 53) as Hd.
  { split; [subst d; lia|].
    destruct (Z.le_gt_cases d 53) as [|Hgt]; [done|].
    assert (2 ^ 53 <= 2 ^ (d - 1)) by (apply Z.pow_le_mono_r; lia). lia. }
  unfold of_int, prec, emax, binary_normalize, binary_round, shl_align, fexp, emin.
  fold d. destruct (Z.eq_dec d 53) as [Heq|Hne].
  - replace (Z.max (d + 0 - 53) (3 - 1024 - 53) - 0) with 0 by lia.
    cbv iota beta.
    assert (Zdigits2 (Zpos p) = 53) as Hdig by (cbn [Zdigits2]; by fold d).
    rewrite binary_round_aux_exact by (done || lia).
    exists p, 53. rewrite Heq in Hp. change (53 - 53) with 0.
    rewrite Z.pow_0_r, Z.mul_1_r. repeat split; lia || done.
  - replace (Z.max (d + 0 - 53) (3 - 1024 - 53) - 0) with (d - 53) by lia.
    replace (Z.max (d + 0 - 53) (3 - 1024 - 53)) with (d - 53) by lia.
    destruct (d - 53) as [|k|k] eqn:Hk; [lia|lia|].
    assert (Zpos k = 53 - d) as Hk' by lia.
    assert (Zdigits2 (Zpos (Pos.iter xO p k)) = 53) as Hdig.
    { cbn [Zdigits2]. apply digits2_pos_unique. rewrite iter_xO_pow2, Hk'.
      change (53 - 1) with 52. by apply scaled_bounds. }
    rewrite binary_round_aux_exact by (done || lia).
    exists (Pos.iter xO p k), d. rewrite <- Hk.
    repeat split; try lia. by rewrite iter_xO_pow2, Hk'.
Qed.

Lemma SFdiv_core_53 m1 e1 m2 e2 :
  Zdigits2 (Zpos m1) = 53 -> Zdigits2 (Zpos m2) = 53 ->
  -52 <= e1 - e2 <= 52 ->
  SFdiv_core_binary 53 1024 (Zpos m1) e1 (Zpos m2) e2
  = (Zpos m1 * 2 ^ 53 / Zpos m2, e1 - e2 - 53,
     new_location (Zpos m2) (Zpos m1 * 2 ^ 53 mod Zpos m2)).
Proof.
  intros Hd1 Hd2 He. unfold SFdiv_core_binary. rewrite Hd1, Hd2.
  unfold fexp, emin.
  replace (Z.min (Z.max (53 + e1 - (53 + e2) - 53) (3 - 1024 - 53)) (e1 - e2))
    with (e1 - e2 - 53) by lia.
  replace (e1 - e2 - (e1 - e2 - 53)) with 53 by lia.
  cbv iota. rewrite Z.shiftl_mul_pow2 by lia.
  unfold Z.div, Z.modulo. by destruct (Z.div_eucl _ _).
Qed.

(** The quotient of the two mantissas, [q], is the quotient of [x * K] by
    [y] for a power of two [K] above [y]: it lies at least 2 below the next
    multiple of [K] after [K * (x / y)]. *)
Lemma mantissa_quotient x y dx dy :
  1 <= dx <= 53 -> 1 <= dy <= 53 -> 0 < x -> 2 ^ (dy - 1) <= y < 2 ^ dy ->
  let q := x * 2 ^ (53 - dx) * 2 ^ 53 / (y * 2 ^ (53 - dy)) in
  let K := 2 ^ (53 - dx + dy) in
  K * (x / y) <= q <= K * (x / y + 1) - 2.
Proof.
  intros Hdx Hdy Hx Hy q K.
  assert (0 < 2 ^ (dy - 1)) by (apply Z.pow_pos_nonneg; lia).
  assert (0 < 2 ^ (53 - dy)) by (apply Z.pow_pos_nonneg; lia).
  assert (y < K) as HyK.
  { assert (2 ^ dy <= K) by (apply Z.pow_le_mono_r; lia). lia. }
  assert (q = x * K / y) as ->.
  { subst q K. rewrite <- (Z.div_mul_cancel_r (x * _) y (2 ^ (53 - dy))) by lia.
    f_equal. rewrite <- !Z.mul_assoc, <- !Z.pow_add_r by lia.
    do 2 f_equal. lia. }
  pose proof (Z.div_mod x y ltac:(lia)) as Hdiv.
  pose proof (Z.mod_pos_bound x y ltac:(lia)) as Hmod.
  set (n := x / y) in *. set (r := x mod y) in *.
  assert (x * K = y * (K * n) + r * K) as HxK by (rewrite Hdiv at 1; ring).
  assert (0 <= r * K) by (apply Z.mul_nonneg_nonneg; lia).
  assert (r * K <= (y - 1) * K) by (apply Z.mul_le_mono_nonneg_r; lia).
  split.
  - apply Z.div_le_lower_bound; lia.
  - assert (x * K / y < K * (n + 1) - 1); [|lia].
    apply Z.div_lt_upper_bound; lia.
Qed.

Lemma mantissa_quotient_digits m1 m2 :
  2 ^ 52 <= m1 < 2 ^ 53 -> 2 ^ 52 <= m2 < 2 ^ 53 ->
  2 ^ 52 <= m1 * 2 ^ 53 / m2 < 2 ^ 54.
Proof.
  intros H1 H2. split.
  - apply Z.div_le_lower_bound; lia.
  - apply Z.div_lt_upper_bound; lia.
Qed.

(** Below [2 ^ 53] the division of floats, cut to an integer, is the
    division of integers: the rounding of the quotient never reaches the
    next integer. *)
Lemma int_of_true_div_exact x y :
  0 <= x < 2 ^ 53 -> 0 < y < 2 ^ 53 -> int_of_true_div x y = Some (x / y).
Proof.
  intros Hx Hy. unfold int_of_true_div.
  destruct (of_int_pos y Hy) as (m2 & dy & -> & Hd2 & Hm2 & Hdy & Hy').
  destruct (Z.eq_dec x 0) as [->|Hx0]; [done|].
  destruct (of_int_pos x ltac:(lia)) as (m1 & dx & -> & Hd1 & Hm1 & Hdx & Hx').
  cbn [mbind option_bind truediv SFdiv xorb].
  rewrite SFdiv_core_53 by (done || lia).
  pose proof (mantissa_quotient x y dx dy Hdx Hdy ltac:(lia) Hy') as Hq.
  cbv zeta in Hq. rewrite <- Hm1, <- Hm2 in Hq.
  pose proof (scaled_bounds x dx Hdx Hx') as Hb1.
  pose proof (scaled_bounds y dy Hdy Hy') as Hb2.
  rewrite <- Hm1 in Hb1. rewrite <- Hm2 in Hb2.
  pose proof (mantissa_quotient_digits _ _ Hb1 Hb2) as Hdig.
  set (q := Zpos m1 * 2 ^ 53 / Zpos m2) in *.
  set (l := new_location _ _). clearbody l.
  set (K := 2 ^ (53 - dx + dy)) in *. set (n := x / y) in *.
  assert (0 < K) by (apply Z.pow_pos_nonneg; lia).
  destruct q as [|qp|qp] eqn:Hqq; [lia| |lia].
  replace (dx - 53 - (dy - 53) - 53) with (dx - dy - 53) by lia.
  unfold prec, emax.
  destruct (Z.lt_ge_cases (Zpos qp) (2 ^ 53)) as [Hlt|Hge].
  - destruct (binary_round_aux_53 false qp (dx - dy - 53) l) as (b & Hb & ->);
      [cbn [Zdigits2]; apply digits2_pos_unique; change (53 - 1) with 52; lia|lia|].
    cbn [cond_Zopp]. f_equal.
    rewrite Z.shiftl_div_pow2 by lia.
    replace (- (dx - dy - 53)) with (53 - dx + dy) by lia. fold K.
    apply Z.le_antisymm.
    + assert ((Zpos qp + b) / K < n + 1); [|lia].
      apply Z.div_lt_upper_bound; lia.
    + apply Z.div_le_lower_bound; lia.
  - destruct (binary_round_aux_54 false qp (dx - dy - 53) l) as (b & Hb & ->);
      [cbn [Zdigits2]; apply digits2_pos_unique; change (54 - 1) with 53; lia|lia|].
    cbn [cond_Zopp]. f_equal.
    rewrite Z.shiftl_div_pow2 by lia.
    replace (- (dx - dy - 53 + 1)) with (52 - dx + dy) by lia.
    assert (K = 2 * 2 ^ (52 - dx + dy)) as HK.
    { subst K. replace (53 - dx + dy) with (Z.succ (52 - dx + dy)) by lia.
      rewrite Z.pow_succ_r by lia. done. }
    set (K2 := 2 ^ (52 - dx + dy)) in *.
    assert (0 < K2) by lia.
    pose proof (Z.div_mod (Zpos qp) 2 ltac:(lia)) as Hhalf.
    pose proof (Z.mod_pos_bound (Zpos qp) 2 ltac:(lia)) as Hbit.
    assert (b = 1 -> Zpos qp mod 2 = 1) as Hodd.
    { intros ->. destruct Hb as [|[_ Hb]]; [lia|].
      by rewrite <- Z.bit0_mod, Z.bit0_odd, Hb. }
    set (h := Zpos qp / 2) in *.
    assert (K2 * n <= h /\ h + b < K2 * (n + 1)) as [Hlo Hhi].
    { assert (b = 0 \/ b = 1) as [->| ->] by tauto; [lia|].
      specialize (Hodd eq_refl). lia. }
    apply Z.le_antisymm.
    + assert ((h + b) / K2 < n + 1); [|lia].
      apply Z.div_lt_upper_bound; lia.
    + apply Z.div_le_lower_bound; lia.
Qed.

End binary64.

(** ** [Class.complexity] *)

(** X1.  For a class record whose [real_complexity] is not negative and
    is, like the number of its methods, below [2 ^ 53], the derived
    complexity is [real_complexity] when the class has no method or one
    method, and [floor(real_complexity / method_count) + 1] when it has
    more than one.  Nothing is raised. *)
Theorem Class_complexity_is_derived (self : Class) :
  0 <= cls_real_complexity self < 2 ^ 53 ->
  len (cls_methods self) < 2 ^ 53 ->
  Class_complexity self
  = Some (derived_complexity (cls_real_complexity self) (len (cls_methods self))).
Proof.
  intros Hreal Hmethods. unfold Class_complexity, derived_complexity.
  destruct (cls_methods self) as [|m methods] eqn:Hm; [done|].
  set (n := len (m :: methods)) in *.
  assert (0 < n) as Hn by (unfold n, len; cbn [length]; lia).
  rewrite int_of_true_div_exact by lia. cbn [mbind option_bind].
  rewrite (bool_decide_eq_false_2 (n = 0)) by lia.
  case_bool_decide as Hmore; cbn [Z_of_bool]; [done|].
  assert (n = 1) as -> by lia. by rewrite Z.div_1_r, Z.add_0_r.
Qed.

Lemma Class_complexity_is_derived_witness :
  Class_complexity
    (mkClass "K" 1 0 9
       [mkFunction "f" 2 4 5 true (Some "K") [] 7;
        mkFunction "g" 6 4 9 true (Some "K") [] 3] [] 10)
  = Some (derived_complexity 10 2).
Proof.
  apply (Class_complexity_is_derived
           (mkClass "K" 1 0 9
              [mkFunction "f" 2 4 5 true (Some "K") [] 7;
               mkFunction "g" 6 4 9 true (Some "K") [] 3] [] 10)).
  - cbn [cls_real_complexity]. lia.
  - reflexivity.
Defined.

(** A negative [real_complexity] is cut towards zero, not down. *)
Example Class_complexity_truncates :
  Class_complexity
    (mkClass "K" 1 0 9
       [mkFunction "f" 2 4 5 true (Some "K") [] 7;
        mkFunction "g" 6 4 9 true (Some "K") [] 3] [] (-1))
  = Some 1
  /\ derived_complexity (-1) 2 = 0.
Proof. split; reflexivity. Qed.

(** From [2 ^ 53 + 1] on, [real_complexity] is rounded when it becomes a
    float: a class of one method does not always have its
    [real_complexity] for complexity. *)
Example Class_complexity_rounds :
  Class_complexity
    (mkClass "K" 1 0 9 [mkFunction "f" 2 4 5 true (Some "K") [] 7] []
       (2 ^ 53 + 1))
  = Some (2 ^ 53)
  /\ derived_complexity (2 ^ 53 + 1) 1 = 2 ^ 53 + 1.
Proof. split; reflexivity. Qed.

(** ** [LCOMVisitor] *)
Section lcom_properties.
Import LCOMVisitor LCOMSpec.

Lemma LCOM_visit_ClassDef name bases keywords body decorator_list self :
  visit (ast.ClassDef name bases keywords body decorator_list) self
  = ('(method_fields, methods) ← class_body body ∅ [];
     lcom ← calculate_lcom method_fields methods;
     Some (<[name := lcom]> self)).
Proof. reflexivity. Qed.

Lemma class_body_app body1 body2 method_fields methods :
  class_body (body1 ++ body2) method_fields methods
  = ('(method_fields, methods) ← class_body body1 method_fields methods;
     class_body body2 method_fields methods).
Proof.
  revert method_fields methods.
  induction body1 as [|item body1 IH]; intros method_fields methods; [done|].
  cbn [app class_body]. destruct (isinstance _ _); [|apply IH].
  destruct (attr_str item "name") as [method_name|]; [|done].
  destruct (MethodFieldVisitor.fields_accessed item) as [accessed|]; [|done].
  apply IH.
Qed.

Lemma class_body_direct_methods body method_fields methods :
  class_body body method_fields methods
  = class_body (direct_methods body) method_fields methods.
Proof.
  revert method_fields methods. unfold direct_methods.
  induction body as [|item body IH]; intros method_fields methods; [done|].
  cbn [class_body isinstance]. rewrite filter_cons. case_bool_decide as Hkind.
  - rewrite decide_True by done. cbn [class_body isinstance].
    rewrite bool_decide_eq_true_2 by done.
    destruct (attr_str item "name") as [method_name|]; [|done].
    destruct (MethodFieldVisitor.fields_accessed item) as [accessed|]; [|done].
    apply IH.
  - rewrite decide_False by done. apply IH.
Qed.

(** X2.  A statement of the class body that is an asynchronous function
    definition adds neither a method nor a set of fields, so the class has
    the same score with it as without it. *)
Theorem async_methods_do_not_count
    name bases keywords decorator_list pre item post method_fields methods self :
  get_name item = "AsyncFunctionDef" ->
  class_body (pre ++ item :: post) method_fields methods
  = class_body (pre ++ post) method_fields methods
  /\ visit (ast.ClassDef name bases keywords (pre ++ item :: post) decorator_list) self
     = visit (ast.ClassDef name bases keywords (pre ++ post) decorator_list) self.
Proof.
  intros Hasync.
  assert (forall mf ms, class_body (pre ++ item :: post) mf ms
                        = class_body (pre ++ post) mf ms) as Hbody.
  { intros mf ms. rewrite !class_body_app.
    destruct (class_body pre mf ms) as [[mf' ms']|]; [|done].
    simpl_option. cbn [class_body isinstance]. rewrite Hasync.
    by rewrite bool_decide_eq_false_2. }
  split; [apply Hbody|]. by rewrite !LCOM_visit_ClassDef, Hbody.
Qed.

Lemma async_methods_do_not_count_witness :
  class_body
    ([returning "one" (self_field "a")]
     ++ ast.AsyncFunctionDef "two" (ast.arguments [ast.arg "self" None])
          [ast.Return (Some (self_field "b"))] [] None
        :: [returning "three" (self_field "a")]) ∅ []
  = class_body
      ([returning "one" (self_field "a")] ++ [returning "three" (self_field "a")])
      ∅ []
  /\ visit (ast.ClassDef "K" [] []
             ([returning "one" (self_field "a")]
              ++ ast.AsyncFunctionDef "two" (ast.arguments [ast.arg "self" None])
                   [ast.Return (Some (self_field "b"))] [] None
                 :: [returning "three" (self_field "a")]) []) ∅
     = visit (ast.ClassDef "K" [] []
                ([returning "one" (self_field "a")]
                 ++ [returning "three" (self_field "a")]) []) ∅.
Proof. apply async_methods_do_not_count. reflexivity. Defined.

Lemma compare_fields_apart (F G : gset string) P Q :
  F ## G \/ F = ∅ \/ G = ∅ -> compare_fields F G (P, Q) = (P + 1, Q).
Proof.
  intros Hapart. unfold compare_fields.
  destruct (bool_decide (F ≠ ∅)) eqn:HF; [|done].
  destruct (bool_decide (G ≠ ∅)) eqn:HG; [|done]. cbn.
  apply bool_decide_eq_true in HF, HG.
  destruct Hapart as [Hd|[->| ->]]; [|done..].
  by rewrite bool_decide_eq_true_2.
Qed.

(** X3.  A class whose directly defined methods are exactly
    three, with three different names, two of them accessing disjoint sets
    of fields that are not empty and one accessing no field, has the score
    3: every one of the three pairs of methods counts for [P]. *)
Theorem three_methods_score_three
    name bases keywords body decorator_list m1 m2 m3 n1 n2 n3 F1 F2 F3 self :
  direct_methods body = [m1; m2; m3] ->
  attr_str m1 "name" = Some n1 ->
  attr_str m2 "name" = Some n2 ->
  attr_str m3 "name" = Some n3 ->
  NoDup [n1; n2; n3] ->
  MethodFieldVisitor.fields_accessed m1 = Some F1 ->
  MethodFieldVisitor.fields_accessed m2 = Some F2 ->
  MethodFieldVisitor.fields_accessed m3 = Some F3 ->
  two_disjoint_one_empty F1 F2 F3 ->
  visit (ast.ClassDef name bases keywords body decorator_list) self
  = Some (<[name := 3]> self)
  /\ analyze_lcom
       (ast.Module [ast.ClassDef name bases keywords body decorator_list])
     = Some {[ name := 3 ]}.
Proof.
  intros Hmethods Hn1 Hn2 Hn3 Hnames HF1 HF2 HF3 Hsets.
  assert (forall self,
            visit (ast.ClassDef name bases keywords body decorator_list) self
            = Some (<[name := 3]> self)) as Hvisit.
  { clear self. intros self.
    rewrite LCOM_visit_ClassDef, class_body_direct_methods, Hmethods.
    assert (Forall (fun m => get_name m = "FunctionDef") [m1; m2; m3]) as Hkinds.
    { rewrite <- Hmethods. apply Forall_forall. intros m Hm.
      by apply list_elem_of_filter in Hm as [Hm _]. }
    apply Forall_cons in Hkinds as [Hk1 Hkinds].
    apply Forall_cons in Hkinds as [Hk2 Hkinds].
    apply Forall_cons in Hkinds as [Hk3 _].
    cbn [class_body isinstance].
    rewrite Hk1, Hk2, Hk3, Hn1, Hn2, Hn3, HF1, HF2, HF3.
    rewrite !(bool_decide_eq_true_2 ("FunctionDef" = "FunctionDef")) by done.
    simpl_option. cbn [app].
    apply NoDup_cons in Hnames as [Hn1' Hnames].
    apply NoDup_cons in Hnames as [Hn2' _].
    apply not_elem_of_cons in Hn1' as [Hn12 Hn1'].
    apply not_elem_of_cons in Hn1' as [Hn13 _].
    apply not_elem_of_cons in Hn2' as [Hn23 _].
    unfold calculate_lcom.
    rewrite (bool_decide_eq_false_2 (len [n1; n2; n3] < 2))
      by (unfold len; cbn [length]; lia).
    cbn [outer_loop inner_loop]. simpl_option.
    rewrite !lookup_insert_eq.
    rewrite !(lookup_insert_ne _ n3 n2), !lookup_insert_eq by done.
    rewrite !(lookup_insert_ne _ n3 n1), !(lookup_insert_ne _ n2 n1),
      !lookup_insert_eq by done.
    simpl_option.
    rewrite (compare_fields_apart F1 F2), (compare_fields_apart F1 F3),
      (compare_fields_apart F2 F3);
      [done|destruct Hsets as [(?&?&?&?)|[(?&?&?&?)|(?&?&?&?)]]; auto..]. }
  split; [apply Hvisit|].
  unfold analyze_lcom. change (LCOMVisitor.visit (ast.Module ?b) ∅)
    with (visit_each (map LCOMVisitor.visit b) ∅).
  cbn [map visit_each]. rewrite Hvisit. done.
Qed.

Lemma three_methods_score_three_witness :
  visit MyClass ∅ = Some (<["MyClass" := 3]> ∅)
  /\ analyze_lcom (ast.Module [MyClass]) = Some {[ "MyClass" := 3 ]}.
Proof.
  apply (three_methods_score_three "MyClass" [] [] MyClass_body []
           (returning "method_one"
              (ast.BinOp (self_field "a") ast.Add (ast.Constant (VInt 1))))
           (returning "method_two"
              (ast.BinOp (self_field "b") ast.Add (ast.Constant (VInt 2))))
           (returning "method_three" (ast.Constant (VInt 3)))
           "method_one" "method_two" "method_three" {["a"]} {["b"]} ∅).
  - by vm_compute.
  - reflexivity.
  - reflexivity.
  - reflexivity.
  - decide_closed.
  - by vm_compute.
  - by vm_compute.
  - by vm_compute.
  - left. repeat split; decide_closed.
Defined.

(** *** The two counters of [calculate_lcom] *)

Lemma compare_fields_counts F G P Q P' Q' :
  compare_fields F G (P, Q) = (P', Q') ->
  P <= P' /\ Q <= Q' /\ P' + Q' = P + Q + 1.
Proof.
  unfold compare_fields.
  destruct (_ && _); [destruct (bool_decide _)|]; intros [= <- <-]; lia.
Qed.

Lemma inner_loop_counts method_fields method_i rest P Q P' Q' :
  inner_loop method_fields method_i rest (P, Q) = Some (P', Q') ->
  P <= P' /\ Q <= Q' /\ P' + Q' = P + Q + len rest.
Proof.
  revert P Q. induction rest as [|method_j rest IH]; intros P Q.
  - intros [= <- <-]. unfold len. cbn. lia.
  - cbn [inner_loop].
    destruct (method_fields !! method_i) as [Fi|]; [|done].
    destruct (method_fields !! method_j) as [Fj|]; [|done]. simpl_option.
    destruct (compare_fields Fi Fj (P, Q)) as [P1 Q1] eqn:Hcompare.
    apply compare_fields_counts in Hcompare. intros Hrest%IH.
    unfold len in *. cbn [length]. lia.
Qed.

Lemma outer_loop_counts method_fields methods P Q P' Q' :
  outer_loop method_fields methods (P, Q) = Some (P', Q') ->
  P <= P' /\ Q <= Q'
  /\ 2 * (P' + Q') = 2 * (P + Q) + len methods * (len methods - 1).
Proof.
  revert P Q. induction methods as [|method_i rest IH]; intros P Q.
  - intros [= <- <-]. unfold len. cbn. lia.
  - cbn [outer_loop].
    destruct (inner_loop method_fields method_i rest (P, Q)) as [[P1 Q1]|] eqn:Hinner;
      [|done].
    apply inner_loop_counts in Hinner. simpl_option. intros Hrest%IH.
    unfold len in *. cbn [length]. nia.
Qed.

(** X4.  The score that [calculate_lcom] returns is never negative and
    never more than the number of pairs of methods, n(n-1)/2 for n
    methods. *)
Theorem lcom_between_zero_and_pairs method_fields methods lcom :
  calculate_lcom method_fields methods = Some lcom ->
  0 <= lcom /\ 2 * lcom <= len methods * (len methods - 1).
Proof.
  unfold calculate_lcom. case_bool_decide as Hfew.
  - intros [= <-]. unfold len in *. nia.
  - destruct (outer_loop method_fields methods (0, 0)) as [[P Q]|] eqn:Hloop;
      [|done].
    apply outer_loop_counts in Hloop. simpl_option.
    case_bool_decide; intros [= <-]; lia.
Qed.

Lemma lcom_between_zero_and_pairs_witness :
  0 <= 3 /\ 2 * 3 <= len ["one"; "two"; "three"] * (len ["one"; "two"; "three"] - 1).
Proof.
  apply (lcom_between_zero_and_pairs
           (<["three" := ∅]> (<["two" := {["b"]}]> (<["one" := {["a"]}]> ∅)))).
  by vm_compute.
Defined.

(** *** No method is looked up that was not recorded *)

Lemma inner_loop_recorded (method_fields : gmap string (gset string))
    method_i rest PQ :
  is_Some (method_fields !! method_i) ->
  Forall (fun m => is_Some (method_fields !! m)) rest ->
  is_Some (inner_loop method_fields method_i rest PQ).
Proof.
  intros [Fi Hi] Hrest. revert PQ.
  induction Hrest as [|method_j rest [Fj Hj] _ IH]; intros PQ; [by eexists|].
  cbn [inner_loop]. rewrite Hi, Hj. simpl_option. apply IH.
Qed.

Lemma outer_loop_recorded (method_fields : gmap string (gset string)) methods PQ :
  Forall (fun m => is_Some (method_fields !! m)) methods ->
  is_Some (outer_loop method_fields methods PQ).
Proof.
  intros Hall. revert PQ.
  induction Hall as [|method_i rest Hi Hrest IH]; intros PQ; [by eexists|].
  cbn [outer_loop].
  destruct (inner_loop_recorded method_fields method_i rest PQ Hi Hrest)
    as [PQ' ->].
  simpl_option. apply IH.
Qed.

Lemma class_body_records body (method_fields : gmap string (gset string))
    methods method_fields' methods' :
  class_body body method_fields methods = Some (method_fields', methods') ->
  Forall (fun m => is_Some (method_fields !! m)) methods ->
  Forall (fun m => is_Some (method_fields' !! m)) methods'
  /\ length methods' = (length methods + length (direct_methods body))%nat.
Proof.
  revert method_fields methods.
  induction body as [|item body IH]; intros method_fields methods.
  - intros [= <- <-] Hall. split; [done|]. cbn. lia.
  - cbn [class_body isinstance]. unfold direct_methods. rewrite filter_cons.
    case_bool_decide as Hkind.
    + rewrite decide_True by done.
      destruct (attr_str item "name") as [method_name|]; [|done].
      destruct (MethodFieldVisitor.fields_accessed item) as [accessed|]; [|done].
      simpl_option. intros Hbody Hall.
      apply IH in Hbody as [Hall' Hlen].
      * split; [done|]. rewrite Hlen, length_app. cbn [length].
        unfold direct_methods. lia.
      * apply Forall_app. split.
        -- eapply Forall_impl; [exact Hall|]. intros m [F Hm]. cbn in Hm.
           destruct (decide (method_name = m)) as [->|Hne].
           ++ rewrite lookup_insert_eq. by eexists.
           ++ rewrite lookup_insert_ne by done. by eexists.
        -- constructor; [|constructor]. rewrite lookup_insert_eq. by eexists.
    + rewrite decide_False by done. apply IH.
Qed.

(** X5.  Visiting a class definition raises only where the collection of
    its methods raises (a method whose name is not a string, or whose field
    visit raises): [calculate_lcom] never looks up a method that has no
    entry in [method_fields]. *)
Theorem class_visit_raises_only_in_methods
    name bases keywords body decorator_list self :
  is_Some (class_body body ∅ []) ->
  is_Some (visit (ast.ClassDef name bases keywords body decorator_list) self).
Proof.
  intros [[method_fields methods] Hbody].
  rewrite LCOM_visit_ClassDef, Hbody. simpl_option.
  apply class_body_records in Hbody as [Hall _]; [|constructor].
  unfold calculate_lcom. case_bool_decide; [by eexists|].
  destruct (outer_loop_recorded method_fields methods (0, 0) Hall) as [[P Q] ->].
  simpl_option. by eexists.
Qed.

Lemma class_visit_raises_only_in_methods_witness :
  is_Some (visit (ast.ClassDef "K" [] [] [returning "only" (self_field "a")] []) ∅).
Proof.
  apply (class_visit_raises_only_in_methods "K" [] []
           [returning "only" (self_field "a")] []).
  exists (<["only" := {["a"]}]> ∅, ["only"]). reflexivity.
Defined.

(** X6.  A class with fewer than two methods defined directly in its body
    has the score 0. *)
Theorem fewer_than_two_methods_score_zero
    name bases keywords body decorator_list self :
  (length (direct_methods body) < 2)%nat ->
  is_Some (class_body body ∅ []) ->
  visit (ast.ClassDef name bases keywords body decorator_list) self
  = Some (<[name := 0]> self).
Proof.
  intros Hfew [[method_fields methods] Hbody].
  rewrite LCOM_visit_ClassDef, Hbody. simpl_option.
  apply class_body_records in Hbody as [_ Hlen]; [|constructor].
  unfold calculate_lcom. rewrite bool_decide_eq_true_2; [done|].
  unfold len. cbn [length] in Hlen. lia.
Qed.

Lemma fewer_than_two_methods_score_zero_witness :
  visit (ast.ClassDef "K" [] []
           [ast.Assign [ast.Name "x" ast.Store] (ast.Constant (VInt 1));
            returning "only" (self_field "a")] []) ∅
  = Some (<["K" := 0]> ∅).
Proof.
  apply fewer_than_two_methods_score_zero.
  - vm_compute. lia.
  - exists (<["only" := {["a"]}]> ∅, ["only"]). reflexivity.
Defined.

End lcom_properties.

(** ** [MethodFieldVisitor] *)
Section method_field_properties.
Import MethodFieldVisitor.

Lemma MethodField_visit_Node kind fs :
  visit (Node kind fs) = dispatch (Node kind fs) (fields_map visit fs).
Proof. reflexivity. Qed.

Lemma visit_each_union (visits : list (t -> option t)) :
  Forall (fun v => forall self : t, v self = (fun found => self ∪ found) <$> v ∅)
         visits ->
  forall self : t,
    visit_each visits self = (fun found => self ∪ found) <$> visit_each visits ∅.
Proof.
  induction 1 as [|v visits Hv _ IH]; intros self; cbn [visit_each].
  - simpl_option. f_equal. by rewrite (right_id_L ∅ (∪)).
  - rewrite Hv. destruct (v ∅) as [found|]; [|done]. simpl_option.
    rewrite (IH (self ∪ found)), (IH found).
    destruct (visit_each visits ∅) as [found'|]; [|done]. simpl_option.
    f_equal. by rewrite (assoc_L (∪)).
Qed.

Lemma MethodField_visit_union node (self : t) :
  visit node self = (fun found => self ∪ found) <$> visit node ∅.
Proof.
  revert self. induction node as [kind fs IH] using node_children_ind.
  assert (forall self : t,
            NodeVisitor_generic_visit (fields_map visit fs) self
            = (fun found => self ∪ found)
              <$> NodeVisitor_generic_visit (fields_map visit fs) ∅) as Hdescend.
  { intros self. unfold NodeVisitor_generic_visit. rewrite field_children_map.
    apply visit_each_union. by apply Forall_map. }
  intros self. rewrite MethodField_visit_Node. unfold dispatch.
  destruct (bool_decide _); [|apply Hdescend].
  unfold visit_Attribute.
  destruct (getattr _ "value") as [value|]; [|done]. simpl_option.
  match goal with |- context [@mbind option _ _ _ _ ?o] =>
    destruct o as [[]|] end; [| |done]; simpl_option.
  - destruct (attr_str _ "attr") as [attr|]; [|done]. simpl_option.
    rewrite (Hdescend (self ∪ {[attr]})), (Hdescend (∅ ∪ {[attr]})).
    destruct (NodeVisitor_generic_visit _ ∅) as [found|]; [|done]. simpl_option.
    f_equal. rewrite (left_id_L ∅ (∪)). by rewrite (assoc_L (∪)).
  - apply Hdescend.
Qed.

(** X7.  [MethodFieldVisitor] only ever adds to [fields_accessed]: visiting
    a tree from a set of fields already found gives that set united with
    what the visit of the tree finds on its own (and raises when that visit
    raises). *)
Theorem fields_accessed_accumulate node (already : gset string) :
  visit node already
  = (fun found => already ∪ found) <$> fields_accessed node.
Proof. apply MethodField_visit_union. Qed.

End method_field_properties.

(** ** [ComplexityVisitor]: blocks *)
Section complexity_blocks.
Import ComplexityVisitor ComplexitySpec BlockSpec.

Lemma body_visits kind fs body :
  attr_list (Node kind fs) "body" = Some body ->
  lookup_field "body" (fields_map visit fs) ≫= as_list = Some (map visit body).
Proof.
  unfold attr_list, getattr. cbn [fields]. rewrite lookup_field_map.
  destruct (lookup_field "body" fs) as [[]|]; cbn; congruence.
Qed.

Lemma function_kind_dispatch kind fs :
  kind ∈ function_kinds ->
  visit (Node kind fs) = visit_FunctionDef (Node kind fs) (fields_map visit fs).
Proof.
  intros Hk. rewrite visit_Node. unfold dispatch. cbn [get_name].
  apply elem_of_cons in Hk as [->|Hk]; [done|].
  apply elem_of_cons in Hk as [->|Hk]; [done|].
  by apply elem_of_nil in Hk.
Qed.

(** X14.  A function definition with an empty body makes the visit raise:
    [visitor] is unbound after a loop that never ran (the parser builds no
    such definition, a program that builds trees can). *)
Theorem function_without_body_raises kind fs self :
  kind ∈ function_kinds ->
  attr_list (Node kind fs) "body" = Some [] ->
  visit (Node kind fs) self = None.
Proof.
  intros Hk Hbody. rewrite function_kind_dispatch by done.
  unfold visit_FunctionDef.
  rewrite (body_visits kind fs _ Hbody). cbn.
  case_option; done.
Qed.

Lemma function_without_body_raises_witness :
  visit (ast.FunctionDef "f" (ast.arguments []) [] [] None)
        (init false None true false) = None.
Proof.
  apply function_without_body_raises.
  - apply list_elem_of_here.
  - reflexivity.
Defined.

(** *** What a visit keeps *)

(** What one step of a visit does to the visitor: the settings stay, the
    lists of blocks are extended at the end, the greatest line does not go
    down, and what is recorded is made by this visitor. *)
Lemma visit_each_preserves (R : t -> t -> Prop) (visits : list (t -> option t)) :
  (forall s, R s s) -> (forall s1 s2 s3, R s1 s2 -> R s2 s3 -> R s1 s3) ->
  Forall (fun v => forall s s', v s = Some s' -> R s s') visits ->
  forall s s', visit_each visits s = Some s' -> R s s'.
Proof.
  intros Hrefl Htrans. induction 1 as [|v visits Hv _ IH]; intros s s'; cbn.
  - intros [= <-]. apply Hrefl.
  - destruct (v s) as [s1|] eqn:Hs1; cbn; [|done].
    intros Hrest. eapply Htrans; [by apply Hv|by apply IH].
Qed.

Lemma line_le_refl line : line_le line line.
Proof. destruct line; cbn; [lia|done]. Qed.

Lemma line_le_trans l1 l2 l3 : line_le l1 l2 -> line_le l2 l3 -> line_le l1 l3.
Proof. destruct l1, l2, l3; cbn; try done. lia. Qed.

Lemma max_with_ge lineno line : lineno <= max_with lineno line.
Proof. destruct line; cbn; lia. Qed.

Lemma max_with_line lineno line : line_le line (Some (max_with lineno line)).
Proof. destruct line; cbn; [lia|done]. Qed.

Lemma foldl_max_with_ge lines lineno : lineno <= foldl max_with lineno lines.
Proof.
  revert lineno. induction lines as [|line lines IH]; intros lineno; cbn; [lia|].
  etrans; [apply (max_with_ge lineno line)|apply IH].
Qed.

Lemma foldl_max_with_mono lines m n :
  m <= n -> foldl max_with m lines <= foldl max_with n lines.
Proof.
  revert m n. induction lines as [|line lines IH]; intros m n Hmn; cbn; [done|].
  apply IH. destruct line; cbn; lia.
Qed.

Lemma foldl_max_with_elem lines lineno m :
  Some m ∈ lines -> m <= foldl max_with lineno lines.
Proof.
  revert lineno. induction lines as [|line lines IH]; intros lineno Hin.
  - by apply elem_of_nil in Hin.
  - apply elem_of_cons in Hin as [<-|Hin]; cbn; [|by apply IH].
    etrans; [|apply foldl_max_with_ge]. cbn. lia.
Qed.

Lemma keeps_records_refl s : keeps_records s s.
Proof.
  repeat split; try done. apply line_le_refl.
Qed.

Lemma made_by_settings s s' f : same_settings s s' -> made_by s f <-> made_by s' f.
Proof. intros (_ & Hm & Hc & _). unfold made_by. by rewrite Hm, Hc. Qed.

Lemma keeps_records_trans s1 s2 s3 :
  keeps_records s1 s2 -> keeps_records s2 s3 -> keeps_records s1 s3.
Proof.
  intros ((Hs & Hf & Hc & Hl) & Hm & Hk) ((Hs' & Hf' & Hc' & Hl') & Hm' & Hk').
  split; [split; [|split; [|split]]|split].
  - destruct Hs as (? & ? & ? & ?), Hs' as (? & ? & ? & ?).
    repeat split; congruence.
  - by etrans.
  - by etrans.
  - by eapply line_le_trans.
  - intros H1. apply Hm in H1.
    eapply Forall_impl; [apply Hm'|].
    + eapply Forall_impl; [exact H1|]. intros f Hmade.
      by apply (made_by_settings s1 s2).
    + intros f Hmade. by apply (made_by_settings s1 s2).
  - intros H1. by apply Hk', Hk.
Qed.

Lemma keeps_records_add_complexity k s : keeps_records s (add_complexity k s).
Proof. repeat split; try done. apply line_le_refl. Qed.

Lemma keeps_records_set_max_line line s : keeps_records s (set_max_line line s).
Proof.
  unfold set_max_line. destruct (above line (_max_line s)) eqn:Habove;
    [|apply keeps_records_refl].
  repeat split; try done. cbn. unfold above in Habove.
  destruct (_max_line s) as [m|]; cbn; [|done].
  apply bool_decide_eq_true in Habove. lia.
Qed.

Lemma keeps_records_append_function f s :
  made_by s f -> keeps_records s (append_function f s).
Proof.
  intros Hf. repeat split; try done; cbn.
  - by apply prefix_app_r.
  - apply line_le_refl.
  - intros H1. apply Forall_app. split; [done|]. by constructor.
Qed.

Lemma keeps_records_append_class c s :
  class_of_methods c -> keeps_records s (append_class c s).
Proof.
  intros Hc. repeat split; try done; cbn.
  - by apply prefix_app_r.
  - apply line_le_refl.
  - intros H1. apply Forall_app. split; [done|]. by constructor.
Qed.

Lemma note_line_keeps node s s' : note_line node s = Some s' -> keeps_records s s'.
Proof.
  unfold note_line. destruct (hasattr _ _).
  - destruct (attr_int _ _) as [line|]; cbn; [|done].
    intros [= <-]. apply keeps_records_set_max_line.
  - intros [= <-]. apply keeps_records_refl.
Qed.

Lemma count_node_keeps node s s' : count_node node s = Some s' -> keeps_records s s'.
Proof.
  unfold count_node. case_bool; case_option; intros [= <-];
    first [apply keeps_records_add_complexity | apply keeps_records_refl].
Qed.

Lemma visit_FunctionDef_record node sub self self' :
  visit_FunctionDef node sub self = Some self' ->
  exists func, self' = append_function func self /\ made_by self func.
Proof.
  unfold visit_FunctionDef. case_option; intros [= <-].
  eexists. split; [reflexivity|]. repeat split. cbn. apply max_with_ge.
Qed.

Lemma body_visits_fmap kind fs :
  lookup_field "body" (fields_map visit fs) ≫= as_list
  = map visit <$> attr_list (Node kind fs) "body".
Proof.
  unfold attr_list, getattr. cbn [fields]. rewrite lookup_field_map.
  by destruct (lookup_field "body" fs) as [[]|].
Qed.

Lemma lookup_field_children {N : Type} (P : N -> Prop) f (fs : list (string * value N)) l :
  lookup_field f fs = Some (VList l) ->
  Forall P (field_children fs) -> Forall P l.
Proof.
  unfold field_children.
  induction fs as [|[g v] fs IH]; cbn [lookup_field map concat]; [done|].
  intros Hl [Hv Hfs]%Forall_app. case_decide.
  - injection Hl as ->. exact Hv.
  - by apply IH.
Qed.

Lemma attr_list_children (P : AST -> Prop) kind fs f l :
  attr_list (Node kind fs) f = Some l ->
  Forall P (field_children fs) -> Forall P l.
Proof.
  unfold attr_list, getattr. cbn [fields].
  destruct (lookup_field f fs) as [[]|] eqn:Hl; cbn; try done.
  intros [= ->]. by apply lookup_field_children with f.
Qed.

Lemma class_body_methods classname na (body : list (t -> option t)) :
  Forall (fun v => forall s s', v s = Some s' -> keeps_records s s') body ->
  forall methods bc lines inner methods' bc' lines' inner',
    class_body classname na body methods bc lines inner
    = Some (methods', bc', lines', inner') ->
    Forall (made_by (init true (Some classname) false na)) methods ->
    Forall (made_by (init true (Some classname) false na)) methods'.
Proof.
  induction 1 as [|v body Hv _ IH]; intros methods bc lines inner methods' bc'
    lines' inner'; cbn [class_body].
  - by intros [= <- <- <- <-].
  - destruct (v _) as [visitor|] eqn:Hvis; cbn; [|done].
    intros Hrest Hm. eapply IH; [exact Hrest|].
    apply Forall_app; split; [done|].
    apply Hv in Hvis as (_ & Hmade & _). apply Hmade. constructor.
Qed.

Lemma class_body_inner classname na (body : list (t -> option t)) :
  Forall (fun v => forall s s', v s = Some s' -> keeps_records s s') body ->
  forall methods bc lines inner methods' bc' lines' inner',
    class_body classname na body methods bc lines inner
    = Some (methods', bc', lines', inner') ->
    Forall class_of_methods inner -> Forall class_of_methods inner'.
Proof.
  induction 1 as [|v body Hv _ IH]; intros methods bc lines inner methods' bc'
    lines' inner'; cbn [class_body].
  - by intros [= <- <- <- <-].
  - destruct (v _) as [visitor|] eqn:Hvis; cbn; [|done].
    intros Hrest Hm. eapply IH; [exact Hrest|].
    apply Forall_app; split; [done|].
    apply Hv in Hvis as (_ & _ & Hclasses). apply Hclasses. constructor.
Qed.

Lemma visit_keeps_records node self self' :
  visit node self = Some self' -> keeps_records self self'.
Proof.
  revert self self'. induction node as [kind fs IH] using node_children_ind.
  intros self self'. rewrite visit_Node. unfold dispatch. cbn [get_name].
  case_bool.
  - unfold visit_Assert. intros [= <-]. apply keeps_records_add_complexity.
  - intros (f & -> & Hf)%visit_FunctionDef_record.
    by apply keeps_records_append_function.
  - intros (f & -> & Hf)%visit_FunctionDef_record.
    by apply keeps_records_append_function.
  - unfold visit_ClassDef. rewrite (body_visits_fmap kind).
    destruct (attr_str _ _) as [name|]; [|done]. simpl_option.
    destruct (attr_int _ "lineno") as [lineno|]; [|done]. simpl_option.
    destruct (attr_list _ _) as [body|] eqn:Hbody; [|done]. simpl_option.
    destruct (class_body _ _ _ _ _ _ _) as [[[[methods bc] lines] inner]|] eqn:Hloop;
      [|done]. simpl_option.
    destruct (attr_int _ "col_offset") as [col_offset|]; [|done]. simpl_option.
    intros [= <-]. apply keeps_records_append_class.
    assert (Forall (fun v => forall s s', v s = Some s' -> keeps_records s s')
                   (map visit body)) as Hvisits.
    { apply Forall_map. by apply (attr_list_children _ _ _ _ _ Hbody). }
    split; cbn.
    + apply foldl_max_with_ge.
    + pose proof (class_body_methods _ _ _ Hvisits _ _ _ _ _ _ _ _ Hloop
                    (Forall_nil_2 _)) as Hmethods.
      apply Forall_forall. intros f Hin.
      rewrite Forall_forall in Hmethods.
      destruct (Hmethods f Hin) as (? & ? & ?). repeat split; try done.
      apply foldl_max_with_elem, elem_of_app. right.
      apply (list_elem_of_fmap_2 (fun m => Some (fn_endline m))). done.
  - unfold generic_visit.
    destruct (note_line _ self) as [s1|] eqn:H1; [|done]. simpl_option.
    destruct (count_node _ s1) as [s2|] eqn:H2; [|done]. simpl_option.
    intros H3. apply note_line_keeps in H1. apply count_node_keeps in H2.
    eapply keeps_records_trans; [exact H1|].
    eapply keeps_records_trans; [exact H2|].
    revert H3. unfold NodeVisitor_generic_visit. rewrite field_children_map.
    apply visit_each_preserves;
      [apply keeps_records_refl|apply keeps_records_trans|].
    by apply Forall_map.
Qed.

(** X8.  A visit leaves the settings of the visitor ([off], [to_method],
    [classname], [no_assert]) as they are, only extends the lists of
    functions and classes at their ends, and never lowers the greatest line
    seen. *)
Theorem visit_extends_visitor node self self' :
  visit node self = Some self' -> extends self self'.
Proof. intros Hvisit. by destruct (visit_keeps_records _ _ _ Hvisit). Qed.

Lemma visit_extends_visitor_witness :
  exists self',
    visit class_and_function (init false None true false) = Some self'
    /\ extends (init false None true false) self'.
Proof.
  eexists. split; [reflexivity|].
  apply (visit_extends_visitor class_and_function). reflexivity.
Defined.

(** X9.  Every [Function] record in the [functions] of a visitor made by
    [from_ast] carries the visitor's [to_method] and [classname], and its
    [endline] is not before its [lineno]. *)
Theorem functions_carry_the_settings node to_method classname off no_assert visitor :
  from_ast node to_method classname off no_assert = Some visitor ->
  Forall (fun f => fn_is_method f = to_method /\ fn_classname f = classname
                   /\ fn_lineno f <= fn_endline f)
         (functions visitor).
Proof.
  unfold from_ast. intros Hvisit.
  destruct (visit_keeps_records _ _ _ Hvisit) as (_ & Hmade & _).
  apply Hmade. constructor.
Qed.

Lemma functions_carry_the_settings_witness :
  exists visitor,
    from_ast class_and_function false None true false = Some visitor
    /\ Forall (fun f => fn_is_method f = false /\ fn_classname f = None
                        /\ fn_lineno f <= fn_endline f)
              (functions visitor).
Proof.
  eexists. split; [reflexivity|].
  apply (functions_carry_the_settings class_and_function false None true false).
  reflexivity.
Defined.

(** X10.  Every [Class] record in the [classes] of a visitor made by
    [from_ast] ends no earlier than it starts and no earlier than any of its
    methods, and all its [methods] are methods ([is_method]) with the name of
    the class as their [classname]. *)
Theorem classes_hold_their_methods node to_method classname off no_assert visitor :
  from_ast node to_method classname off no_assert = Some visitor ->
  Forall class_of_methods (classes visitor).
Proof.
  unfold from_ast. intros Hvisit.
  destruct (visit_keeps_records _ _ _ Hvisit) as (_ & _ & Hclasses).
  apply Hclasses. constructor.
Qed.

Lemma classes_hold_their_methods_witness :
  exists visitor,
    from_ast class_and_function false None true false = Some visitor
    /\ Forall class_of_methods (classes visitor).
Proof.
  eexists. split; [reflexivity|].
  apply (classes_hold_their_methods class_and_function false None true false).
  reflexivity.
Defined.

(** *** The complexity of a function and of a class *)

Lemma sum_app l1 l2 : sum (l1 ++ l2) = sum l1 + sum l2.
Proof. unfold sum. induction l1 as [|x l1 IH]; cbn; lia. Qed.

Lemma function_body_visitors na body closures bc last :
  function_body na (map visit body) closures bc last
  = visitors ← statement_visitors false None na body;
    Some (closures ++ concat (map functions visitors),
          bc + sum (map complexity visitors),
          last_visitor last visitors).
Proof.
  revert closures bc last.
  induction body as [|child body IH]; intros closures bc last.
  - cbn. by rewrite app_nil_r, Z.add_0_r.
  - cbn [map function_body]. unfold statement_visitors. cbn [mapM].
    destruct (visit child _) as [visitor|]; [|done]. simpl_option.
    rewrite IH. unfold statement_visitors.
    destruct (mapM _ body) as [visitors|]; [|done]. simpl_option.
    f_equal. f_equal; [f_equal|].
    + cbn. by rewrite app_assoc.
    + cbn [map]. unfold sum. cbn. fold (sum (map complexity visitors)). lia.
    + unfold last_visitor. destruct visitors as [|v vs]; [done|].
      change (list.last (visitor :: v :: vs)) with (list.last (v :: vs)).
      destruct (list.last (v :: vs)) eqn:Hlast; [done|].
      by apply last_None in Hlast.
Qed.

(** X11.  The complexity of a function is one more than the sum of what
    its body statements add, each counted by a visitor of its own that
    starts at zero; the functions these visitors find are the closures.  The
    visitor that meets the definition gets the [Function] record and nothing
    else: its own counter stays. *)
Theorem function_counts_its_statements kind fs body self self' :
  kind ∈ function_kinds ->
  attr_list (Node kind fs) "body" = Some body ->
  visit (Node kind fs) self = Some self' ->
  exists visitors func,
    statement_visitors false None (no_assert self) body = Some visitors
    /\ self' = append_function func self
    /\ fn_complexity func = 1 + sum (map complexity visitors)
    /\ fn_closures func = concat (map functions visitors).
Proof.
  intros Hk Hbody. rewrite function_kind_dispatch by done.
  unfold visit_FunctionDef. rewrite (body_visits_fmap kind), Hbody. simpl_option.
  rewrite function_body_visitors.
  destruct (statement_visitors _ _ _ _) as [visitors|]; [|done]. simpl_option.
  case_option; intros [= <-].
  eexists _, _. repeat split; reflexivity.
Qed.

Lemma function_counts_its_statements_witness :
  exists visitors func,
    statement_visitors false None false function_f_body = Some visitors
    /\ append_function
         (mkFunction "f" 4 0 6 false None [] 3) (init false None true false)
       = append_function func (init false None true false)
    /\ fn_complexity func = 1 + sum (map complexity visitors)
    /\ fn_closures func = concat (map functions visitors).
Proof.
  apply (function_counts_its_statements "FunctionDef" (fields function_f) function_f_body
           (init false None true false)).
  - apply list_elem_of_here.
  - reflexivity.
  - reflexivity.
Defined.

Lemma class_body_visitors classname na body methods bc lines inner :
  class_body classname na (map visit body) methods bc lines inner
  = visitors ← statement_visitors true (Some classname) na body;
    Some (methods ++ concat (map functions visitors),
          bc + sum (map complexity visitors)
          + sum (map fn_complexity (concat (map functions visitors))),
          lines ++ map max_line visitors,
          inner ++ concat (map classes visitors)).
Proof.
  revert methods bc lines inner.
  induction body as [|child body IH]; intros methods bc lines inner.
  - cbn. by rewrite !app_nil_r, !Z.add_0_r.
  - cbn [map class_body]. unfold statement_visitors. cbn [mapM].
    destruct (visit child _) as [visitor|]; [|done]. simpl_option.
    rewrite IH. unfold statement_visitors.
    destruct (mapM _ body) as [visitors|]; [|done]. simpl_option.
    cbn [map concat]. rewrite map_app, sum_app, <- !app_assoc.
    f_equal. repeat (apply pair_equal_spec; split); try done.
    unfold functions_complexity, len.
    change (sum (complexity visitor :: map complexity visitors))
      with (complexity visitor + sum (map complexity visitors)).
    lia.
Qed.

(** X12.  The [real_complexity] of a class is one, plus what the statements
    of its body add (each counted by a visitor of its own), plus the
    complexities of its methods; the methods and the inner classes are what
    these visitors find. *)
Theorem class_counts_statements_and_methods fs name body self self' :
  attr_str (Node "ClassDef" fs) "name" = Some name ->
  attr_list (Node "ClassDef" fs) "body" = Some body ->
  visit (Node "ClassDef" fs) self = Some self' ->
  exists visitors cls,
    statement_visitors true (Some name) (no_assert self) body = Some visitors
    /\ self' = append_class cls self
    /\ cls_methods cls = concat (map functions visitors)
    /\ cls_inner_classes cls = concat (map classes visitors)
    /\ cls_real_complexity cls
       = 1 + sum (map complexity visitors)
         + sum (map fn_complexity (cls_methods cls)).
Proof.
  intros Hname Hbody. rewrite visit_Node. unfold dispatch. cbn [get_name].
  rewrite !(bool_decide_eq_false_2 ("ClassDef" = _)) by done.
  rewrite (bool_decide_eq_true_2 ("ClassDef" = "ClassDef")) by done.
  unfold visit_ClassDef. rewrite (body_visits_fmap "ClassDef"), Hname, Hbody.
  simpl_option. destruct (attr_int _ "lineno") as [lineno|]; [|done].
  simpl_option. rewrite class_body_visitors.
  destruct (statement_visitors _ _ _ _) as [visitors|]; [|done]. simpl_option.
  destruct (attr_int _ "col_offset") as [col_offset|]; [|done]. simpl_option.
  intros [= <-]. eexists _, _. repeat split; reflexivity.
Qed.

Lemma class_counts_statements_and_methods_witness :
  exists visitors cls,
    statement_visitors true (Some "K") false [method_m] = Some visitors
    /\ append_class
         (mkClass "K" 1 0 3 [mkFunction "m" 2 4 3 true (Some "K") [] 1] [] 2)
         (init false None true false)
       = append_class cls (init false None true false)
    /\ cls_methods cls = concat (map functions visitors)
    /\ cls_inner_classes cls = concat (map classes visitors)
    /\ cls_real_complexity cls
       = 1 + sum (map complexity visitors)
         + sum (map fn_complexity (cls_methods cls)).
Proof.
  apply (class_counts_statements_and_methods (fields class_K) "K" [method_m]
           (init false None true false)).
  - reflexivity.
  - reflexivity.
  - reflexivity.
Defined.

(** *** The starting value of the counter *)

Lemma set_max_line_off b line self :
  set_max_line line (with_off b self) = with_off b (set_max_line line self).
Proof. unfold set_max_line; simpl. by destruct (above _ _). Qed.

Lemma note_line_off node b self :
  note_line node (with_off b self) = with_off b <$> note_line node self.
Proof.
  unfold note_line. destruct (hasattr _ _); [|done].
  destruct (attr_int _ _); simpl; [|done]. by rewrite set_max_line_off.
Qed.

Lemma count_node_off node b self :
  count_node node (with_off b self) = with_off b <$> count_node node self.
Proof. unfold count_node. case_bool; case_option; reflexivity. Qed.

Lemma visit_each_commutes (g : t -> t) (visits : list (t -> option t)) :
  Forall (fun v => forall self, v (g self) = g <$> v self) visits ->
  forall self, visit_each visits (g self) = g <$> visit_each visits self.
Proof.
  induction 1 as [|v visits Hv _ IH]; intros self; simpl; [done|].
  rewrite Hv. destruct (v self) as [self'|]; simpl; [apply IH|done].
Qed.

Lemma visit_with_off b node self :
  visit node (with_off b self) = with_off b <$> visit node self.
Proof.
  revert self. induction node as [kind fs IH] using node_children_ind.
  intros self. rewrite visit_Node. unfold dispatch. cbn [get_name].
  case_bool.
  - reflexivity.
  - unfold visit_AsyncFunctionDef, visit_FunctionDef.
    cbn [no_assert to_method classname with_off].
    case_option; reflexivity.
  - unfold visit_FunctionDef.
    cbn [no_assert to_method classname with_off].
    case_option; reflexivity.
  - unfold visit_ClassDef.
    cbn [no_assert to_method classname with_off].
    case_option; reflexivity.
  - unfold generic_visit. rewrite note_line_off.
    destruct (note_line _ self) as [self1|]; cbn; [|done].
    rewrite count_node_off.
    destruct (count_node _ self1) as [self2|]; cbn; [|done].
    rewrite !(generic_descent kind). apply visit_each_commutes.
    unfold children; cbn [fields]. by apply Forall_map.
Qed.

(** X13.  [total_complexity] does not depend on [off]: a visitor that
    starts its counter at 1 ([off=True]) and one that starts at 0 and adds
    the 1 at the end ([off=False]) report the same total for the same tree,
    and the one raises when the other does. *)
Theorem total_complexity_ignores_off node to_method classname no_assert :
  total_complexity <$> from_ast node to_method classname true no_assert
  = total_complexity <$> from_ast node to_method classname false no_assert.
Proof.
  unfold from_ast.
  change (init to_method classname true no_assert)
    with (with_off true (add_complexity 1 (init to_method classname false no_assert))).
  rewrite visit_with_off, visit_add.
  destruct (visit node (init _ _ false _)) as [visitor|] eqn:Hvisit; [|done].
  simpl_option. f_equal.
  destruct (visit_keeps_records _ _ _ Hvisit) as (((Hoff & _) & _) & _).
  unfold total_complexity, functions_complexity, classes_complexity.
  cbn [with_off add_complexity off complexity functions classes].
  rewrite Hoff. cbn. lia.
Qed.

(** X15.  What a visit adds to the counter does not depend on where the
    counter stands: visiting from a counter raised by [d] gives what the
    visit gives, with the counter raised by [d], and raises when it does. *)
Theorem visit_shifts_counter d node self :
  visit node (add_complexity d self) = add_complexity d <$> visit node self.
Proof. apply visit_add. Qed.

End complexity_blocks.

(** ** [HalsteadVisitor] *)
Section halstead_properties.
Import HalsteadVisitor HalsteadSpec.

Lemma Halstead_visit_Node kind fs :
  visit (Node kind fs) = dispatch (Node kind fs) (fields_map visit fs).
Proof. reflexivity. Qed.

Lemma Halstead_body_visits kind fs :
  lookup_field "body" (fields_map visit fs) ≫= as_list
  = map visit <$> attr_list (Node kind fs) "body".
Proof.
  unfold attr_list, getattr. cbn [fields]. rewrite lookup_field_map.
  by destruct (lookup_field "body" fs) as [[]|].
Qed.

Lemma Halstead_function_body_visitors name body self func_visitor :
  function_body (Some name) (map visit body) self func_visitor
  = visitors ← statement_visitors name body;
    Some (foldl (fun acc v => fold_visitor v acc) self visitors,
          foldl (fun acc v => fold_visitor v acc) func_visitor visitors).
Proof.
  revert self func_visitor.
  induction body as [|child body IH]; intros self func_visitor; [done|].
  cbn [map function_body]. unfold statement_visitors, from_ast. cbn [mapM].
  destruct (visit child _) as [visitor|]; [|done]. simpl_option.
  rewrite IH. unfold statement_visitors, from_ast.
  by destruct (mapM _ body) as [visitors|].
Qed.

Lemma foldl_fold_visitor visitors self :
  let self' := foldl (fun acc v => fold_visitor v acc) self visitors in
  operators self' = operators self + sum (map operators visitors)
  /\ operands self' = operands self + sum (map operands visitors)
  /\ operators_seen self' = operators_seen self ∪ ⋃ (map operators_seen visitors)
  /\ operands_seen self' ≡ operands_seen self ∪ ⋃ (map operands_seen visitors)
  /\ context self' = context self
  /\ function_visitors self' = function_visitors self.
Proof.
  revert self. induction visitors as [|v visitors IH]; intros self; cbn.
  - rewrite !Z.add_0_r, (right_id_L ∅ (∪)), (right_id ∅ (∪)). done.
  - destruct (IH (fold_visitor v self)) as (H1 & H2 & H3 & H4 & H5 & H6).
    rewrite H1, H2, H3, H4, H5, H6. cbn.
    rewrite (assoc_L (∪)), (assoc (∪)).
    repeat split; try done; unfold sum; cbn; lia.
Qed.

Lemma Halstead_function_kind_dispatch kind fs :
  kind ∈ BlockSpec.function_kinds ->
  visit (Node kind fs) = visit_FunctionDef (Node kind fs) (fields_map visit fs).
Proof.
  intros Hk. rewrite Halstead_visit_Node. unfold dispatch. cbn [get_name].
  apply elem_of_cons in Hk as [->|Hk]; [done|].
  apply elem_of_cons in Hk as [->|Hk]; [done|].
  by apply elem_of_nil in Hk.
Qed.

(** X16.  Function scoping.  Visiting a function definition appends one
    visitor for the function to [function_visitors]; it has the name of the
    function as its context and holds the sums and unions of the counts of
    the visitors of the body statements.  The visitor that meets the
    definition receives the same: its totals grow by the totals of the
    function's visitor, and its sets by the sets of that visitor. *)
Theorem function_counts_go_to_both kind fs name body self self' :
  kind ∈ BlockSpec.function_kinds ->
  attr_str (Node kind fs) "name" = Some name ->
  attr_list (Node kind fs) "body" = Some body ->
  visit (Node kind fs) self = Some self' ->
  exists visitors func_visitor,
    statement_visitors name body = Some visitors
    /\ function_visitors self' = function_visitors self ++ [func_visitor]
    /\ context func_visitor = Some name
    /\ function_visitors func_visitor = []
    /\ operators func_visitor = sum (map operators visitors)
    /\ operands func_visitor = sum (map operands visitors)
    /\ operators_seen func_visitor = ⋃ (map operators_seen visitors)
    /\ operands_seen func_visitor ≡ ⋃ (map operands_seen visitors)
    /\ operators self' = operators self + operators func_visitor
    /\ operands self' = operands self + operands func_visitor
    /\ operators_seen self' = operators_seen self ∪ operators_seen func_visitor
    /\ operands_seen self' ≡ operands_seen self ∪ operands_seen func_visitor
    /\ context self' = context self.
Proof.
  intros Hk Hname Hbody. rewrite Halstead_function_kind_dispatch by done.
  unfold visit_FunctionDef. rewrite Hname, (Halstead_body_visits kind), Hbody.
  simpl_option. rewrite Halstead_function_body_visitors.
  destruct (statement_visitors name body) as [visitors|]; [|done]. simpl_option.
  intros [= <-].
  exists visitors, (foldl (fun acc v => fold_visitor v acc) (init (Some name)) visitors).
  split; [done|].
  destruct (foldl_fold_visitor visitors self) as (H1 & H2 & H3 & H4 & H5 & H6).
  destruct (foldl_fold_visitor visitors (init (Some name)))
    as (F1 & F2 & F3 & F4 & F5 & F6).
  cbn [append_function_visitor function_visitors operators operands
       operators_seen operands_seen context].
  rewrite H1, H2, H3, H4, H5, H6, F1, F2, F3, F4, F5, F6. cbn.
  rewrite (left_id_L ∅ (∪)), (left_id ∅ (∪)). done.
Qed.

Lemma function_counts_go_to_both_witness :
  exists self',
    visit function_f (init None) = Some self'
    /\ exists visitors func_visitor,
      statement_visitors "f" function_f_statements = Some visitors
      /\ function_visitors self' = function_visitors (init None) ++ [func_visitor]
      /\ context func_visitor = Some "f"
      /\ function_visitors func_visitor = []
      /\ operators func_visitor = sum (map operators visitors)
      /\ operands func_visitor = sum (map operands visitors)
      /\ operators_seen func_visitor = ⋃ (map operators_seen visitors)
      /\ operands_seen func_visitor ≡ ⋃ (map operands_seen visitors)
      /\ operators self' = operators (init None) + operators func_visitor
      /\ operands self' = operands (init None) + operands func_visitor
      /\ operators_seen self'
         = operators_seen (init None) ∪ operators_seen func_visitor
      /\ operands_seen self'
         ≡ operands_seen (init None) ∪ operands_seen func_visitor
      /\ context self' = context (init None).
Proof.
  eexists. split; [reflexivity|].
  apply (function_counts_go_to_both "FunctionDef" (fields function_f) "f"
           function_f_statements (init None)).
  - apply list_elem_of_here.
  - reflexivity.
  - reflexivity.
  - reflexivity.
Defined.

(** *** What a visit keeps *)

Lemma Halstead_visit_each_preserves (R : t -> t -> Prop) (visits : list (t -> option t)) :
  (forall s, R s s) -> (forall s1 s2 s3, R s1 s2 -> R s2 s3 -> R s1 s3) ->
  Forall (fun v => forall s s', v s = Some s' -> R s s') visits ->
  forall s s', visit_each visits s = Some s' -> R s s'.
Proof.
  intros Hrefl Htrans. induction 1 as [|v visits Hv _ IH]; intros s s'; cbn.
  - intros [= <-]. apply Hrefl.
  - destruct (v s) as [s1|] eqn:Hs1; cbn; [|done].
    intros Hrest. eapply Htrans; [by apply Hv|by apply IH].
Qed.

Lemma keeps_counts_refl s : keeps_counts s s.
Proof. repeat split; try done; lia. Qed.

Lemma keeps_counts_trans s1 s2 s3 :
  keeps_counts s1 s2 -> keeps_counts s2 s3 -> keeps_counts s1 s3.
Proof.
  intros ((H1 & H2 & H3 & H4 & H5 & H6) & H7 & H8)
         ((G1 & G2 & G3 & G4 & G5 & G6) & G7 & G8).
  repeat split; try (by etrans); try lia; try congruence.
  - intros ?. by apply G7, H7.
  - intros ?. by apply G8, H8.
Qed.

Lemma size_list_to_set_le (l : list string) :
  Z.of_nat (size (list_to_set (C := gset string) l)) <= len l.
Proof.
  unfold len. induction l as [|x l IH]; cbn [list_to_set length].
  - by rewrite size_empty.
  - rewrite size_union_alt, size_singleton.
    pose proof (subseteq_size (list_to_set (C := gset string) l ∖ {[x]})
                  (list_to_set l)) as Hle.
    assert (list_to_set (C := gset string) l ∖ {[x]} ⊆ list_to_set l) as Hsub.
    { by intros y [Hy _]%elem_of_difference. }
    specialize (Hle Hsub). lia.
Qed.

Lemma keeps_counts_add_counts n m (ops : gset string) opnds s :
  0 <= n -> 0 <= m -> Z.of_nat (size ops) <= n ->
  keeps_counts s (add_counts n m ops opnds s).
Proof.
  intros Hn Hm Hops. repeat split; cbn; try done; try lia; try set_solver.
  unfold counts_cover_seen, distinct_operators. cbn. intros Hcover.
  rewrite size_union_alt.
  pose proof (subseteq_size (ops ∖ operators_seen s) ops) as Hle.
  assert (ops ∖ operators_seen s ⊆ ops) as Hsub.
  { by intros y [Hy _]%elem_of_difference. }
  specialize (Hle Hsub). lia.
Qed.

Lemma keeps_counts_append_function_visitor v s :
  counts_cover_seen v -> keeps_counts s (append_function_visitor v s).
Proof.
  intros Hv. repeat split; cbn; try done; try lia.
  - by apply prefix_app_r.
  - intros Hall. apply Forall_app. split; [done|]. by constructor.
Qed.

Lemma aux_keeps_counts node sub meth :
  (forall n m ops opnds, meth node = Some (n, m, ops, opnds) ->
                         0 <= n /\ 0 <= m /\ len ops <= n) ->
  Forall (fun v => forall s s', v s = Some s' -> keeps_counts s s')
         (field_children sub) ->
  forall s s', aux node sub meth s = Some s' -> keeps_counts s s'.
Proof.
  intros Hmeth Hsub s s'. unfold aux.
  destruct (meth node) as [[[[n m] ops] opnds]|]; [|done]. simpl_option.
  destruct (Hmeth n m ops opnds eq_refl) as (Hn & Hm & Hops).
  intros Hvisit.
  apply (Halstead_visit_each_preserves keeps_counts _ keeps_counts_refl
           keeps_counts_trans Hsub) in Hvisit.
  eapply keeps_counts_trans; [|exact Hvisit].
  apply keeps_counts_add_counts; [done..|].
  pose proof (size_list_to_set_le ops). lia.
Qed.

Lemma len_nonneg {A : Type} (l : list A) : 0 <= len l.
Proof. unfold len. lia. Qed.

Lemma function_body_keeps_counts name (body : list (t -> option t)) :
  Forall (fun v => forall s s', v s = Some s' -> keeps_counts s s') body ->
  forall self func_visitor self' func_visitor',
    function_body name body self func_visitor = Some (self', func_visitor') ->
    keeps_counts self self' /\ keeps_counts func_visitor func_visitor'.
Proof.
  induction 1 as [|v body Hv _ IH]; intros self func_visitor self' func_visitor';
    cbn [function_body].
  - intros [= <- <-]. split; apply keeps_counts_refl.
  - destruct (v _) as [visitor|] eqn:Hvis; [|done]. simpl_option.
    intros [Hself Hfunc]%IH.
    apply Hv in Hvis as ((_ & Hops & Hopnds & _) & Hcover & _).
    assert (Z.of_nat (size (operators_seen visitor)) <= operators visitor).
    { apply Hcover. unfold counts_cover_seen, distinct_operators. cbn.
      by rewrite size_empty. }
    split; (eapply keeps_counts_trans; [|eassumption]);
      by apply keeps_counts_add_counts.
Qed.

Lemma visit_FunctionDef_keeps_counts node sub :
  (forall body, lookup_field "body" sub ≫= as_list = Some body ->
     Forall (fun v => forall s s', v s = Some s' -> keeps_counts s s') body) ->
  forall s s', visit_FunctionDef node sub s = Some s' -> keeps_counts s s'.
Proof.
  intros Hbody s s'. unfold visit_FunctionDef.
  destruct (attr_str _ _) as [name|]; [|done]. simpl_option.
  destruct (lookup_field "body" sub ≫= as_list) as [body|]; [|done].
  simpl_option.
  destruct (function_body _ _ _ _) as [[s1 fv]|] eqn:Hloop; [|done].
  simpl_option. intros [= <-].
  apply function_body_keeps_counts in Hloop as [Hself (_ & Hfunc & _)];
    [|by apply Hbody].
  eapply keeps_counts_trans; [exact Hself|].
  apply keeps_counts_append_function_visitor, Hfunc.
  unfold counts_cover_seen, distinct_operators. cbn. by rewrite size_empty.
Qed.

Lemma visit_keeps_counts node self self' :
  visit node self = Some self' -> keeps_counts self self'.
Proof.
  revert self self'. induction node as [kind fs IH] using node_children_ind.
  assert (Forall (fun v => forall s s', v s = Some s' -> keeps_counts s s')
                 (field_children (fields_map visit fs))) as Hsub.
  { rewrite field_children_map. by apply Forall_map. }
  assert (forall body,
            lookup_field "body" (fields_map visit fs) ≫= as_list = Some body ->
            Forall (fun v => forall s s', v s = Some s' -> keeps_counts s s') body)
    as Hbody.
  { intros body. rewrite (Halstead_body_visits kind).
    destruct (attr_list _ _) as [l|] eqn:Hl; [|done]. intros [= <-].
    apply Forall_map. by apply (attr_list_children _ _ _ _ _ Hl). }
  intros self self'. rewrite Halstead_visit_Node. unfold dispatch.
  cbn [get_name]. case_bool.
  - apply aux_keeps_counts; [|done]. unfold meth_BinOp.
    intros n m ops opnds. case_option; intros [= <- <- <- <-];
      unfold len; cbn [length]; lia.
  - apply aux_keeps_counts; [|done]. unfold meth_UnaryOp.
    intros n m ops opnds. case_option; intros [= <- <- <- <-];
      unfold len; cbn [length]; lia.
  - apply aux_keeps_counts; [|done]. unfold meth_BoolOp.
    intros n m ops opnds. case_option; intros [= <- <- <- <-].
    pose proof (len_nonneg l). unfold len in *. cbn [length]. lia.
  - apply aux_keeps_counts; [|done]. unfold meth_AugAssign.
    intros n m ops opnds. case_option; intros [= <- <- <- <-];
      unfold len; cbn [length]; lia.
  - apply aux_keeps_counts; [|done]. unfold meth_Compare.
    intros n m ops opnds. case_option; intros [= <- <- <- <-].
    pose proof (len_nonneg l). pose proof (len_nonneg l0).
    unfold len in *. rewrite length_map. lia.
  - by apply visit_FunctionDef_keeps_counts.
  - by apply visit_FunctionDef_keeps_counts.
  - apply (Halstead_visit_each_preserves keeps_counts _ keeps_counts_refl
             keeps_counts_trans Hsub).
Qed.

(** X17.  A visit of a [HalsteadVisitor] keeps the context, never lowers
    the number of operators or of operands, never forgets an operator or an
    operand seen, and only extends [function_visitors] at its end. *)
Theorem halstead_visit_extends_visitor node self self' :
  visit node self = Some self' -> extends self self'.
Proof. intros Hvisit. by destruct (visit_keeps_counts _ _ _ Hvisit). Qed.

Lemma halstead_visit_extends_visitor_witness :
  exists self',
    visit function_f (init None) = Some self' /\ extends (init None) self'.
Proof.
  eexists. split; [reflexivity|].
  apply (halstead_visit_extends_visitor function_f). reflexivity.
Defined.

(** X18.  A visitor made by [HalsteadVisitor.from_ast] never has more
    distinct operators than operators, and neither has any of the visitors
    of its functions. *)
Theorem distinct_operators_are_counted node context visitor :
  from_ast node context = Some visitor ->
  distinct_operators visitor <= operators visitor
  /\ Forall (fun func_visitor =>
               distinct_operators func_visitor <= operators func_visitor)
            (function_visitors visitor).
Proof.
  unfold from_ast. intros Hvisit.
  destruct (visit_keeps_counts _ _ _ Hvisit) as (_ & Hcover & Hfunctions).
  split.
  - apply Hcover. unfold counts_cover_seen, distinct_operators. cbn.
    by rewrite size_empty.
  - apply Hfunctions. constructor.
Qed.

Lemma distinct_operators_are_counted_witness :
  exists visitor,
    from_ast function_f None = Some visitor
    /\ distinct_operators visitor <= operators visitor
    /\ Forall (fun func_visitor =>
                 distinct_operators func_visitor <= operators func_visitor)
              (function_visitors visitor).
Proof.
  eexists. split; [reflexivity|].
  apply (distinct_operators_are_counted function_f None). reflexivity.
Defined.

End halstead_properties.

(** ** [AllClassesVisitor] *)
Section all_classes_properties.
Import AllClassesVisitor.

Lemma AllClasses_visit_Node kind fs :
  visit (Node kind fs) = dispatch (Node kind fs) (fields_map visit fs).
Proof. reflexivity. Qed.

Lemma visit_each_append (visits : list (t -> option t)) :
  Forall (fun v => forall self, v self = (fun found => self ++ found) <$> v []) visits ->
  forall self,
    visit_each visits self = (fun found => self ++ found) <$> visit_each visits [].
Proof.
  induction 1 as [|v visits Hv _ IH]; intros self; cbn [visit_each].
  - cbn. by rewrite app_nil_r.
  - rewrite (Hv self). destruct (v []) as [found|]; [|done]. simpl_option.
    rewrite (IH (self ++ found)), (IH found).
    destruct (@visit_each t visits []) as [more|]; simpl_option; [|done].
    by rewrite app_assoc.
Qed.

(** X19.  [AllClassesVisitor] only ever appends to [classes]: visiting a
    tree from a list of names gives that list followed by what the visit
    of the tree finds on its own, and raises when that visit raises. *)
Theorem class_names_accumulate node (already : list string) :
  visit node already = (fun found => already ++ found) <$> visit node [].
Proof.
  revert already. induction node as [kind fs IH] using node_children_ind.
  intros already. rewrite AllClasses_visit_Node. unfold dispatch.
  assert (forall self,
            NodeVisitor_generic_visit (fields_map visit fs) self
            = (fun found => self ++ found)
              <$> NodeVisitor_generic_visit (fields_map visit fs) [])
    as Hdescend.
  { unfold NodeVisitor_generic_visit. apply visit_each_append.
    rewrite field_children_map. by apply Forall_map. }
  case_bool; [|apply Hdescend].
  unfold visit_ClassDef. destruct (attr_str _ _) as [name|]; [|done].
  simpl_option. rewrite (Hdescend (already ++ [name])), (Hdescend ([] ++ [name])).
  destruct (@NodeVisitor_generic_visit t _ []) as [found|]; [|done].
  simpl_option. by rewrite <- app_assoc.
Qed.

End all_classes_properties.

(** ** [CBOVisitor]: imports *)
Section cbo_imports.
Import CBOVisitor CBOSpec.

Lemma import_names_app names1 names2 self :
  import_names (names1 ++ names2) self
  = import_names names1 self ≫= import_names names2.
Proof.
  revert self. induction names1 as [|alias names1 IH]; intros self; [done|].
  cbn [app import_names].
  destruct (attr_str alias "name") as [name|]; [|done]. simpl_option.
  destruct (getattr alias "asname") as [asname|]; [|done]. simpl_option.
  destruct (if truthy asname then as_str asname else Some name) as [bound|];
    [|done]. simpl_option. apply IH.
Qed.

Lemma import_from_names_app module names1 names2 self :
  import_from_names module (names1 ++ names2) self
  = import_from_names module names1 self ≫= import_from_names module names2.
Proof.
  revert self. induction names1 as [|alias names1 IH]; intros self; [done|].
  cbn [app import_from_names].
  destruct (attr_str alias "name") as [name|]; [|done]. simpl_option.
  destruct (getattr alias "asname") as [asname|]; [|done]. simpl_option.
  destruct (if truthy asname then as_str asname else Some name) as [bound|];
    [|done]. simpl_option.
  match goal with |- context [@mbind option _ _ _ _ ?o ≫= _] =>
    destruct o as [full_name|] end; [|done]. simpl_option. apply IH.
Qed.

Lemma alias_asname name asname :
  (if truthy (ast.opt_str asname) then as_str (ast.opt_str asname) else Some name)
  = Some (bound_name name asname).
Proof.
  unfold bound_name. destruct asname as [[|c s]|]; reflexivity.
Qed.

Lemma get_full_name_Name self id ctx :
  get_full_name self (VNode (ast.Name id ctx))
  = Some (Some (default id (imported_names self !! id))).
Proof. reflexivity. Qed.

(** X20.  Imports round trip.  After [visit_Import], the name that the
    last alias of the statement binds ([asname], or [name] when there is
    none) is resolved by [get_full_name] to the imported [name], in
    whatever context the [Name] stands. *)
Theorem import_binds_alias names name asname ctx self self' :
  visit_Import (ast.Import (names ++ [ast.alias name asname])) self = Some self' ->
  get_full_name self' (VNode (ast.Name (bound_name name asname) ctx))
  = Some (Some name).
Proof.
  unfold visit_Import. change (attr_list (ast.Import ?l) "names") with (Some l).
  simpl_option. rewrite import_names_app.
  destruct (import_names names self) as [self1|]; [|done]. simpl_option.
  cbn [import_names]. change (attr_str (ast.alias name asname) "name") with (Some name).
  change (getattr (ast.alias name asname) "asname")
    with (Some (ast.opt_str asname)).
  simpl_option. rewrite alias_asname. simpl_option. intros [= <-].
  rewrite get_full_name_Name. cbn [imported_names set_imported_names].
  by rewrite lookup_insert_eq.
Qed.

Lemma import_binds_alias_witness :
  get_full_name
    (set_imported_names {[ "np" := "numpy" ]} (init ∅ []))
    (VNode (ast.Name (bound_name "numpy" (Some "np")) ast.Load))
  = Some (Some "numpy").
Proof.
  apply (import_binds_alias [] "numpy" (Some "np") ast.Load (init ∅ [])).
  reflexivity.
Defined.

(** X21.  After [visit_ImportFrom], the name that the last alias binds is
    resolved by [get_full_name] to the module path followed by the imported
    name, or to the name alone when the statement has no module. *)
Theorem import_from_binds_alias module names name asname level ctx self self' :
  visit_ImportFrom
    (ast.ImportFrom module (names ++ [ast.alias name asname]) level) self
  = Some self' ->
  get_full_name self' (VNode (ast.Name (bound_name name asname) ctx))
  = Some (Some (imported_path module name)).
Proof.
  unfold visit_ImportFrom.
  change (getattr (ast.ImportFrom module ?l level) "module")
    with (Some (ast.opt_str module)).
  change (attr_list (ast.ImportFrom module ?l level) "names") with (Some l).
  simpl_option. rewrite import_from_names_app.
  destruct (import_from_names _ names self) as [self1|]; [|done]. simpl_option.
  cbn [import_from_names].
  change (attr_str (ast.alias name asname) "name") with (Some name).
  change (getattr (ast.alias name asname) "asname")
    with (Some (ast.opt_str asname)).
  simpl_option. rewrite alias_asname. simpl_option.
  assert ((if truthy (ast.opt_str module)
           then module' ← as_str (ast.opt_str module);
                Some (module' ++ "." ++ name)%string
           else Some name) = Some (imported_path module name)) as ->.
  { unfold imported_path. by destruct module as [[|c m]|]. }
  simpl_option. intros [= <-].
  rewrite get_full_name_Name. cbn [imported_names set_imported_names].
  by rewrite lookup_insert_eq.
Qed.

Lemma import_from_binds_alias_witness :
  get_full_name
    (set_imported_names {[ "join" := "os.path.join" ]} (init ∅ []))
    (VNode (ast.Name (bound_name "join" None) ast.Load))
  = Some (Some (imported_path (Some "os.path") "join")).
Proof.
  apply (import_from_binds_alias (Some "os.path") [] "join" None 0 ast.Load
           (init ∅ [])).
  reflexivity.
Defined.

End cbo_imports.

(** ** [CBOVisitor]: the class being visited *)
Section cbo_cursor.
Import CBOVisitor CBOSpec.

Lemma CBO_visit_Node kind fs :
  visit (Node kind fs) = dispatch (Node kind fs) (fields_map visit fs).
Proof. reflexivity. Qed.

Lemma CBO_visit_each_preserves (R : t -> t -> Prop) (visits : list (t -> option t)) :
  (forall s, R s s) -> (forall s1 s2 s3, R s1 s2 -> R s2 s3 -> R s1 s3) ->
  Forall (fun v => forall s s', v s = Some s' -> R s s') visits ->
  forall s s', visit_each visits s = Some s' -> R s s'.
Proof.
  intros Hrefl Htrans. induction 1 as [|v visits Hv _ IH]; intros s s'; cbn.
  - intros [= <-]. apply Hrefl.
  - destruct (v s) as [s1|] eqn:Hs1; cbn; [|done].
    intros Hrest. eapply Htrans; [by apply Hv|by apply IH].
Qed.

Lemma same_couplings_refl s : same_couplings s s.
Proof. by repeat split. Qed.

Lemma idle_step_refl s : idle_step s s.
Proof. intros _. apply same_couplings_refl. Qed.

Lemma idle_step_trans s1 s2 s3 :
  idle_step s1 s2 -> idle_step s2 s3 -> idle_step s1 s3.
Proof.
  intros H12 H23 Hidle. destruct (H12 Hidle) as (H1 & H2 & H3 & H4).
  assert (idle s2) as Hidle2 by (unfold idle; by rewrite H3).
  destruct (H23 Hidle2) as (G1 & G2 & G3 & G4).
  repeat split; congruence.
Qed.

Lemma import_names_same names s s' :
  import_names names s = Some s' -> same_couplings s s'.
Proof.
  revert s. induction names as [|alias names IH]; intros s; cbn [import_names].
  - intros [= <-]. apply same_couplings_refl.
  - destruct (attr_str alias "name") as [name|]; [|done]. simpl_option.
    destruct (getattr alias "asname") as [asname|]; [|done]. simpl_option.
    destruct (if truthy asname then as_str asname else Some name) as [bound|];
      [|done]. simpl_option.
    intros (H1 & H2 & H3 & H4)%IH. by repeat split.
Qed.

Lemma import_from_names_same module names s s' :
  import_from_names module names s = Some s' -> same_couplings s s'.
Proof.
  revert s. induction names as [|alias names IH]; intros s;
    cbn [import_from_names].
  - intros [= <-]. apply same_couplings_refl.
  - destruct (attr_str alias "name") as [name|]; [|done]. simpl_option.
    destruct (getattr alias "asname") as [asname|]; [|done]. simpl_option.
    destruct (if truthy asname then as_str asname else Some name) as [bound|];
      [|done]. simpl_option.
    match goal with |- context [@mbind option _ _ _ _ ?o] =>
      destruct o as [full_name|] end; [|done]. simpl_option.
    intros (H1 & H2 & H3 & H4)%IH. by repeat split.
Qed.

Lemma module_body_idle (body : list (AST * (t -> option t))) :
  Forall (fun item => forall s s', item.2 s = Some s' -> idle_step s s') body ->
  forall s s', module_body body s = Some s' -> idle_step s s'.
Proof.
  induction 1 as [|[body_item visit_item] body Hitem _ IH]; intros s s';
    cbn [module_body].
  - intros [= <-]. apply idle_step_refl.
  - destruct (isinstance (VNode body_item) "ClassDef").
    + destruct (attr_str body_item "name") as [name|]; [|done]. simpl_option.
      intros Hrest%IH. eapply idle_step_trans; [|exact Hrest].
      intros _. by repeat split.
    + destruct (isinstance (VNode body_item) "Import"
                || isinstance (VNode body_item) "ImportFrom").
      * destruct (visit_item s) as [s1|] eqn:Hs1; [|done]. simpl_option.
        intros Hrest%IH. eapply idle_step_trans; [|exact Hrest].
        by apply Hitem.
      * simpl_option. apply IH.
Qed.

Lemma Forall_zip_snd {A B : Type} (P : B -> Prop) (l : list A) (k : list B) :
  Forall P k -> Forall (fun item => P item.2) (zip l k).
Proof.
  intros Hk. revert l. induction Hk as [|y k Hy _ IH]; intros [|x l]; cbn;
    try constructor; [done|apply IH].
Qed.

Lemma class_free_Node kind fs :
  class_free (Node kind fs) = true ->
  kind <> "ClassDef"
  /\ Forall (fun child => class_free child = true) (field_children fs).
Proof.
  cbn [class_free]. rewrite field_children_map.
  intros [Hkind Hchildren]%andb_prop. split.
  - intros ->. by rewrite bool_decide_eq_true_2 in Hkind.
  - apply Forall_forall. intros child Hin.
    rewrite forallb_forall in Hchildren.
    apply (Hchildren (class_free child)).
    apply list_elem_of_In. by apply list_elem_of_fmap_2.
Qed.

Lemma CBO_body_visits kind fs :
  lookup_field "body" (fields_map visit fs) ≫= as_list
  = map visit <$> attr_list (Node kind fs) "body".
Proof.
  unfold attr_list, getattr. cbn [fields]. rewrite lookup_field_map.
  by destruct (lookup_field "body" fs) as [[]|].
Qed.

Lemma visit_idle node :
  class_free node = true ->
  forall s s', visit node s = Some s' -> idle_step s s'.
Proof.
  induction node as [kind fs IH] using node_children_ind.
  intros [Hkind Hfree]%class_free_Node.
  assert (Forall (fun child => forall s s', visit child s = Some s' -> idle_step s s')
                 (field_children fs)) as Hchildren.
  { apply Forall_forall. intros child Hin.
    rewrite Forall_forall in IH, Hfree. by apply IH, Hfree. }
  assert (forall s s',
            NodeVisitor_generic_visit (fields_map visit fs) s = Some s' ->
            idle_step s s') as Hdescend.
  { unfold NodeVisitor_generic_visit. rewrite field_children_map.
    apply CBO_visit_each_preserves;
      [apply idle_step_refl|apply idle_step_trans|by apply Forall_map]. }
  intros s s'. rewrite CBO_visit_Node. unfold dispatch. cbn [get_name].
  rewrite (bool_decide_eq_false_2 (kind = "ClassDef")) by done.
  case_bool.
  - (* Module *)
    unfold visit_Module. rewrite (CBO_body_visits kind).
    destruct (attr_list _ "body") as [body|] eqn:Hbody; [|done]. simpl_option.
    destruct (module_body _ s) as [s1|] eqn:Hloop; [|done]. simpl_option.
    intros Hrest%Hdescend. eapply idle_step_trans; [|exact Hrest].
    revert Hloop. apply module_body_idle.
    apply (Forall_zip_snd
             (fun v => forall s s', v s = Some s' -> idle_step s s')).
    apply Forall_map. by apply (attr_list_children _ _ _ _ _ Hbody).
  - (* Import *)
    unfold visit_Import. destruct (attr_list _ _) as [names|]; [|done].
    simpl_option. intros Hnames%import_names_same. by intros _.
  - (* ImportFrom *)
    unfold visit_ImportFrom. destruct (getattr _ _) as [module|]; [|done].
    simpl_option. destruct (attr_list _ _) as [names|]; [|done].
    simpl_option. intros Hnames%import_from_names_same. by intros _.
  - (* FunctionDef *)
    unfold visit_FunctionDef. intros Hvisit Hidle. revert Hvisit.
    rewrite Hidle. simpl_option. intros Hvisit. by apply (Hdescend s s').
  - (* Assign *)
    unfold visit_Assign. intros Hvisit Hidle. revert Hvisit.
    rewrite Hidle. intros Hvisit. by apply (Hdescend s s').
  - (* AnnAssign *)
    unfold visit_AnnAssign. intros Hvisit Hidle. revert Hvisit.
    rewrite Hidle. intros [= <-]. apply same_couplings_refl.
  - (* Call *)
    unfold visit_Call. intros Hvisit Hidle. revert Hvisit.
    rewrite Hidle. intros Hvisit. by apply (Hdescend s s').
  - (* Attribute *)
    unfold visit_Attribute. intros Hvisit Hidle. revert Hvisit.
    rewrite Hidle. intros Hvisit. by apply (Hdescend s s').
  - apply Hdescend.
Qed.

Lemma visit_ClassDef_leaves node s s' :
  get_name node = "ClassDef" -> visit node s = Some s' -> current_class s' = None.
Proof.
  destruct node as [kind fs]. cbn [get_name]. intros ->.
  rewrite CBO_visit_Node. unfold dispatch. cbn [get_name].
  rewrite !(bool_decide_eq_false_2 ("ClassDef" = _)) by done.
  rewrite (bool_decide_eq_true_2 ("ClassDef" = "ClassDef")) by done.
  unfold visit_ClassDef. case_option; try done. by intros [= <-].
Qed.

(** X22.  The class that was being visited is forgotten when a class
    definition has been visited: [current_class] is [None] then, whatever it
    was before.  The statements that follow the definition in the same list
    record no coupling and no attribute of [self] as long as they hold no
    class definition. *)
Theorem statements_after_a_class_add_no_coupling cls after self self' :
  get_name cls = "ClassDef" ->
  Forall (fun statement => class_free statement = true) after ->
  visit_each (map visit (cls :: after)) self = Some self' ->
  exists left,
    visit cls self = Some left
    /\ current_class left = None
    /\ same_couplings left self'.
Proof.
  intros Hcls Hafter. cbn [map visit_each].
  destruct (visit cls self) as [left|] eqn:Hleft; [|done]. simpl_option.
  intros Hrest. exists left. split; [done|].
  pose proof (visit_ClassDef_leaves _ _ _ Hcls Hleft) as Hnone.
  split; [done|].
  apply (CBO_visit_each_preserves idle_step _ idle_step_refl idle_step_trans)
    in Hrest.
  - apply Hrest. unfold idle. by rewrite Hnone.
  - apply Forall_map. eapply Forall_impl; [exact Hafter|].
    intros statement Hfree. by apply visit_idle.
Qed.

Lemma statements_after_a_class_add_no_coupling_witness :
  exists self' left,
    visit_each (map visit [Inner; x_is_Other])
      (set_current_class (Some "Outer") (init ∅ ["Outer"; "Inner"; "Other"]))
    = Some self'
    /\ visit Inner
         (set_current_class (Some "Outer") (init ∅ ["Outer"; "Inner"; "Other"]))
       = Some left
    /\ current_class left = None
    /\ same_couplings left self'.
Proof.
  destruct (visit_each (map visit [Inner; x_is_Other])
              (set_current_class (Some "Outer")
                 (init ∅ ["Outer"; "Inner"; "Other"])))
    as [self'|] eqn:Hvisit; [|by vm_compute in Hvisit].
  destruct (statements_after_a_class_add_no_coupling Inner [x_is_Other]
              (set_current_class (Some "Outer")
                 (init ∅ ["Outer"; "Inner"; "Other"]))
              self' eq_refl) as (left & Hleft & Hnone & Hsame).
  - by repeat constructor.
  - exact Hvisit.
  - by exists self', left.
Defined.

Lemma visit_ast_ClassDef name bases keywords body decorator_list self :
  visit (ast.ClassDef name bases keywords body decorator_list) self
  = entered ← class_bases bases
                (set_self_attributes (<[name := ∅]> (self_attributes self))
                   (set_class_couplings (<[name := ∅]> (class_couplings self))
                      (set_current_class (Some name) self)));
    left ← visit_each
              (map visit bases ++ map visit keywords ++ map visit body
               ++ map visit decorator_list) entered;
    Some (set_current_class None left).
Proof.
  unfold ast.ClassDef. rewrite CBO_visit_Node.
  unfold dispatch, visit_ClassDef, NodeVisitor_generic_visit.
  cbn. by rewrite app_nil_r.
Qed.

Lemma visit_each_snoc_ClassDef (before : list (t -> option t)) cls s s' :
  get_name cls = "ClassDef" ->
  visit_each (before ++ [visit cls]) s = Some s' -> current_class s' = None.
Proof.
  intros Hcls. rewrite visit_each_app.
  destruct (visit_each before s) as [s1|]; [|done]. simpl_option.
  cbn [visit_each]. destruct (visit cls s1) as [s2|] eqn:Hs2; [|done].
  simpl_option. intros [= <-]. by apply (visit_ClassDef_leaves cls s1).
Qed.

(** X23.  A class definition nested in the body of a class ends the
    enclosing class for the visitor: the statements after it in the body
    (and the decorators, which are visited after the body) change nothing
    of the couplings as long as they hold no class definition.  The
    couplings are those of the class cut off after the nested definition. *)
Theorem nested_class_ends_enclosing_class
    name bases keywords before nested after decorator_list self self' cut :
  get_name nested = "ClassDef" ->
  Forall (fun statement => class_free statement = true) after ->
  Forall (fun decorator => class_free decorator = true) decorator_list ->
  visit (ast.ClassDef name bases keywords (before ++ nested :: after)
           decorator_list) self = Some self' ->
  visit (ast.ClassDef name bases keywords (before ++ [nested]) []) self
  = Some cut ->
  class_couplings self' = class_couplings cut
  /\ self_attributes self' = self_attributes cut
  /\ current_class self' = None.
Proof.
  intros Hnested Hafter Hdecorators. rewrite !visit_ast_ClassDef.
  destruct (class_bases bases _) as [entered|]; [|done]. simpl_option.
  replace (map visit bases ++ map visit keywords
           ++ map visit (before ++ nested :: after) ++ map visit decorator_list)
    with ((map visit bases ++ map visit keywords ++ map visit before
           ++ [visit nested])
          ++ map visit (after ++ decorator_list)).
  2: { rewrite !map_app. cbn [map]. rewrite <- !app_assoc. done. }
  replace (map visit bases ++ map visit keywords
           ++ map visit (before ++ [nested]) ++ map visit [])
    with ((map visit bases ++ map visit keywords ++ map visit before
           ++ [visit nested]) ++ []).
  2: { rewrite !map_app. cbn [map]. rewrite <- !app_assoc. done. }
  set (prefix := map visit bases ++ map visit keywords ++ map visit before
                 ++ [visit nested]).
  rewrite !visit_each_app.
  destruct (visit_each prefix entered) as [left|] eqn:Hleft; [|done].
  simpl_option. cbn [visit_each].
  assert (current_class left = None) as Hnone.
  { revert Hleft. unfold prefix. rewrite !app_assoc.
    by apply visit_each_snoc_ClassDef. }
  destruct (visit_each (map visit (after ++ decorator_list)) left)
    as [last|] eqn:Hlast; [|done]. simpl_option.
  intros [= <-] [= <-]. cbn.
  apply (CBO_visit_each_preserves idle_step _ idle_step_refl idle_step_trans)
    in Hlast.
  - destruct Hlast as (H1 & H2 & _); [unfold idle; by rewrite Hnone|done].
  - apply Forall_map, Forall_app. split.
    + eapply Forall_impl; [exact Hafter|]. intros n Hn. by apply visit_idle.
    + eapply Forall_impl; [exact Hdecorators|]. intros n Hn. by apply visit_idle.
Qed.

Lemma nested_class_ends_enclosing_class_witness :
  exists self' cut,
    visit Outer (init ∅ ["Outer"; "Inner"; "Other"]) = Some self'
    /\ visit Outer_until_Inner (init ∅ ["Outer"; "Inner"; "Other"]) = Some cut
    /\ class_couplings self' = class_couplings cut
    /\ self_attributes self' = self_attributes cut
    /\ current_class self' = None.
Proof.
  destruct (visit Outer (init ∅ ["Outer"; "Inner"; "Other"]))
    as [self'|] eqn:Hvisit; [|by vm_compute in Hvisit].
  destruct (visit Outer_until_Inner (init ∅ ["Outer"; "Inner"; "Other"]))
    as [cut|] eqn:Hcut; [|by vm_compute in Hcut].
  exists self', cut. split; [done|]. split; [done|].
  apply (nested_class_ends_enclosing_class "Outer" [] [] [] Inner [x_is_Other] []
           (init ∅ ["Outer"; "Inner"; "Other"])).
  - reflexivity.
  - by repeat constructor.
  - constructor.
  - exact Hvisit.
  - exact Hcut.
Defined.

(** X24.  Code outside classes couples nothing: for a tree without a class
    definition, [analyze_cbo] returns the empty dictionary whenever it
    returns. *)
Theorem no_class_no_coupling builtin_types tree all_classes result :
  class_free tree = true ->
  analyze_cbo builtin_types tree all_classes = Some result ->
  result = ∅.
Proof.
  intros Hfree. unfold analyze_cbo.
  destruct (visit tree _) as [visitor|] eqn:Hvisit; [|done]. simpl_option.
  intros [= <-].
  destruct (visit_idle tree Hfree _ _ Hvisit) as (Hcouplings & _); [done|].
  cbn. rewrite Hcouplings. cbn. by rewrite !fmap_empty.
Qed.

Lemma no_class_no_coupling_witness :
  analyze_cbo ∅ (ast.Module [x_is_Other]) ["Other"] = Some ∅
  /\ (∅ : gmap string class_cbo_entry) = ∅.
Proof.
  split; [reflexivity|].
  apply (no_class_no_coupling ∅ (ast.Module [x_is_Other]) ["Other"]);
    reflexivity.
Defined.

End cbo_cursor.

(** ** [CBOVisitor]: couplings before and after the reduction *)
Section cbo_raw.
Import CBOVisitor CBOSpec.

Lemma keeps_no_self_refl s : keeps_no_self s s.
Proof. by intros H. Qed.

Lemma keeps_no_self_trans s1 s2 s3 :
  keeps_no_self s1 s2 -> keeps_no_self s2 s3 -> keeps_no_self s1 s3.
Proof. intros H12 H23 H. by apply H23, H12. Qed.

Lemma keeps_no_self_frame s s' :
  class_couplings s' = class_couplings s -> keeps_no_self s s'.
Proof. intros Heq H c X. rewrite Heq. apply H. Qed.

Lemma own_name_is_dotted s current :
  current_class s = Some current ->
  is_class_name s (Some current) = true -> dotted current = true.
Proof.
  intros Hcurrent. unfold is_class_name, dotted.
  destruct (bool_decide (len (split "." current) > 1)); [done|].
  cbn [andb]. unfold class_like. rewrite Hcurrent.
  rewrite (bool_decide_eq_false_2 (Some current ≠ Some current)) by naive_solver.
  by rewrite andb_false_r.
Qed.

Lemma add_coupling_keeps class_name s s' :
  is_class_name s (Some class_name) = true ->
  add_coupling class_name s = Some s' -> keeps_no_self s s'.
Proof.
  intros Hclass. unfold add_coupling.
  destruct (current_class s) as [current|] eqn:Hcurrent; [|done]. simpl_option.
  destruct (class_couplings s !! current) as [couplings|] eqn:Hcouplings;
    [|done]. simpl_option.
  intros [= <-] Hinv c X. cbn.
  destruct (decide (c = current)) as [->|Hne].
  - rewrite lookup_insert_eq. intros [= <-] [Hin|Hin%elem_of_singleton]%elem_of_union.
    + by apply (Hinv current couplings).
    + subst class_name. by apply (own_name_is_dotted s).
  - rewrite lookup_insert_ne by done. apply Hinv.
Qed.

Lemma couple_if_class_keeps name s s' :
  couple_if_class name s = Some s' -> keeps_no_self s s'.
Proof.
  unfold couple_if_class. destruct name as [class_name|].
  - destruct (is_class_name s (Some class_name)) eqn:Hclass.
    + by apply add_coupling_keeps.
    + intros [= <-]. apply keeps_no_self_refl.
  - intros [= <-]. apply keeps_no_self_refl.
Qed.

Lemma class_bases_keeps bases s s' :
  class_bases bases s = Some s' -> keeps_no_self s s'.
Proof.
  revert s. induction bases as [|base bases IH]; intros s; cbn [class_bases].
  - intros [= <-]. apply keeps_no_self_refl.
  - destruct (get_full_name s (VNode base)) as [base_name|]; [|done].
    simpl_option.
    destruct (couple_if_class base_name s) as [s1|] eqn:Hs1; [|done].
    simpl_option. intros Hrest%IH.
    eapply keeps_no_self_trans; [|exact Hrest]. by eapply couple_if_class_keeps.
Qed.

Lemma function_args_keeps args s s' :
  function_args args s = Some s' -> keeps_no_self s s'.
Proof.
  revert s. induction args as [|arg args IH]; intros s; cbn [function_args].
  - intros [= <-]. apply keeps_no_self_refl.
  - destruct (getattr arg "annotation") as [annotation|]; [|done].
    simpl_option. destruct (truthy annotation).
    + destruct (get_full_name s annotation) as [type_name|]; [|done].
      simpl_option.
      destruct (couple_if_class type_name s) as [s1|] eqn:Hs1; [|done].
      simpl_option. intros Hrest%IH.
      eapply keeps_no_self_trans; [|exact Hrest].
      by eapply couple_if_class_keeps.
    + simpl_option. apply IH.
Qed.

Lemma record_self_attribute_same attr_name assigned_class s s' :
  record_self_attribute attr_name assigned_class s = Some s' ->
  exists attributes, s' = set_self_attributes attributes s.
Proof.
  unfold record_self_attribute. case_option; try done.
  intros [= <-]. by eexists.
Qed.

Lemma assign_targets_keeps node targets s s' :
  assign_targets node targets s = Some s' -> keeps_no_self s s'.
Proof.
  revert s. induction targets as [|target targets IH]; intros s;
    cbn [assign_targets].
  - intros [= <-]. apply keeps_no_self_refl.
  - match goal with |- context [@mbind option _ _ _ _ ?o] =>
      destruct o as [[]|] end; [| |done]; simpl_option; [|apply IH].
    destruct (attr_str target "attr") as [attr_name|]; [|done]. simpl_option.
    destruct (getattr node "value" ≫= get_assigned_class s)
      as [[class_name|]|]; [| |done]; simpl_option; [|apply IH].
    destruct (is_class_name s (Some class_name)) eqn:Hclass;
      simpl_option; [|apply IH].
    destruct (record_self_attribute attr_name class_name s) as [s1|] eqn:Hs1;
      [|done]. simpl_option.
    destruct (add_coupling class_name s1) as [s2|] eqn:Hs2; [|done].
    simpl_option. intros Hrest%IH.
    eapply keeps_no_self_trans; [|exact Hrest].
    apply record_self_attribute_same in Hs1 as [attributes ->].
    apply (keeps_no_self_trans _ (set_self_attributes attributes s)).
    + by apply keeps_no_self_frame.
    + apply (add_coupling_keeps class_name); [exact Hclass|exact Hs2].
Qed.

Lemma module_body_keeps (body : list (AST * (t -> option t))) :
  Forall (fun item => forall s s', item.2 s = Some s' -> keeps_no_self s s') body ->
  forall s s', module_body body s = Some s' -> keeps_no_self s s'.
Proof.
  induction 1 as [|[body_item visit_item] body Hitem _ IH]; intros s s';
    cbn [module_body].
  - intros [= <-]. apply keeps_no_self_refl.
  - destruct (isinstance (VNode body_item) "ClassDef").
    + destruct (attr_str body_item "name") as [name|]; [|done]. simpl_option.
      intros Hrest%IH. eapply keeps_no_self_trans; [|exact Hrest].
      by apply keeps_no_self_frame.
    + destruct (isinstance (VNode body_item) "Import"
                || isinstance (VNode body_item) "ImportFrom").
      * destruct (visit_item s) as [s1|] eqn:Hs1; [|done]. simpl_option.
        intros Hrest%IH. eapply keeps_no_self_trans; [|exact Hrest].
        by apply Hitem.
      * simpl_option. apply IH.
Qed.

Lemma keeps_no_self_new_class name s :
  keeps_no_self s
    (set_self_attributes (<[name := ∅]> (self_attributes s))
       (set_class_couplings (<[name := ∅]> (class_couplings s))
          (set_current_class (Some name) s))).
Proof.
  intros Hinv c X. cbn. destruct (decide (c = name)) as [->|Hne].
  - rewrite lookup_insert_eq. intros [= <-] Hin. by apply elem_of_empty in Hin.
  - rewrite lookup_insert_ne by done. apply Hinv.
Qed.

Section visit_keeps.
Context (node : AST) (sub : list (string * value (t -> option t))).
Hypothesis descend_keeps :
  forall s s', NodeVisitor_generic_visit sub s = Some s' -> keeps_no_self s s'.

Lemma visit_ClassDef_keeps s s' :
  visit_ClassDef node sub s = Some s' -> keeps_no_self s s'.
Proof.
  unfold visit_ClassDef.
  destruct (attr_str node "name") as [name|]; [|done]. simpl_option.
  destruct (attr_list node "bases") as [bases|]; [|done]. simpl_option.
  destruct (class_bases bases _) as [s1|] eqn:Hs1; [|done]. simpl_option.
  destruct (NodeVisitor_generic_visit sub s1) as [s2|] eqn:Hs2; [|done].
  simpl_option. intros [= <-].
  eapply keeps_no_self_trans; [apply keeps_no_self_new_class|].
  eapply keeps_no_self_trans; [by eapply class_bases_keeps|].
  eapply keeps_no_self_trans; [by apply descend_keeps|].
  by apply keeps_no_self_frame.
Qed.

Lemma visit_FunctionDef_keeps s s' :
  visit_FunctionDef node sub s = Some s' -> keeps_no_self s s'.
Proof.
  unfold visit_FunctionDef. destruct (truthy_name (current_class s)).
  - destruct (getattr node "args") as [arguments|]; [|done]. simpl_option.
    destruct arguments as [| | | |arguments|]; try done.
    destruct (attr_list arguments "args") as [args|]; [|done]. simpl_option.
    destruct (function_args args s) as [s1|] eqn:Hs1; [|done]. simpl_option.
    destruct (getattr node "returns") as [returns|]; [|done]. simpl_option.
    apply function_args_keeps in Hs1.
    destruct (truthy returns).
    + destruct (get_full_name s1 returns) as [return_type|]; [|done].
      simpl_option.
      destruct (couple_if_class return_type s1) as [s2|] eqn:Hs2; [|done].
      simpl_option. intros Hrest%descend_keeps.
      eapply keeps_no_self_trans; [exact Hs1|].
      eapply keeps_no_self_trans; [by eapply couple_if_class_keeps|done].
    + simpl_option. intros Hrest%descend_keeps.
      by eapply keeps_no_self_trans.
  - simpl_option. apply descend_keeps.
Qed.

Lemma visit_Assign_keeps s s' :
  visit_Assign node sub s = Some s' -> keeps_no_self s s'.
Proof.
  unfold visit_Assign. destruct (truthy_name (current_class s));
    [|apply descend_keeps].
  destruct (attr_list node "targets") as [targets|]; [|done]. simpl_option.
  destruct (assign_targets node targets s) as [s1|] eqn:Hs1; [|done].
  simpl_option. intros Hrest%descend_keeps.
  eapply keeps_no_self_trans; [by eapply assign_targets_keeps|done].
Qed.

Lemma visit_AnnAssign_keeps s s' :
  visit_AnnAssign node sub s = Some s' -> keeps_no_self s s'.
Proof.
  unfold visit_AnnAssign. destruct (truthy_name (current_class s)).
  2: { intros [= <-]. apply keeps_no_self_refl. }
  destruct (getattr node "target") as [target|]; [|done]. simpl_option.
  destruct target as [| | | |target|]; cbn [isinstance]; simpl_option;
    try apply descend_keeps.
  destruct (bool_decide (get_name target = "Attribute")).
  2: { simpl_option. destruct (bool_decide (get_name target = "Name"));
         simpl_option; [|apply descend_keeps].
       destruct (getattr target "id") as [var_name|]; [|done]. simpl_option.
       destruct (getattr node "annotation" ≫= get_full_name s)
         as [assigned_class|]; [|done]. simpl_option.
       destruct (truthy_name assigned_class); [|apply descend_keeps].
       destruct (couple_if_class assigned_class s) as [s1|] eqn:Hs1; [|done].
       simpl_option. intros Hrest%descend_keeps.
       eapply keeps_no_self_trans; [by eapply couple_if_class_keeps|done]. }
  destruct (getattr target "value" ≫= is_self) as [[]|]; [| |done];
    simpl_option.
  - destruct (attr_str target "attr") as [attr_name|]; [|done]. simpl_option.
    destruct (getattr node "annotation" ≫= get_full_name s)
      as [[class_name|]|]; [| |done]; simpl_option;
      [|apply descend_keeps].
    destruct (nonempty class_name); simpl_option; [|apply descend_keeps].
    destruct (record_self_attribute attr_name class_name s) as [s1|] eqn:Hs1;
      [|done]. simpl_option.
    destruct (couple_if_class (Some class_name) s1) as [s2|] eqn:Hs2; [|done].
    simpl_option. intros Hrest%descend_keeps.
    apply record_self_attribute_same in Hs1 as [attributes ->].
    apply (keeps_no_self_trans _ (set_self_attributes attributes s));
      [by apply keeps_no_self_frame|].
    eapply keeps_no_self_trans; [by eapply couple_if_class_keeps|done].
  - destruct (bool_decide (get_name target = "Name")); simpl_option;
      [|apply descend_keeps].
    destruct (getattr target "id") as [var_name|]; [|done]. simpl_option.
    destruct (getattr node "annotation" ≫= get_full_name s)
      as [assigned_class|]; [|done]. simpl_option.
    destruct (truthy_name assigned_class); [|apply descend_keeps].
    destruct (couple_if_class assigned_class s) as [s1|] eqn:Hs1; [|done].
    simpl_option. intros Hrest%descend_keeps.
    eapply keeps_no_self_trans; [by eapply couple_if_class_keeps|done].
Qed.

Lemma visit_Call_keeps s s' :
  visit_Call node sub s = Some s' -> keeps_no_self s s'.
Proof.
  unfold visit_Call. destruct (truthy_name (current_class s));
    [|apply descend_keeps].
  destruct (getattr node "func" ≫= get_full_name s) as [func_name|]; [|done].
  simpl_option.
  destruct (couple_if_class func_name s) as [s1|] eqn:Hs1; [|done].
  simpl_option. intros Hrest%descend_keeps.
  eapply keeps_no_self_trans; [by eapply couple_if_class_keeps|done].
Qed.

Lemma visit_Attribute_keeps s s' :
  visit_Attribute node sub s = Some s' -> keeps_no_self s s'.
Proof.
  unfold visit_Attribute. destruct (truthy_name (current_class s));
    [|apply descend_keeps].
  destruct (getattr node "value") as [value|]; [|done]. simpl_option.
  destruct (is_self_attribute value) as [[]|]; [| |done]; simpl_option;
    [|apply descend_keeps].
  destruct value as [| | | |value|]; try done.
  destruct (get_self_attribute_class s value) as [attr_class|]; [|done].
  simpl_option.
  destruct (couple_if_class attr_class s) as [s1|] eqn:Hs1; [|done].
  simpl_option. intros Hrest%descend_keeps.
  eapply keeps_no_self_trans; [by eapply couple_if_class_keeps|done].
Qed.
End visit_keeps.

Lemma visit_keeps_no_self node s s' :
  visit node s = Some s' -> keeps_no_self s s'.
Proof.
  revert s s'. induction node as [kind fs IH] using node_children_ind.
  assert (forall s s',
            NodeVisitor_generic_visit (fields_map visit fs) s = Some s' ->
            keeps_no_self s s') as Hdescend.
  { unfold NodeVisitor_generic_visit. rewrite field_children_map.
    apply CBO_visit_each_preserves;
      [apply keeps_no_self_refl|apply keeps_no_self_trans|by apply Forall_map]. }
  intros s s'. rewrite CBO_visit_Node. unfold dispatch. cbn [get_name].
  case_bool.
  - unfold visit_Module. rewrite (CBO_body_visits kind).
    destruct (attr_list _ "body") as [body|] eqn:Hbody; [|done]. simpl_option.
    destruct (module_body _ s) as [s1|] eqn:Hloop; [|done]. simpl_option.
    intros Hrest%Hdescend. eapply keeps_no_self_trans; [|exact Hrest].
    revert Hloop. apply module_body_keeps.
    apply (Forall_zip_snd
             (fun v => forall s s', v s = Some s' -> keeps_no_self s s')).
    apply Forall_map. by apply (attr_list_children _ _ _ _ _ Hbody).
  - unfold visit_Import. destruct (attr_list _ _) as [names|]; [|done].
    simpl_option. intros (Hsame & _)%import_names_same.
    by apply keeps_no_self_frame.
  - unfold visit_ImportFrom. destruct (getattr _ _) as [module|]; [|done].
    simpl_option. destruct (attr_list _ _) as [names|]; [|done].
    simpl_option. intros (Hsame & _)%import_from_names_same.
    by apply keeps_no_self_frame.
  - by apply visit_ClassDef_keeps.
  - by apply visit_FunctionDef_keeps.
  - by apply visit_Assign_keeps.
  - by apply visit_AnnAssign_keeps.
  - by apply visit_Call_keeps.
  - by apply visit_Attribute_keeps.
  - apply Hdescend.
Qed.

(** X25.  Before the reduction to class names, no class is coupled to a
    name that is its own name, unless that name has a dot in it:
    [is_class_name] refuses the name of the class being visited. *)
Theorem no_class_is_coupled_to_its_plain_name
    builtin_types all_classes tree visitor class_name couplings :
  visit tree (init builtin_types all_classes) = Some visitor ->
  class_couplings visitor !! class_name = Some couplings ->
  dotted class_name = false ->
  class_name ∉ couplings.
Proof.
  intros Hvisit Hlookup Hplain Hin.
  apply visit_keeps_no_self in Hvisit.
  assert (no_plain_self_coupling (init builtin_types all_classes)) as Hinit.
  { intros c X Hc. cbn in Hc. by rewrite lookup_empty in Hc. }
  rewrite (Hvisit Hinit class_name couplings Hlookup Hin) in Hplain. done.
Qed.

Lemma no_class_is_coupled_to_its_plain_name_witness :
  exists visitor,
    visit A_B_C (init ∅ ["A"; "B"; "C"]) = Some visitor
    /\ class_couplings visitor !! "B" = Some {["A"]}
    /\ "B" ∉ ({["A"]} : gset string).
Proof.
  destruct (visit A_B_C (init ∅ ["A"; "B"; "C"])) as [visitor|] eqn:Hvisit;
    [|by vm_compute in Hvisit].
  assert (class_couplings visitor !! "B" = Some {["A"]}) as Hlookup.
  { vm_compute in Hvisit. injection Hvisit as <-. reflexivity. }
  exists visitor. split; [done|]. split; [done|].
  apply (no_class_is_coupled_to_its_plain_name ∅ ["A"; "B"; "C"] A_B_C visitor
           "B" {["A"]} Hvisit Hlookup).
  reflexivity.
Defined.

(** *** The reduction to class names *)

Lemma split_not_nil sep s : split sep s <> [].
Proof.
  destruct s as [|c s]; cbn [split]; [done|].
  case_decide; [done|]. by destruct (split sep s).
Qed.

Lemma split_plain sep name rest :
  length (split sep name) = 1%nat ->
  split sep (name ++ String sep rest) = name :: split sep rest.
Proof.
  induction name as [|c name IH]; simpl.
  - intros _. by rewrite decide_True.
  - case_decide as Hc.
    + cbn [length]. intros [= Hlen]. apply length_zero_iff_nil in Hlen.
      by apply split_not_nil in Hlen.
    + destruct (split sep name) as [|part [|more parts]] eqn:Hparts; [| |done].
      * by apply split_not_nil in Hparts.
      * intros _. by rewrite IH.
Qed.

Lemma plain_one_part name :
  dotted name = false -> length (split "." name) = 1%nat.
Proof.
  unfold dotted, len. intros Hplain%bool_decide_eq_false.
  pose proof (split_not_nil "." name) as Hparts.
  destruct (split "." name) as [|part parts]; [done|].
  cbn [length] in *. lia.
Qed.

Lemma get_class_name_own_prefix self name rest :
  dotted name = false -> class_like self name = true ->
  get_class_name self (name ++ "." ++ rest) = name.
Proof.
  intros Hplain Hclass. unfold get_class_name.
  change (name ++ "." ++ rest)%string with (name ++ String "." rest)%string.
  rewrite (split_plain "." name rest) by by apply plain_one_part.
  rewrite bool_decide_eq_true_2.
  - cbn [List.find]. unfold is_class_name.
    unfold dotted in Hplain. rewrite Hplain. cbn [andb]. by rewrite Hclass.
  - pose proof (split_not_nil "." rest) as Hparts. unfold len.
    destruct (split "." rest); [done|]. cbn [length]. lia.
Qed.

(** X26.  The reduction to class names can couple a class to itself.  When
    the visit has recorded for a class a name that starts with the name of
    the class itself and a dot, and the name of the class is class-like for
    the visitor after the visit (no class is being visited then),
    [analyze_cbo] lists the class among its own coupled classes. *)
Theorem reduction_can_couple_a_class_to_itself
    builtin_types tree all_classes visitor name rest couplings :
  visit tree (init builtin_types all_classes) = Some visitor ->
  dotted name = false ->
  class_like visitor name = true ->
  class_couplings visitor !! name = Some couplings ->
  (name ++ "." ++ rest)%string ∈ couplings ->
  exists result entry,
    analyze_cbo builtin_types tree all_classes = Some result
    /\ result !! name = Some entry
    /\ name ∈ coupled_classes entry.
Proof.
  intros Hvisit Hplain Hclass Hlookup Hin. unfold analyze_cbo.
  rewrite Hvisit. simpl_option. eexists _, _. split; [reflexivity|].
  cbn [split_couplings_and_leave_only_class_names class_couplings
       set_class_couplings].
  rewrite !lookup_fmap, Hlookup. cbn. split; [reflexivity|]. cbn.
  rewrite <- (get_class_name_own_prefix visitor name rest) at 1 by done.
  by apply elem_of_map_2.
Qed.

Lemma reduction_can_couple_a_class_to_itself_witness :
  exists visitor result entry,
    visit A_with_B (init ∅ ["A"; "B"]) = Some visitor
    /\ analyze_cbo ∅ A_with_B ["A"; "B"] = Some result
    /\ result !! "A" = Some entry
    /\ "A" ∈ coupled_classes entry.
Proof.
  destruct (visit A_with_B (init ∅ ["A"; "B"])) as [visitor|] eqn:Hvisit;
    [|by vm_compute in Hvisit].
  destruct (reduction_can_couple_a_class_to_itself ∅ A_with_B ["A"; "B"]
              visitor "A" "B" {["A.B"]} Hvisit)
    as (result & entry & Hresult & Hentry & Hin).
  - reflexivity.
  - vm_compute in Hvisit. injection Hvisit as <-. reflexivity.
  - vm_compute in Hvisit. injection Hvisit as <-. reflexivity.
  - by apply elem_of_singleton.
  - by exists visitor, result, entry.
Defined.

End cbo_raw.

(** ** [ComplexityVisitor]: the other counting rules *)
Section complexity_rules.
Import ComplexityVisitor ComplexitySpec.

Lemma not_method_kind (kind : string) :
  bool_decide (kind ∈ method_kinds) = false -> kind ∉ method_kinds.
Proof. by intros ?%bool_decide_eq_false. Qed.

(** X27.  A loop ([For], [While], [AsyncFor]) adds one, and one more when
    it has an [else] block, to what the descent into its children adds. *)
Theorem loop_adds_one_plus_else kind fs orelse self :
  kind ∈ ["For"; "While"; "AsyncFor"] ->
  getattr (Node kind fs) "orelse" = Some orelse ->
  visit (Node kind fs) self
  = add_complexity (Z_of_bool (truthy orelse) + 1) <$> descend (Node kind fs) self.
Proof.
  intros Hkind Horelse. apply counted_then_descended.
  - apply not_method_kind.
    repeat (apply elem_of_cons in Hkind as [->|Hkind]; [done|]).
    by apply elem_of_nil in Hkind.
  - intros s. unfold count_node. cbn [get_name]. rewrite Horelse.
    repeat (apply elem_of_cons in Hkind as [->|Hkind]; [done|]).
    by apply elem_of_nil in Hkind.
Qed.

Lemma loop_adds_one_plus_else_witness :
  visit (ast.While (ast.Name "x" ast.Load) [ast.Pass] [ast.Pass])
        (init false None false false)
  = add_complexity 2
    <$> descend (ast.While (ast.Name "x" ast.Load) [ast.Pass] [ast.Pass])
          (init false None false false).
Proof.
  apply (loop_adds_one_plus_else "While" _ (VList [ast.Pass])).
  - decide_closed.
  - reflexivity.
Defined.

(** X28.  A [try] statement adds the number of its handlers, and one more
    when it has an [else] block, to what the descent into its children
    adds; the [finally] block adds nothing of its own. *)
Theorem try_adds_handlers_plus_else kind fs handlers orelse self :
  kind ∈ ["Try"; "TryExcept"] ->
  attr_list (Node kind fs) "handlers" = Some handlers ->
  getattr (Node kind fs) "orelse" = Some orelse ->
  visit (Node kind fs) self
  = add_complexity (len handlers + Z_of_bool (truthy orelse))
    <$> descend (Node kind fs) self.
Proof.
  intros Hkind Hhandlers Horelse. apply counted_then_descended.
  - apply not_method_kind.
    repeat (apply elem_of_cons in Hkind as [->|Hkind]; [done|]).
    by apply elem_of_nil in Hkind.
  - intros s. unfold count_node. cbn [get_name].
    rewrite Hhandlers, Horelse.
    repeat (apply elem_of_cons in Hkind as [->|Hkind]; [done|]).
    by apply elem_of_nil in Hkind.
Qed.

Lemma try_adds_handlers_plus_else_witness :
  visit (ast.Try [ast.Pass]
           [ast.ExceptHandler None None [ast.Pass];
            ast.ExceptHandler None None [ast.Pass]] [] [ast.Pass])
        (init false None false false)
  = add_complexity 2
    <$> descend (ast.Try [ast.Pass]
                   [ast.ExceptHandler None None [ast.Pass];
                    ast.ExceptHandler None None [ast.Pass]] [] [ast.Pass])
          (init false None false false).
Proof.
  apply (try_adds_handlers_plus_else "Try" _
           [ast.ExceptHandler None None [ast.Pass];
            ast.ExceptHandler None None [ast.Pass]] (VList [])).
  - decide_closed.
  - reflexivity.
  - reflexivity.
Defined.

(** X29.  A conditional, statement or expression ([If], [IfExp]), adds
    exactly one to what the descent into its children adds: an [elif] is an
    [If] in the [else] block and adds one again, a plain [else] adds
    nothing. *)
Theorem conditional_adds_one kind fs self :
  kind ∈ ["If"; "IfExp"] ->
  visit (Node kind fs) self = add_complexity 1 <$> descend (Node kind fs) self.
Proof.
  intros Hkind. apply counted_then_descended.
  - apply not_method_kind.
    repeat (apply elem_of_cons in Hkind as [->|Hkind]; [done|]).
    by apply elem_of_nil in Hkind.
  - intros s. unfold count_node. cbn [get_name].
    repeat (apply elem_of_cons in Hkind as [->|Hkind]; [done|]).
    by apply elem_of_nil in Hkind.
Qed.

Lemma conditional_adds_one_witness :
  visit (ast.If (ast.Name "x" ast.Load) [ast.Pass] [ast.Pass])
        (init false None false false)
  = add_complexity 1
    <$> descend (ast.If (ast.Name "x" ast.Load) [ast.Pass] [ast.Pass])
          (init false None false false).
Proof. apply (conditional_adds_one "If"). decide_closed. Defined.

(** X30.  A [for] clause of a comprehension or generator expression adds
    one, and one more for each of its [if] conditions, to what the descent
    into its children adds. *)
Theorem comprehension_adds_ifs_plus_one fs ifs self :
  attr_list (Node "comprehension" fs) "ifs" = Some ifs ->
  visit (Node "comprehension" fs) self
  = add_complexity (len ifs + 1) <$> descend (Node "comprehension" fs) self.
Proof.
  intros Hifs. apply counted_then_descended.
  - by apply not_method_kind.
  - intros s. unfold count_node. cbn [get_name]. by rewrite Hifs.
Qed.

Lemma comprehension_adds_ifs_plus_one_witness :
  visit (ast.comprehension (ast.Name "x" ast.Store) (ast.Name "xs" ast.Load)
           [ast.Name "x" ast.Load] 0)
        (init false None false false)
  = add_complexity 2
    <$> descend (ast.comprehension (ast.Name "x" ast.Store)
                   (ast.Name "xs" ast.Load) [ast.Name "x" ast.Load] 0)
          (init false None false false).
Proof.
  apply (comprehension_adds_ifs_plus_one _ [ast.Name "x" ast.Load]).
  reflexivity.
Defined.

End complexity_rules.
